(** * Timing pipeline of the audio learning app: a shallow embedding

    The development follows
    [preprocessing_pipeline/scripts/process_elevenlabs_complete.py]
    (class [ElevenLabsCompleteProcessor]) and
    [preprocessing_pipeline/edge_case_handlers.py] (class [EdgeCaseHandlers]).

    Conventions of the embedding:
    - a Python [int] is a [Z]; [//] with a positive divisor is [Z.div]
      (both round towards minus infinity);
    - a Python [str] is a [string]; its characters are the 8-bit values of
      [ascii], read as the code points U+0000..U+00FF, and the character
      predicates below are Python's on that range.  Glyphs beyond U+00FF that
      occur in the source's patterns cannot occur in such a text and are left
      out of the character classes;
    - a Python [dict] with a fixed set of keys is a record; a word list or a
      sentence list mutated in place is a list threaded through the loop and
      updated by index;
    - an exception is [None] in an [option]; printing is not modelled. *)

From Stdlib Require Import ZArith Lia Ascii String.
From stdpp Require Import base option list strings gmap.

Local Open Scope string_scope.
Local Open Scope list_scope.
Local Open Scope Z_scope.

(** ** Python built-ins used by the source *)

Module Py.

Definition ord (c : ascii) : Z := Z.of_N (N_of_ascii c).

Definition between (lo hi : Z) (c : ascii) : bool :=
  (lo <=? ord c) && (ord c <=? hi).

(** [str.isspace], which is also what [str.strip()], [str.split()] and the
    pattern [\s] use. *)
Definition isspace (c : ascii) : bool :=
  between 9 13 c || between 28 32 c || (ord c =? 133) || (ord c =? 160).

Definition isupper (c : ascii) : bool :=
  between 65 90 c || between 192 214 c || between 216 222 c.

Definition islower (c : ascii) : bool :=
  between 97 122 c || (ord c =? 170) || (ord c =? 181) || (ord c =? 186)
  || between 223 246 c || between 248 255 c.

Definition isdigit (c : ascii) : bool :=
  between 48 57 c || between 178 179 c || (ord c =? 185).

(** the pattern [\d] *)
Definition isdecimal (c : ascii) : bool := between 48 57 c.

(** the pattern [\w] *)
Definition isword (c : ascii) : bool :=
  between 48 57 c || between 65 90 c || (ord c =? 95) || between 97 122 c
  || (ord c =? 170) || between 178 179 c || (ord c =? 181)
  || between 185 186 c || between 188 190 c || between 192 214 c
  || between 216 246 c || between 248 255 c.

Definition len (s : string) : Z := Z.of_nat (String.length s).

Fixpoint drop (n : nat) (s : string) : string :=
  match n, s with
  | O, _ => s
  | S n', String _ s' => drop n' s'
  | S _, EmptyString => EmptyString
  end.

Fixpoint take (n : nat) (s : string) : string :=
  match n, s with
  | S n', String c s' => String c (take n' s')
  | _, _ => EmptyString
  end.

(** A slice bound as Python normalises it: a negative bound counts from
    the end, and both are clipped to [0, len]. *)
Definition clip (n i : Z) : Z :=
  if i <? 0 then Z.max 0 (i + n) else Z.min i n.

(** [s[lo:hi]]; an omitted bound is [None]. *)
Definition slice (s : string) (lo hi : option Z) : string :=
  let n := len s in
  let a := clip n (default 0 lo) in
  let b := clip n (default n hi) in
  take (Z.to_nat (b - a)) (drop (Z.to_nat a) s).

(** [s[i]], [None] for the [IndexError]. *)
Definition index (s : string) (i : Z) : option ascii :=
  let n := len s in
  let j := if i <? 0 then i + n else i in
  if (0 <=? j) && (j <? n) then String.get (Z.to_nat j) s else None.

Fixpoint lstrip (s : string) : string :=
  match s with
  | String c s' => if isspace c then lstrip s' else s
  | EmptyString => EmptyString
  end.

Fixpoint rstrip (s : string) : string :=
  match s with
  | String c s' =>
      match rstrip s' with
      | EmptyString => if isspace c then EmptyString else String c EmptyString
      | t => String c t
      end
  | EmptyString => EmptyString
  end.

Definition strip (s : string) : string := rstrip (lstrip s).

(** [s.endswith(suffix)] *)
Fixpoint endswith (s suffix : string) : bool :=
  if String.eqb s suffix then true
  else match s with
       | String _ s' => endswith s' suffix
       | EmptyString => false
       end.

(** [c in s] for a single character [c] *)
Fixpoint contains (c : ascii) (s : string) : bool :=
  match s with
  | String d s' => Ascii.eqb c d || contains c s'
  | EmptyString => false
  end.

(** [s.count(c)] for a single character [c] *)
Fixpoint count (c : ascii) (s : string) : Z :=
  match s with
  | String d s' => (if Ascii.eqb c d then 1 else 0) + count c s'
  | EmptyString => 0
  end.

(** [s.split(sep)] for a single character [sep]: every occurrence splits,
    so empty pieces are kept and the result is never empty. *)
Fixpoint split_on (sep : ascii) (s : string) : list string :=
  match s with
  | EmptyString => [EmptyString]
  | String c s' =>
      if Ascii.eqb c sep then EmptyString :: split_on sep s'
      else match split_on sep s' with
           | l :: ls => String c l :: ls
           | [] => [String c EmptyString]
           end
  end.

Definition at_token_end (s : string) : bool :=
  match s with
  | String c _ => isspace c
  | EmptyString => true
  end.

(** [s.split()]: the maximal runs of characters that are not whitespace. *)
Fixpoint split (s : string) : list string :=
  match s with
  | EmptyString => []
  | String c s' =>
      if isspace c then split s'
      else if at_token_end s' then String c EmptyString :: split s'
      else match split s' with
           | t :: ts => String c t :: ts
           | [] => [String c EmptyString]
           end
  end.

Fixpoint forallb_str (p : ascii -> bool) (s : string) : bool :=
  match s with
  | String c s' => p c && forallb_str p s'
  | EmptyString => true
  end.

(** [s.isupper()]: at least one cased character and no lowercase one. *)
Definition str_isupper (s : string) : bool :=
  negb (forallb_str (fun c => negb (isupper c)) s)
  && forallb_str (fun c => negb (islower c)) s.

(** [range(start, stop, step)] for [step <> 0] *)
Definition range (start stop step : Z) : list Z :=
  let n :=
    if 0 <? step then (stop - start + step - 1) / step
    else (start - stop - step - 1) / (- step) in
  map (fun k => start + Z.of_nat k * step) (seq 0 (Z.to_nat n)).

End Py.

(** ** Data model *)

(** A word dictionary, as [extract_words_with_timing] builds it. *)
Module Word.
Record t : Type := mk {
  word : string;
  start_ms : Z;
  end_ms : Z;
  char_start : Z;
  char_end : Z;
  sentence_index : Z
}.

Definition set_end_ms (w : t) (v : Z) : t :=
  mk (word w) (start_ms w) v (char_start w) (char_end w) (sentence_index w).

Definition set_sentence_index (w : t) (v : Z) : t :=
  mk (word w) (start_ms w) (end_ms w) (char_start w) (char_end w) v.
End Word.

(** ** GapNormalizer: [eliminate_timing_gaps] *)

(** The body of the loop for one pair: the new value of [current_word]. *)
Definition close_gap (current_word next_word : Word.t) : Word.t :=
  let gap := Word.start_ms next_word - Word.end_ms current_word in
  if 0 <? gap then
    if gap <? 500 then Word.set_end_ms current_word (Word.start_ms next_word)
    else
      let midpoint := Word.end_ms current_word + gap / 2 in
      Word.set_end_ms current_word midpoint
  else if gap <? 0 then
    Word.set_end_ms current_word (Word.start_ms next_word)
  else current_word.

(** One iteration [i] of [for i in range(len(words) - 1)] on the list as it
    stands; [words[i]] is replaced in place. *)
Definition gap_step (words : list Word.t) (i : nat) : list Word.t :=
  match words !! i, words !! S i with
  | Some current_word, Some next_word =>
      <[i := close_gap current_word next_word]> words
  | _, _ => words
  end.

Definition eliminate_timing_gaps (words : list Word.t) : list Word.t :=
  match words with
  | [] => words
  | _ => foldl gap_step words (seq 0 (length words - 1))
  end.

(** The same pass by recursion on the list: iteration [i] reads the
    [start_ms] of [words[i+1]], which no iteration writes, and the [end_ms]
    of [words[i]], which only iteration [i] writes. *)
Fixpoint close_gaps (words : list Word.t) : list Word.t :=
  match words with
  | current_word :: (next_word :: _) as rest =>
      close_gap current_word next_word :: close_gaps rest
  | _ => words
  end.

(** A sentence dictionary.  [apply_enhanced_sentence_detection] writes the
    word range under the keys [wordStartIndex] and [wordEndIndex] and adds
    [break_reason]; [_simple_sentence_detection] writes it under
    [word_start_index] and [word_end_index] and has no [break_reason]
    ([None] here). *)
Module Sentence.
Record t : Type := mk {
  text : string;
  start_ms : Z;
  end_ms : Z;
  sentence_index : Z;
  wordStartIndex : Z;
  wordEndIndex : Z;
  char_start : Z;
  char_end : Z;
  break_reason : option string
}.

Definition set_start_ms (s : t) (v : Z) : t :=
  mk (text s) v (end_ms s) (sentence_index s) (wordStartIndex s)
     (wordEndIndex s) (char_start s) (char_end s) (break_reason s).

Definition set_end_ms (s : t) (v : Z) : t :=
  mk (text s) (start_ms s) v (sentence_index s) (wordStartIndex s)
     (wordEndIndex s) (char_start s) (char_end s) (break_reason s).
End Sentence.

(** ** CoverageAssigner: [ensure_continuous_sentence_coverage] *)

(** One iteration [i] of the first loop: both sentences of the pair are
    written in place. *)
Definition extend_step (sentences : list Sentence.t) (i : nat) : list Sentence.t :=
  if Z.of_nat i <? Z.of_nat (length sentences) - 1 then
    match sentences !! S i, sentences !! i with
    | Some next_sentence, Some current_sentence =>
        let next_sentence_start := Sentence.start_ms next_sentence in
        let current_sentence_end := Sentence.end_ms current_sentence in
        let midpoint := (current_sentence_end + next_sentence_start) / 2 in
        <[S i := Sentence.set_start_ms next_sentence midpoint]>
          (<[i := Sentence.set_end_ms current_sentence midpoint]> sentences)
    | _, _ => sentences
    end
  else sentences.

Definition extend_sentences (sentences : list Sentence.t) : list Sentence.t :=
  foldl extend_step sentences (seq 0 (length sentences)).

(** The inner [for i, sentence in enumerate(sentences)] with its [break]:
    the first index, counted from [i], whose span holds [word_mid]. *)
Fixpoint find_sentence (sentences : list Sentence.t) (i : Z) (word_mid : Z)
  : option Z :=
  match sentences with
  | [] => None
  | sentence :: rest =>
      if (Sentence.start_ms sentence <=? word_mid)
         && (word_mid <=? Sentence.end_ms sentence)
      then Some i
      else find_sentence rest (i + 1) word_mid
  end.

(** The nearest-sentence loop; [min_distance] is [None] for
    [float('inf')]. *)
Fixpoint nearest_sentence (sentences : list Sentence.t) (i : Z) (word_mid : Z)
    (min_distance : option Z) (nearest_idx : Z) : Z :=
  match sentences with
  | [] => nearest_idx
  | sentence :: rest =>
      let distance :=
        Z.min (Z.abs (word_mid - Sentence.start_ms sentence))
              (Z.abs (word_mid - Sentence.end_ms sentence)) in
      let closer :=
        match min_distance with
        | None => true
        | Some d => distance <? d
        end in
      if closer then nearest_sentence rest (i + 1) word_mid (Some distance) i
      else nearest_sentence rest (i + 1) word_mid min_distance nearest_idx
  end.

(** The body of [for word in words] in the assignment loop. *)
Definition assign_word (sentences : list Sentence.t) (word : Word.t) : Word.t :=
  let word_mid := (Word.start_ms word + Word.end_ms word) / 2 in
  match find_sentence sentences 0 word_mid with
  | Some i => Word.set_sentence_index word i
  | None =>
      match head sentences, last sentences with
      | Some first_sentence, Some last_sentence =>
          if word_mid <? Sentence.start_ms first_sentence then
            Word.set_sentence_index word 0
          else if Sentence.end_ms last_sentence <? word_mid then
            Word.set_sentence_index word (Z.of_nat (length sentences) - 1)
          else
            Word.set_sentence_index word
              (nearest_sentence sentences 0 word_mid None 0)
      | _, _ => word
      end
  end.

(** The body of the verification loop. *)
Definition fix_index (word : Word.t) : Word.t :=
  if Word.sentence_index word <? 0 then Word.set_sentence_index word 0
  else word.

Definition ensure_continuous_sentence_coverage
    (words : list Word.t) (sentences : list Sentence.t)
  : list Word.t * list Sentence.t :=
  match sentences, words with
  | [], _ | _, [] => (words, sentences)
  | _, _ =>
      let sentences := extend_sentences sentences in
      let words := map (assign_word sentences) words in
      let words := map fix_index words in
      (words, sentences)
  end.

(** ** LookupTableBuilder: [generate_lookup_table] *)

(** The [while word_idx < len(words) - 1] loop, started with [rest] the
    words after [words[word_idx]]: the cursor moves on while the next word
    starts at or before [time_ms]. *)
Fixpoint advance_cursor (rest : list Word.t) (time_ms : Z) (word_idx : nat) : nat :=
  match rest with
  | next_word :: rest' =>
      if Word.start_ms next_word <=? time_ms
      then advance_cursor rest' time_ms (S word_idx)
      else word_idx
  | [] => word_idx
  end.

Definition is_active (word : Word.t) (time_ms : Z) : bool :=
  (Word.start_ms word <=? time_ms) && (time_ms <=? Word.end_ms word).

(** The index of the word that is active at [time_ms], [-1] for none. *)
Definition active_word (words : list Word.t) (word_idx : nat) (time_ms : Z) : Z :=
  match words !! word_idx with
  | Some word =>
      if is_active word time_ms then Z.of_nat word_idx
      else
        match word_idx with
        | S prev_idx =>
            match words !! prev_idx with
            | Some prev_word =>
                if is_active prev_word time_ms then Z.of_nat prev_idx else -1
            | None => -1
            end
        | O => -1
        end
  | None => -1
  end.

(** One sample: the cursor after it and the entry
    [[current_word_idx, sentence_idx]]. *)
Definition lookup_step (words : list Word.t) (word_idx : nat) (time_ms : Z)
  : nat * (Z * Z) :=
  let word_idx := advance_cursor (drop (S word_idx) words) time_ms word_idx in
  let current_word_idx := active_word words word_idx time_ms in
  let sentence_idx :=
    if 0 <=? current_word_idx then
      match words !! Z.to_nat current_word_idx with
      | Some word => Word.sentence_index word
      | None => -1
      end
    else -1 in
  (word_idx, (current_word_idx, sentence_idx)).

Fixpoint lookup_entries (words : list Word.t) (word_idx : nat) (times : list Z)
  : list (Z * Z) :=
  match times with
  | [] => []
  | time_ms :: times' =>
      let '(word_idx, entry) := lookup_step words word_idx time_ms in
      entry :: lookup_entries words word_idx times'
  end.

Module LookupTable.
Record t : Type := mk {
  version : string;
  interval : Z;
  totalDurationMs : Z;
  lookup : list (Z * Z)
}.
End LookupTable.

(** [sentences] is an argument of the source that its body never reads.
    [interval_ms = 0] raises [ZeroDivisionError] in [num_entries]. *)
Definition generate_lookup_table (words : list Word.t) (sentences : list Sentence.t)
    (total_duration_ms : Z) (interval_ms : Z) : option LookupTable.t :=
  if interval_ms =? 0 then None
  else
    let lookup :=
      lookup_entries words 0 (Py.range 0 (total_duration_ms + 1) interval_ms) in
    Some (LookupTable.mk "1.0" interval_ms total_duration_ms lookup).

(** ** CharacterAligner: [extract_words_with_timing] *)

Section CharacterAligner.

(** A JSON number of the alignment arrays, and [ms_of x] for
    [int(x * 1000) if x else 0], which is floating-point arithmetic.  An
    array entry is [None] for a JSON [null]. *)
Context {Num : Type} (ms_of : Num -> Z).

Definition time_ms (t : option Num) : Z :=
  match t with
  | Some x => ms_of x
  | None => 0
  end.

Record aligner_state : Type := mk_aligner_state {
  words_so_far : list Word.t;
  current_word : string;
  word_start_time : option Num;
  word_start_char : Z;
  char_position : Z
}.

(** The body of [for i, char in enumerate(self.characters)]. *)
Definition aligner_step (start_times end_times : list (option Num))
    (st : aligner_state) (i : nat) (char : ascii) : option aligner_state :=
  if negb (Py.isspace char) then
    (if word_start_time st is None then
       start_time ← start_times !! i;
       Some (mk_aligner_state (words_so_far st)
               (current_word st +:+ String char EmptyString)
               start_time (char_position st) (char_position st + 1))
     else
       Some (mk_aligner_state (words_so_far st)
               (current_word st +:+ String char EmptyString)
               (word_start_time st) (word_start_char st)
               (char_position st + 1)))
  else if negb (String.eqb (current_word st) EmptyString) then
    word_end_time ← end_times !! (if (0 <? i)%nat then i - 1 else i)%nat;
    let w := Word.mk (current_word st) (time_ms (word_start_time st))
               (time_ms word_end_time) (word_start_char st)
               (char_position st) 0 in
    Some (mk_aligner_state (words_so_far st ++ [w]) EmptyString None
            (word_start_char st) (char_position st + 1))
  else
    Some (mk_aligner_state (words_so_far st) (current_word st)
            (word_start_time st) (word_start_char st) (char_position st + 1)).

Fixpoint aligner_loop (start_times end_times : list (option Num))
    (st : aligner_state) (i : nat) (characters : list ascii)
  : option aligner_state :=
  match characters with
  | [] => Some st
  | char :: rest =>
      st' ← aligner_step start_times end_times st i char;
      aligner_loop start_times end_times st' (S i) rest
  end.

(** [None] is the [IndexError] of a subscript into a time array. *)
Definition extract_words_with_timing (characters : list ascii)
    (start_times end_times : list (option Num)) : option (list Word.t) :=
  st ← aligner_loop start_times end_times
         (mk_aligner_state [] EmptyString None 0 0) 0%nat characters;
  if negb (String.eqb (current_word st) EmptyString) then
    word_end_time ← last end_times;
    Some (words_so_far st ++
            [Word.mk (current_word st) (time_ms (word_start_time st))
               (time_ms word_end_time) (word_start_char st)
               (char_position st) 0])
  else Some (words_so_far st).

(** [reconstruct_text] *)
Definition reconstruct_text (characters : list ascii) : string :=
  string_of_list_ascii characters.

End CharacterAligner.

(** ** The regular expressions of [re], as far as the source uses them *)

Module Re.

(** A position in the subject string: the character before it (for [\b]),
    its offset (for [^] and the spans), what is left to read, and the span
    of group 1 once it has closed. *)
Record cursor : Type := mk_cursor {
  prev : option ascii;
  pos : nat;
  rest : string;
  group1 : option (nat * nat)
}.

Inductive t : Type :=
| Eps
| Any (p : ascii -> bool)              (* one character of a class *)
| Cat (r1 r2 : t)
| Alt (r1 r2 : t)                      (* r1|r2, r1 tried first *)
| Rep (r : t) (lo : nat) (hi : option nat)   (* greedy r{lo,hi} *)
| Bol                                  (* ^ without MULTILINE *)
| Eol                                  (* $ without MULTILINE *)
| WordB                                (* \b *)
| Grp (r : t).                         (* the capturing group 1 *)

Definition start_of (s : string) : cursor := mk_cursor None 0 s None.

Definition at_word_boundary (c : cursor) : bool :=
  let before := match prev c with Some a => Py.isword a | None => false end in
  let after := match rest c with String a _ => Py.isword a | EmptyString => false end in
  xorb before after.

Definition at_eol (c : cursor) : bool :=
  match rest c with
  | EmptyString => true
  | String a EmptyString => Ascii.eqb a "010"
  | _ => false
  end.

(** The greedy repetition of [step]: one more round is tried before
    stopping.  [n] bounds the rounds by the characters left; a round must
    consume a character, and the repeated bodies of the source's patterns
    all do. *)
Fixpoint rep (step : cursor -> (cursor -> option cursor) -> option cursor)
    (n : nat) (lo : nat) (hi : option nat)
    (c : cursor) (k : cursor -> option cursor) : option cursor :=
  let stop := match lo with O => k c | S _ => None end in
  match n with
  | O => stop
  | S n' =>
      match hi with
      | Some O => stop
      | _ =>
          match step c (fun c' =>
                   if (pos c <? pos c')%nat
                   then rep step n' (Nat.pred lo) (Nat.pred <$> hi) c' k
                   else None) with
          | Some e => Some e
          | None => stop
          end
      end
  end.

(** The backtracking matcher: [run r c k] is the first way, in the order
    of preference of [re], in which [r] matches at [c] and [k] accepts
    where it ends. *)
Fixpoint run (r : t) : cursor -> (cursor -> option cursor) -> option cursor :=
  match r with
  | Eps => fun c k => k c
  | Any p => fun c k =>
      match rest c with
      | String a s' =>
          if p a then k (mk_cursor (Some a) (S (pos c)) s' (group1 c)) else None
      | EmptyString => None
      end
  | Cat r1 r2 => fun c k => run r1 c (fun c' => run r2 c' k)
  | Alt r1 r2 => fun c k =>
      match run r1 c k with
      | Some e => Some e
      | None => run r2 c k
      end
  | Rep r lo hi => fun c k => rep (run r) (S (String.length (rest c))) lo hi c k
  | Bol => fun c k => if (pos c =? 0)%nat then k c else None
  | Eol => fun c k => if at_eol c then k c else None
  | WordB => fun c k => if at_word_boundary c then k c else None
  | Grp r => fun c k =>
      run r c (fun c' =>
        k (mk_cursor (prev c') (pos c') (rest c') (Some (pos c, pos c'))))
  end.

(** A match object: [start()], [end()], [group()] and [group(1)]. *)
Record found : Type := mk_found {
  m_start : Z;
  m_end : Z;
  group : string;
  group_1 : option string
}.

Definition found_at (c e : cursor) : found :=
  let whole := Py.take (pos e - pos c) (rest c) in
  mk_found (Z.of_nat (pos c)) (Z.of_nat (pos e)) whole
    (match group1 e with
     | Some (a, b) => Some (Py.take (b - a) (Py.drop (a - pos c) whole))
     | None => None
     end).

Definition match_at (r : t) (c : cursor) : option found :=
  found_at c <$> run r (mk_cursor (prev c) (pos c) (rest c) None) Some.

(** [re.match(r, s)] *)
Definition match_ (r : t) (s : string) : option found :=
  match_at r (start_of s).

(** The scan of [finditer]: matches are tried at every offset from the
    left, and the scan resumes where a match ended ([resume]).  No pattern
    of the source matches the empty string. *)
Fixpoint scan (r : t) (resume : nat) (before : option ascii) (at_ : nat)
    (s : string) : list found :=
  let here :=
    if (at_ <? resume)%nat then None
    else match_at r (mk_cursor before at_ s None) in
  let resume' :=
    match here with
    | Some m => Z.to_nat (m_end m)
    | None => resume
    end in
  let later :=
    match s with
    | String a s' => scan r resume' (Some a) (S at_) s'
    | EmptyString => []
    end in
  match here with
  | Some m => m :: later
  | None => later
  end.

(** [r.finditer(s)] *)
Definition finditer (r : t) (s : string) : list found := scan r 0 None 0 s.

(** [r.search(s)] *)
Definition search (r : t) (s : string) : option found := head (finditer r s).

(** *** Notation for building patterns *)

Definition chr (a : ascii) : t := Any (Ascii.eqb a).
Definition one_of (s : string) : t := Any (fun a => Py.contains a s).
Definition none_of (s : string) : t := Any (fun a => negb (Py.contains a s)).
Definition star (r : t) : t := Rep r 0 None.
Definition plus (r : t) : t := Rep r 1 None.
Definition opt (r : t) : t := Rep r 0 (Some 1%nat).
Definition at_least (n : nat) (r : t) : t := Rep r n None.

Definition upper : t := Any (Py.between 65 90).          (* [A-Z] *)
Definition lower : t := Any (Py.between 97 122).         (* [a-z] *)
Definition letter : t :=                                 (* [a-z] with IGNORECASE *)
  Any (fun a => Py.between 65 90 a || Py.between 97 122 a).
Definition digit : t := Any Py.isdecimal.                (* \d *)
Definition space : t := Any Py.isspace.                  (* \s *)
Definition nonspace : t := Any (fun a => negb (Py.isspace a)).   (* [^\s] *)

Fixpoint lit (s : string) : t :=
  match s with
  | String a s' => Cat (chr a) (lit s')
  | EmptyString => Eps
  end.

Definition fold_case (a : ascii) : Z :=
  if Py.between 65 90 a then Py.ord a + 32 else Py.ord a.

(** A literal under IGNORECASE (the source's are words of ASCII letters) *)
Fixpoint lit_i (s : string) : t :=
  match s with
  | String a s' => Cat (Any (fun b => fold_case a =? fold_case b)) (lit_i s')
  | EmptyString => Eps
  end.

Fixpoint seq_of (rs : list t) : t :=
  match rs with
  | [] => Eps
  | [r] => r
  | r :: rs' => Cat r (seq_of rs')
  end.

Fixpoint any_of (rs : list t) : t :=
  match rs with
  | [] => Any (fun _ => false)
  | [r] => r
  | r :: rs' => Alt r (any_of rs')
  end.

End Re.

(** ** StructureDetector: [EdgeCaseHandlers.detect_structures] *)

Module StructureType.
Inductive t : Type :=
| COLON_LIST | NUMBERED_LIST | BULLETED_LIST | LETTERED_LIST
| QUOTATION | DIALOG | EQUATION | CODE_BLOCK | HEADER | URL | EMAIL
| ABBREVIATION.

Definition value (ty : t) : string :=
  match ty with
  | COLON_LIST => "colon_list"
  | NUMBERED_LIST => "numbered_list"
  | BULLETED_LIST => "bulleted_list"
  | LETTERED_LIST => "lettered_list"
  | QUOTATION => "quotation"
  | DIALOG => "dialog"
  | EQUATION => "equation"
  | CODE_BLOCK => "code_block"
  | HEADER => "header"
  | URL => "url"
  | EMAIL => "email"
  | ABBREVIATION => "abbreviation"
  end.

(** [ty in [COLON_LIST, NUMBERED_LIST, BULLETED_LIST, LETTERED_LIST]] *)
Definition is_list (ty : t) : bool :=
  match ty with
  | COLON_LIST | NUMBERED_LIST | BULLETED_LIST | LETTERED_LIST => true
  | _ => false
  end.
End StructureType.

Module TextStructure.
Record t : Type := mk {
  type : StructureType.t;
  start_pos : Z;
  end_pos : Z;
  content : string;
  metadata : option (list (string * string))
}.
End TextStructure.

Definition newline : ascii := "010".
Definition double_quote : ascii := "034".
Definition single_quote : ascii := "'".

(** [init_patterns], the entries that the methods below use, and the
    patterns that they compile on the spot. *)
Module Patterns.
Import Re.

(** [^(\d+)[.)] ] *)
Definition numbered_list : Re.t :=
  seq_of [Bol; plus digit; one_of ".)"; chr " "].

(** [^([a-z])[.)] ] with IGNORECASE *)
Definition lettered_list : Re.t :=
  seq_of [Bol; letter; one_of ".)"; chr " "].

(** [^[...\-*+] ]: of the bullet glyphs only the middle dot U+00B7 lies
    below U+0100. *)
Definition bulleted_list : Re.t :=
  seq_of [Bol; Any (fun a => Ascii.eqb a "183" || Py.contains a "-*+"); chr " "].

Definition quote_class (a : ascii) : bool :=
  Ascii.eqb a double_quote || Ascii.eqb a single_quote.

(** The pattern of [re.finditer] in [detect_quotations]: the two adjacent
    literals make a class of straight quotes only. *)
Definition quote : Re.t := Any quote_class.

(** [^([A-Z][a-z]+):\s*Q] with Q the class of the two straight quotes *)
Definition dialog_marker : Re.t :=
  seq_of [Bol; Grp (Cat upper (plus lower)); chr ":"; star space; Any quote_class].

(** [\b\d+\s*[+\-*/=<>...]\s*\d+] *)
Definition equation : Re.t :=
  seq_of [WordB; plus digit; star space; one_of "+-*/=<>"; star space; plus digit].

(** [[A-Z]\s*=\s*[^.!?]+] *)
Definition formula : Re.t :=
  seq_of [upper; star space; chr "="; star space; plus (none_of ".!?")].

(** [https?://[^\s]+|www\.[^\s]+] *)
Definition url : Re.t :=
  Alt (seq_of [lit "http"; opt (chr "s"); lit "://"; plus nonspace])
      (seq_of [lit "www."; plus nonspace]).

Definition email_local (a : ascii) : bool :=
  Py.between 65 90 a || Py.between 97 122 a || Py.between 48 57 a
  || Py.contains a "._%+-".

Definition email_domain (a : ascii) : bool :=
  Py.between 65 90 a || Py.between 97 122 a || Py.between 48 57 a
  || Py.contains a ".-".

Definition email_tld (a : ascii) : bool :=
  Py.between 65 90 a || Ascii.eqb a "|" || Py.between 97 122 a.

(** [\b[A-Za-z0-9._%+-]+@[A-Za-z0-9.-]+\.[A-Z|a-z]{2,}\b] *)
Definition email : Re.t :=
  seq_of [WordB; plus (Any email_local); chr "@"; plus (Any email_domain);
          chr "."; at_least 2 (Any email_tld); WordB].

(** [(if|while|for|def|function|class)\s*\([^)]*\)\s*{?] *)
Definition code_snippet : Re.t :=
  seq_of [any_of [lit "if"; lit "while"; lit "for"; lit "def";
                  lit "function"; lit "class"];
          star space; chr "("; star (none_of ")"); chr ")"; star space;
          opt (chr "{")].

(** [[!?]{2,}] *)
Definition multiple_punct : Re.t := at_least 2 (one_of "!?").

(** [^(Chapter|Section|Part)\s+\d+[:.]\s*] with IGNORECASE *)
Definition header : Re.t :=
  seq_of [Bol; any_of [lit_i "Chapter"; lit_i "Section"; lit_i "Part"];
          plus space; plus digit; one_of ":."; star space].

(** [^(Figure|Table|Chart|Graph)\s+\d+[:.]\s*] with IGNORECASE *)
Definition figure_caption : Re.t :=
  seq_of [Bol; any_of [lit_i "Figure"; lit_i "Table"; lit_i "Chart"; lit_i "Graph"];
          plus space; plus digit; one_of ":."; star space].

(** [^[A-Z](\.[A-Z])+$], in [is_abbreviation] *)
Definition initials : Re.t :=
  seq_of [Bol; upper; plus (Cat (chr ".") upper); Eol].

(** [\d{1,2}:\d{2}], in [should_break_at_colon] *)
Definition time_pattern : Re.t :=
  seq_of [Rep digit 1 (Some 2%nat); chr ":"; Rep digit 2 (Some 2%nat)].
End Patterns.

Module EdgeCaseHandlers.

(** [load_abbreviations] *)
Definition abbreviations : list (string * gset string) :=
  [ ("titles", list_to_set ["Dr"; "Mr"; "Mrs"; "Ms"; "Prof"; "Sr"; "Jr"; "Rev";
                            "Gen"; "Col"; "Maj"; "Capt"; "Lt"; "Sgt"]);
    ("months", list_to_set ["Jan"; "Feb"; "Mar"; "Apr"; "Jun"; "Jul"; "Aug";
                            "Sep"; "Sept"; "Oct"; "Nov"; "Dec"]);
    ("common", list_to_set ["etc"; "vs"; "eg"; "ie"; "cf"; "al"; "Inc"; "Corp";
                            "Ltd"; "Co"; "LLC"; "Ph.D"; "M.D"; "B.A"; "M.A";
                            "B.S"; "M.S"]);
    ("time", list_to_set ["a.m"; "p.m"; "A.M"; "P.M"]);
    ("locations", list_to_set ["St"; "Ave"; "Rd"; "Blvd"; "Dr"; "Ct"; "Ln"; "Pkwy"]);
    ("units", list_to_set ["ft"; "in"; "yd"; "mi"; "km"; "cm"; "mm"; "m"; "kg";
                           "g"; "lb"; "oz"]);
    ("countries", list_to_set ["U.S"; "U.K"; "U.S.A"; "U.K"]);
    ("organizations", list_to_set ["NATO"; "UN"; "EU"; "WHO"; "FBI"; "CIA";
                                   "NASA"; "IRS"]) ].

Definition all_abbreviations : gset string :=
  foldl (fun acc category => acc ∪ category.2) ∅ abbreviations.

Definition structure_of (ty : StructureType.t) (m : Re.found) : TextStructure.t :=
  TextStructure.mk ty (Re.m_start m) (Re.m_end m) (Re.group m) None.

(** [sum(len(l) + 1 for l in lines[:i])] *)
Definition line_start (lines : list string) (i : nat) : Z :=
  foldr (fun l acc => Py.len l + 1 + acc) 0 (take i lines).

Definition first_is (p : ascii -> bool) (s : string) : bool :=
  match s with
  | String a _ => p a
  | EmptyString => false
  end.

(** The body of [for i, line in enumerate(lines)] in [detect_lists]: what
    it appends to [structures]. *)
Definition list_items_of_line (lines : list string) (i : nat) (line : string)
  : list TextStructure.t :=
  let start_pos := line_start lines i in
  let item ty :=
    TextStructure.mk ty start_pos (start_pos + Py.len line) line None in
  let after_colon :=
    (0 <? i)%nat
    && match lines !! (i - 1)%nat with
       | Some previous => Py.endswith previous ":"
       | None => false
       end in
  (if after_colon && first_is Py.isupper line && negb (Py.endswith line ".")
   then [item StructureType.COLON_LIST] else [])
  ++ (if Re.match_ Patterns.numbered_list line is Some _
      then [item StructureType.NUMBERED_LIST] else [])
  ++ (if Re.match_ Patterns.bulleted_list line is Some _
      then [item StructureType.BULLETED_LIST] else [])
  ++ (if Re.match_ Patterns.lettered_list line is Some _
      then [item StructureType.LETTERED_LIST] else []).

Definition detect_lists (text : string) : list TextStructure.t :=
  let lines := Py.split_on newline text in
  concat (imap (list_items_of_line lines) lines).

(** The string that the quote character is looked up in: an opening
    bracket, a double quote, a single quote and two double quotes. *)
Definition opening_quotes : string :=
  String "[" (String double_quote (String single_quote
    (String double_quote (String double_quote EmptyString)))).

(** The body of the quote loop on [(quote_stack, structures)]; the top of
    the stack is the head of the list. *)
Definition quote_step (text : string)
    (st : list (string * Z) * list TextStructure.t) (m : Re.found)
  : list (string * Z) * list TextStructure.t :=
  let '(quote_stack, structures) := st in
  let quote_char := Re.group m in
  let pos := Re.m_start m in
  if bool_decide (quote_stack = []) || first_is (fun a => Py.contains a opening_quotes) quote_char
  then ((quote_char, pos) :: quote_stack, structures)
  else
    match quote_stack with
    | (opening_char, start_pos) :: quote_stack' =>
        let content := Py.slice text (Some start_pos) (Some (Re.m_end m)) in
        (quote_stack',
         structures ++ [TextStructure.mk StructureType.QUOTATION start_pos
                          (Re.m_end m) content None])
    | [] => st
    end.

Definition dialog_of (m : Re.found) : TextStructure.t :=
  TextStructure.mk StructureType.DIALOG (Re.m_start m) (Re.m_end m) (Re.group m)
    (Some [("speaker", default EmptyString (Re.group_1 m))]).

Definition detect_quotations (text : string) : list TextStructure.t :=
  let '(_, structures) :=
    foldl (quote_step text) ([], []) (Re.finditer Patterns.quote text) in
  structures ++ map dialog_of (Re.finditer Patterns.dialog_marker text).

Definition detect_mathematical (text : string) : list TextStructure.t :=
  map (structure_of StructureType.EQUATION) (Re.finditer Patterns.equation text)
  ++ map (structure_of StructureType.EQUATION) (Re.finditer Patterns.formula text).

Definition detect_urls_emails (text : string) : list TextStructure.t :=
  map (structure_of StructureType.URL) (Re.finditer Patterns.url text)
  ++ map (structure_of StructureType.EMAIL) (Re.finditer Patterns.email text).

Definition detect_structural_elements (text : string) : list TextStructure.t :=
  map (structure_of StructureType.HEADER) (Re.finditer Patterns.header text)
  ++ map (structure_of StructureType.HEADER)
       (Re.finditer Patterns.figure_caption text).

Definition detect_structures (text : string) : list TextStructure.t :=
  detect_lists text
  ++ detect_quotations text
  ++ detect_mathematical text
  ++ detect_urls_emails text
  ++ detect_structural_elements text.

(** *** SentenceSegmenter *)

(** [is_abbreviation(word, next_word)]; [next_word] is [None] when it is
    not given. *)
Definition is_abbreviation (word : string) (next_word : option string) : bool :=
  if negb (Py.endswith word ".") then false
  else
    let word_without_period := Py.slice word None (Some (-1)) in
    if bool_decide (word_without_period ∈ all_abbreviations) then true
    else if Re.match_ Patterns.initials word is Some _ then true
    else if match next_word with
            | Some next => first_is Py.islower next
            | None => false
            end then true
    else if (Py.len word_without_period =? 1) && Py.str_isupper word_without_period
    then true
    else false.

Definition should_break_at_colon (text : string) (colon_pos : Z) : bool :=
  let after_colon := Py.strip (Py.slice text (Some (colon_pos + 1)) None) in
  let looks_like_list :=
    if first_is (fun a => Py.isupper a || Py.isdigit a) after_colon then
      if Py.contains newline (Py.slice after_colon None (Some 100)) then true
      else
        let words := take 10 (Py.split after_colon) in
        let cap_words :=
          Z.of_nat (length (filter (fun w => first_is Py.isupper w = true) words)) in
        3 <? cap_words
    else false in
  if looks_like_list then true
  else if (0 <? colon_pos) && (colon_pos <? Py.len text - 1)
          && match Py.index text (colon_pos - 1), Py.index text (colon_pos + 1) with
             | Some before, Some after => Py.isdigit before && Py.isdigit after
             | _, _ => false
             end
  then false
  else if Re.match_ Patterns.time_pattern
            (Py.slice text (Some (Z.max 0 (colon_pos - 2))) (Some (colon_pos + 3)))
          is Some _
  then false
  else false.

Definition is_within_code (text : string) (position : Z) : bool :=
  let context_start := Z.max 0 (position - 50) in
  let context_end := Z.min (Py.len text) (position + 50) in
  let context := Py.slice text (Some context_start) (Some context_end) in
  if Re.search Patterns.code_snippet context is Some _ then true else false.

Definition is_within_quotes (text : string) (position : Z) : bool :=
  let before_text := Py.slice text None (Some position) in
  let quote_count :=
    Py.count double_quote before_text + Py.count single_quote before_text in
  quote_count mod 2 =? 1.

Definition should_break_at_semicolon (text : string) (semicolon_pos : Z) : bool :=
  if is_within_code text semicolon_pos then false
  else if is_within_quotes text semicolon_pos then false
  else true.

(** [structure_map]: every position of a structure maps to it, a later
    structure overwriting an earlier one. *)
Definition structure_map_of (structures : list TextStructure.t)
  : gmap Z TextStructure.t :=
  foldl (fun structure_map struct =>
           foldl (fun structure_map pos => <[pos := struct]> structure_map)
             structure_map
             (Py.range (TextStructure.start_pos struct)
                (TextStructure.end_pos struct) 1))
    ∅ structures.

(** The decision taken after a word: [(should_break, break_reason)]. *)
Definition break_decision (text : string) (structure_map : gmap Z TextStructure.t)
    (word : Word.t) (next_word : option string) : bool * option string :=
  let word_text := Word.word word in
  let word_end_pos := Word.char_end word in
  let '(should_break, break_reason) :=
    if Py.endswith word_text "." then
      if negb (is_abbreviation word_text next_word)
      then (true, Some "period") else (false, None)
    else if Py.endswith word_text "!" || Py.endswith word_text "?" then
      if Re.search Patterns.multiple_punct word_text is Some _
      then (false, None) else (true, Some "exclamation/question")
    else if Py.endswith word_text ":" then
      if should_break_at_colon text (word_end_pos - 1)
      then (true, Some "colon_list") else (false, None)
    else if Py.endswith word_text ";" then
      if should_break_at_semicolon text (word_end_pos - 1)
      then (true, Some "semicolon") else (false, None)
    else (false, None) in
  match structure_map !! word_end_pos with
  | Some struct =>
      if StructureType.is_list (TextStructure.type struct)
      then (true, Some ("list_" +:+ StructureType.value (TextStructure.type struct)))
      else (should_break, break_reason)
  | None => (should_break, break_reason)
  end.

(** The variables of the segmenter's loop; [words_done] are the words
    already visited, with the [sentence_index] written into them. *)
Record segmenter_state : Type := mk_segmenter_state {
  words_done : list Word.t;
  sentences : list Sentence.t;
  current_sentence_words : list Word.t;
  current_sentence_start : Z;
  sentence_index : Z
}.

(** The body of [while i < len(words)] for [word = words[i]], followed in
    the list by [later]. *)
Definition segmenter_step (text : string) (structure_map : gmap Z TextStructure.t)
    (st : segmenter_state) (i : Z) (word : Word.t) (later : list Word.t)
  : segmenter_state :=
  let word := Word.set_sentence_index word (sentence_index st) in
  let current_sentence_words := current_sentence_words st ++ [word] in
  let next_word := Word.word <$> head later in
  let '(should_break, break_reason) :=
    break_decision text structure_map word next_word in
  match should_break, current_sentence_words with
  | true, first_word :: _ =>
      let sentence_text :=
        Py.strip (Py.slice text (Some (current_sentence_start st))
                    (Some (Word.char_end word + 1))) in
      let sentence :=
        Sentence.mk sentence_text (Word.start_ms first_word) (Word.end_ms word)
          (sentence_index st)
          (i - Z.of_nat (length current_sentence_words) + 1) i
          (current_sentence_start st) (Word.char_end word) break_reason in
      mk_segmenter_state (words_done st ++ [word]) (sentences st ++ [sentence])
        [] (Word.char_end word + 1) (sentence_index st + 1)
  | _, _ =>
      mk_segmenter_state (words_done st ++ [word]) (sentences st)
        current_sentence_words (current_sentence_start st) (sentence_index st)
  end.

Fixpoint segmenter_loop (text : string) (structure_map : gmap Z TextStructure.t)
    (st : segmenter_state) (i : Z) (words : list Word.t) : segmenter_state :=
  match words with
  | [] => st
  | word :: later =>
      segmenter_loop text structure_map
        (segmenter_step text structure_map st i word later) (i + 1) later
  end.

(** The words as the loop leaves them and the sentences that the source
    returns. *)
Definition apply_enhanced_sentence_detection (words : list Word.t)
    (text : string) (structures : list TextStructure.t)
  : list Word.t * list Sentence.t :=
  let structure_map := structure_map_of structures in
  let st :=
    segmenter_loop text structure_map (mk_segmenter_state [] [] [] 0 0) 0 words in
  match current_sentence_words st, last (current_sentence_words st) with
  | first_word :: _, Some last_word =>
      let sentence_text :=
        Py.strip (Py.slice text (Some (current_sentence_start st)) None) in
      (words_done st,
       sentences st ++
         [Sentence.mk sentence_text (Word.start_ms first_word)
            (Word.end_ms last_word) (sentence_index st)
            (Z.of_nat (length words)
             - Z.of_nat (length (current_sentence_words st)))
            (Z.of_nat (length words) - 1)
            (current_sentence_start st) (Py.len text - 1)
            (Some "end_of_text")])
  | _, _ => (words_done st, sentences st)
  end.

End EdgeCaseHandlers.

(** ** The processor: [detect_sentences] and [process] *)

(** The body of the loop of [_simple_sentence_detection]; [None] is the
    [IndexError] of [words[i + 1]['word'][0]] on an empty next word. *)
Definition simple_step (text : string) (st : EdgeCaseHandlers.segmenter_state)
    (i : Z) (word : Word.t) (later : list Word.t)
  : option EdgeCaseHandlers.segmenter_state :=
  let word := Word.set_sentence_index word (EdgeCaseHandlers.sentence_index st) in
  let current_sentence_words := EdgeCaseHandlers.current_sentence_words st ++ [word] in
  let word_text := Word.word word in
  let keep_going :=
    EdgeCaseHandlers.mk_segmenter_state (EdgeCaseHandlers.words_done st ++ [word])
      (EdgeCaseHandlers.sentences st) current_sentence_words
      (EdgeCaseHandlers.current_sentence_start st)
      (EdgeCaseHandlers.sentence_index st) in
  if existsb (Py.endswith word_text) ["."; "!"; "?"] then
    special ←
      (if (Py.len word_text <=? 4) && Py.contains "." word_text then
         match later with
         | next_word :: _ =>
             match Word.word next_word with
             | String a _ => Some (Py.islower a)
             | EmptyString => None
             end
         | [] => Some false
         end
       else Some false);
    if negb special then
      match current_sentence_words with
      | first_word :: _ =>
          let sentence_text :=
            Py.strip (Py.slice text (Some (EdgeCaseHandlers.current_sentence_start st))
                        (Some (Word.char_end word + 1))) in
          let sentence :=
            Sentence.mk sentence_text (Word.start_ms first_word) (Word.end_ms word)
              (EdgeCaseHandlers.sentence_index st)
              (i - Z.of_nat (length current_sentence_words) + 1) i
              (EdgeCaseHandlers.current_sentence_start st) (Word.char_end word)
              None in
          Some (EdgeCaseHandlers.mk_segmenter_state
                  (EdgeCaseHandlers.words_done st ++ [word])
                  (EdgeCaseHandlers.sentences st ++ [sentence])
                  [] (Word.char_end word + 1)
                  (EdgeCaseHandlers.sentence_index st + 1))
      | [] => Some keep_going
      end
    else Some keep_going
  else Some keep_going.

Fixpoint simple_loop (text : string) (st : EdgeCaseHandlers.segmenter_state)
    (i : Z) (words : list Word.t) : option EdgeCaseHandlers.segmenter_state :=
  match words with
  | [] => Some st
  | word :: later =>
      st' ← simple_step text st i word later;
      simple_loop text st' (i + 1) later
  end.

Definition _simple_sentence_detection (words : list Word.t) (text : string)
  : option (list Word.t * list Sentence.t) :=
  st ← simple_loop text (EdgeCaseHandlers.mk_segmenter_state [] [] [] 0 0) 0 words;
  match EdgeCaseHandlers.current_sentence_words st,
        last (EdgeCaseHandlers.current_sentence_words st) with
  | first_word :: _, Some last_word =>
      let sentence_text :=
        Py.strip (Py.slice text (Some (EdgeCaseHandlers.current_sentence_start st))
                    None) in
      Some (EdgeCaseHandlers.words_done st,
            EdgeCaseHandlers.sentences st ++
              [Sentence.mk sentence_text (Word.start_ms first_word)
                 (Word.end_ms last_word) (EdgeCaseHandlers.sentence_index st)
                 (Z.of_nat (length words)
                  - Z.of_nat (length (EdgeCaseHandlers.current_sentence_words st)))
                 (Z.of_nat (length words) - 1)
                 (EdgeCaseHandlers.current_sentence_start st) (Py.len text - 1)
                 None])
  | _, _ => Some (EdgeCaseHandlers.words_done st, EdgeCaseHandlers.sentences st)
  end.

(** [detect_sentences]; [use_enhanced_detection] is the flag of the
    configuration, [True] when the configuration is silent. *)
Definition detect_sentences (use_enhanced_detection : bool)
    (words : list Word.t) (text : string)
  : option (list Word.t * list Sentence.t) :=
  if use_enhanced_detection then
    let structures := EdgeCaseHandlers.detect_structures text in
    Some (EdgeCaseHandlers.apply_enhanced_sentence_detection words text structures)
  else _simple_sentence_detection words text.

(** The [timing] entry of the document that [process] returns. *)
Module Timing.
Record t : Type := mk {
  words : list Word.t;
  sentences : list Sentence.t;
  total_duration_ms : Z;
  lookup_table : LookupTable.t
}.
End Timing.

Section Process.

Context {Num : Type} (ms_of : Num -> Z).

(** [int(self.end_times[-1] * 1000) if self.end_times else 0]; a [null]
    last entry is a [TypeError]. *)
Definition total_duration (end_times : list (option Num)) : option Z :=
  match last end_times with
  | None => Some 0
  | Some None => None
  | Some (Some x) => Some (ms_of x)
  end.

(** [process], as far as the timing goes: the paragraphs, the headers and
    the display text neither raise nor touch the words and sentences. *)
Definition process (use_enhanced_detection : bool) (characters : list ascii)
    (start_times end_times : list (option Num)) : option Timing.t :=
  let full_text := reconstruct_text characters in
  words ← extract_words_with_timing ms_of characters start_times end_times;
  let words := eliminate_timing_gaps words in
  '(words, sentences) ← detect_sentences use_enhanced_detection words full_text;
  let '(words, sentences) := ensure_continuous_sentence_coverage words sentences in
  total_duration_ms ← total_duration end_times;
  lookup_table ← generate_lookup_table words sentences total_duration_ms 10;
  Some (Timing.mk words sentences total_duration_ms lookup_table).

End Process.

(** * Predicates and inputs of the statements *)

(** Every adjacent gap of the list is below [limit]. *)
Fixpoint gaps_below (limit : Z) (words : list Word.t) : bool :=
  match words with
  | current_word :: (next_word :: _) as rest =>
      (Word.start_ms next_word - Word.end_ms current_word <? limit)
      && gaps_below limit rest
  | _ => true
  end.

(** Two words that overlap by 100 ms. *)
Definition overlapping_words : list Word.t :=
  [Word.mk "one" 0 400 0 3 0; Word.mk "two" 300 700 4 7 0].

(** Two words with 500 ms of silence between them. *)
Definition paragraph_gap_words : list Word.t :=
  [Word.mk "one" 0 100 0 3 0; Word.mk "two" 600 700 4 7 0].

(** Three words with gaps of 34 ms and 23 ms. *)
Definition small_gap_words : list Word.t :=
  [Word.mk "The" 0 163 0 3 0; Word.mk "objective" 197 534 4 13 0;
   Word.mk "of" 557 604 14 16 0].

(** The entry of a lookup table for the sample time [time_ms]: entry [k]
    stands for the elapsed time [k * interval]. *)
Definition entry_at (table : LookupTable.t) (time_ms : Z) : option (Z * Z) :=
  LookupTable.lookup table !! Z.to_nat (time_ms / LookupTable.interval table).

(** A text with exactly two straight double quotes: [She said "hi" today]. *)
Definition quoted_text : string :=
  "She said " +:+ String double_quote "hi" +:+ String double_quote " today".

(** The text of the list example, with its two line breaks. *)
Definition list_text : string :=
  "Examples include:" +:+ String newline "Telematics"
  +:+ String newline "Wearables".

(** Its four words, at the offsets that [extract_words_with_timing] gives
    them, with any times. *)
Definition list_words (s0 e0 s1 e1 s2 e2 s3 e3 : Z) : list Word.t :=
  [Word.mk "Examples" s0 e0 0 8 0; Word.mk "include:" s1 e1 9 17 0;
   Word.mk "Telematics" s2 e2 18 28 0; Word.mk "Wearables" s3 e3 29 38 0].

(** [break_reason] starts with [list_] or is [colon_list]. *)
Definition has_list_tag (s : Sentence.t) : bool :=
  match Sentence.break_reason s with
  | Some reason => String.prefix "list_" reason || String.eqb reason "colon_list"
  | None => false
  end.

(** The sentences hold one that ends at the word of index [2]
    ([Telematics]) and one that ends at the word of index [3] ([Wearables]),
    both with a list tag. *)
Definition list_forcing (sentences : list Sentence.t) : Prop :=
  exists s1 s2,
    s1 ∈ sentences /\ s2 ∈ sentences
    /\ Sentence.wordEndIndex s1 = 2 /\ Sentence.wordEndIndex s2 = 3
    /\ has_list_tag s1 = true /\ has_list_tag s2 = true.

(** The word ranges of [sentences], in their order, tile the word indices
    from [lo] up to [hi - 1]: each range starts right after the one before
    and holds at least one index. *)
Fixpoint tiles (lo : Z) (sentences : list Sentence.t) (hi : Z) : Prop :=
  match sentences with
  | [] => lo = hi
  | s :: rest =>
      Sentence.wordStartIndex s = lo
      /\ lo <= Sentence.wordEndIndex s
      /\ tiles (Sentence.wordEndIndex s + 1) rest hi
  end.

(** The word of index [i] lies in the word range of [s]. *)
Definition in_range (s : Sentence.t) (i : Z) : Prop :=
  Sentence.wordStartIndex s <= i <= Sentence.wordEndIndex s.

(** What the loop of the segmenter keeps true before it visits the word of
    index [i]: the sentences emitted so far tile the indices before the
    buffered words. *)
Definition segmenter_inv (st : EdgeCaseHandlers.segmenter_state) (i : Z) : Prop :=
  tiles 0 (EdgeCaseHandlers.sentences st)
    (i - Z.of_nat (length (EdgeCaseHandlers.current_sentence_words st))).

(** The first loop of [ensure_continuous_sentence_coverage] by recursion on
    the list, with the current sentence [s] carried along: its [start_ms]
    has been written by the iteration before, its [end_ms] has not been
    written yet. *)
Fixpoint extend_from (s : Sentence.t) (rest : list Sentence.t) : list Sentence.t :=
  match rest with
  | [] => [s]
  | next_sentence :: rest' =>
      let midpoint := (Sentence.end_ms s + Sentence.start_ms next_sentence) / 2 in
      Sentence.set_end_ms s midpoint
        :: extend_from (Sentence.set_start_ms next_sentence midpoint) rest'
  end.


Definition word_mid (w : Word.t) : Z := (Word.start_ms w + Word.end_ms w) / 2.

(** Two words with the same times. *)
Definition same_times (w w' : Word.t) : Prop :=
  Word.start_ms w' = Word.start_ms w /\ Word.end_ms w' = Word.end_ms w.

(** The segmenter has emitted a sentence or holds a buffered word. *)
Definition has_started (st : EdgeCaseHandlers.segmenter_state) : Prop :=
  EdgeCaseHandlers.sentences st <> []
  \/ EdgeCaseHandlers.current_sentence_words st <> [].

(** *** Concrete alignment inputs *)

(** A JSON number that is a dyadic rational, [num / 2 ^ exp].  For such a
    number with [|num| * 1000 < 2 ^ 53] the product [x * 1000] is exact in
    binary floating point, and [int] truncates it. *)
Module Dyadic.
Record t : Type := mk { num : Z; exp : nat }.

Definition ms (x : t) : Z := (num x * 1000) ÷ 2 ^ Z.of_nat (exp x).

(** a whole number of seconds *)
Definition sec (n : Z) : option t := Some (mk n 0).

(** [n / 1024] seconds *)
Definition frac (n : Z) : option t := Some (mk n 10).
End Dyadic.

(** [a b], one second for each character: the words are a second apart. *)
Definition far_apart_chars : list ascii := list_ascii_of_string "a b".
Definition far_apart_starts : list (option Dyadic.t) :=
  [Dyadic.sec 0; Dyadic.sec 1; Dyadic.sec 2].
Definition far_apart_ends : list (option Dyadic.t) :=
  [Dyadic.sec 1; Dyadic.sec 2; Dyadic.sec 3].

(** [Hi. A], where [Hi.] lasts from 0 to 0.125 s ([128 / 1024]) and [A] from
    0.125 s to 0.126953125 s ([130 / 1024]): 125 ms to 126 ms. *)
Definition short_word_chars : list ascii := list_ascii_of_string "Hi. A".
Definition short_word_starts : list (option Dyadic.t) :=
  [Dyadic.frac 0; Dyadic.frac 32; Dyadic.frac 64; Dyadic.frac 128; Dyadic.frac 128].
Definition short_word_ends : list (option Dyadic.t) :=
  [Dyadic.frac 32; Dyadic.frac 64; Dyadic.frac 128; Dyadic.frac 128; Dyadic.frac 130].

(** [ab] with one time entry only: the second character has none. *)
Definition short_arrays_chars : list ascii := list_ascii_of_string "ab".
Definition short_arrays_starts : list (option Dyadic.t) := [Dyadic.sec 0].
Definition short_arrays_ends : list (option Dyadic.t) := [Dyadic.sec 1].

(** *** Properties of the final output *)

(** Every adjacent pair of words meets. *)
Definition words_contiguous (words : list Word.t) : Prop :=
  forall (i : nat) current_word next_word,
    words !! i = Some current_word -> words !! S i = Some next_word ->
    Word.end_ms current_word = Word.start_ms next_word.

(** Every adjacent pair of sentences meets. *)
Definition sentences_contiguous (sentences : list Sentence.t) : Prop :=
  forall (k : nat) s s',
    sentences !! k = Some s -> sentences !! S k = Some s' ->
    Sentence.end_ms s = Sentence.start_ms s'.




(** *** Characters whose time entries the aligner reads

    [in_word] tells whether the character before the list is part of a
    word; [i] is the index of the first character of the list. *)

(** The indices of the characters that begin a word. *)
Fixpoint word_starts (in_word : bool) (i : nat) (characters : list ascii) : list nat :=
  match characters with
  | [] => []
  | c :: rest =>
      (if negb in_word && negb (Py.isspace c) then [i] else [])
      ++ word_starts (negb (Py.isspace c)) (S i) rest
  end.

(** The indices of the characters that end a word and are followed by
    whitespace. *)
Fixpoint word_ends (in_word : bool) (i : nat) (characters : list ascii) : list nat :=
  match characters with
  | [] => []
  | c :: rest =>
      (if in_word && Py.isspace c then [if (0 <? i)%nat then i - 1 else i]%nat else [])
      ++ word_ends (negb (Py.isspace c)) (S i) rest
  end.

(** The characters end in the middle of a word. *)
Fixpoint ends_in_word (in_word : bool) (characters : list ascii) : bool :=
  match characters with
  | [] => in_word
  | c :: rest => ends_in_word (negb (Py.isspace c)) rest
  end.

(** A time entry that the aligner reads is missing: the start of the first
    character of a word, the end of the last character of a word before
    whitespace, or any end at all when the text ends in a word. *)
Definition missing_time_entry {Num : Type} (characters : list ascii)
    (start_times end_times : list (option Num)) : bool :=
  existsb (fun i => (length start_times <=? i)%nat) (word_starts false 0 characters)
  || existsb (fun i => (length end_times <=? i)%nat) (word_ends false 0 characters)
  || (ends_in_word false characters && bool_decide (end_times = [])).

(** What the aligner's variables are like after a character that is part of
    a word ([in_word]) or not. *)
Definition aligner_in_state {Num : Type} (in_word : bool)
    (st : aligner_state (Num := Num)) : Prop :=
  if in_word then current_word st <> EmptyString
  else current_word st = EmptyString /\ word_start_time st = None.

(** [ab cd] with a single start time: the word [cd] has none. *)
Definition no_start_chars : list ascii := list_ascii_of_string "ab cd".
Definition no_start_starts : list (option Dyadic.t) := [Dyadic.sec 0].
Definition no_start_ends : list (option Dyadic.t) :=
  [Dyadic.sec 1; Dyadic.sec 2; Dyadic.sec 3; Dyadic.sec 4; Dyadic.sec 5].

(** The text of a word is not empty. *)
Definition has_text (w : Word.t) : Prop := Word.word w <> EmptyString.


(** * The rest of the source, and the predicates of the further properties *)

(** The word [w] sits in [text] at its offsets: the characters from
    [char_start] up to, not including, [char_end] are the text of [w]. *)
Definition word_at (text : string) (w : Word.t) : Prop :=
  exists pre post,
    text = pre +:+ Word.word w +:+ post
    /\ Word.char_start w = Py.len pre
    /\ Word.char_end w = Py.len pre + Py.len (Word.word w)
    /\ Word.word w <> EmptyString.

(** Each word ends before the next one starts, with a character between. *)
Definition offsets_ordered (words : list Word.t) : Prop :=
  forall (k : nat) a b,
    words !! k = Some a -> words !! S k = Some b ->
    Word.char_end a < Word.char_start b.

(** The start time of [w] is that of its first character. *)
Definition start_timed {Num : Type} (ms_of : Num -> Z)
    (start_times : list (option Num)) (w : Word.t) : Prop :=
  exists t0, start_times !! Z.to_nat (Word.char_start w) = Some t0
             /\ Word.start_ms w = time_ms ms_of t0.

(** The end time of [w] is that of its last character. *)
Definition end_timed {Num : Type} (ms_of : Num -> Z)
    (end_times : list (option Num)) (w : Word.t) : Prop :=
  exists t1, end_times !! Z.to_nat (Word.char_end w - 1) = Some t1
             /\ Word.end_ms w = time_ms ms_of t1.

(** What the loop of the aligner keeps true after the characters [done],
    [i] of them, when no start time is [null]. *)
Record aligner_inv {Num : Type} (ms_of : Num -> Z)
    (start_times end_times : list (option Num)) (done : string)
    (st : aligner_state (Num := Num)) (i : nat) : Prop := {
  inv_position : char_position st = Z.of_nat i;
  inv_length : Py.len done = Z.of_nat i;
  inv_words : Forall (word_at done) (words_so_far st);
  inv_starts : Forall (start_timed ms_of start_times) (words_so_far st);
  inv_ends : Forall (end_timed ms_of end_times) (words_so_far st);
  inv_before : Forall (fun w => Word.char_end w < char_position st) (words_so_far st);
  inv_ordered : offsets_ordered (words_so_far st);
  inv_current :
    (current_word st = EmptyString /\ word_start_time st = None)
    \/ (current_word st <> EmptyString
        /\ is_Some (word_start_time st)
        /\ start_times !! Z.to_nat (word_start_char st) = Some (word_start_time st)
        /\ Forall (fun w => Word.char_end w < word_start_char st) (words_so_far st)
        /\ exists pre, done = pre +:+ current_word st
                       /\ word_start_char st = Py.len pre)
}.

(** No character of [s] is whitespace. *)
Definition no_space (s : string) : Prop :=
  Py.forallb_str (fun c => negb (Py.isspace c)) s = true.

(** [Hi. A] with the times of [short_word_starts] and [short_word_ends], as
    the aligner extracts it. *)
Definition short_word_words : list Word.t :=
  [Word.mk "Hi." 0 125 0 3 0; Word.mk "A" 125 126 4 5 0].

(** [w'] is [w] with at most its [end_ms] rewritten. *)
Definition same_but_end_ms (w w' : Word.t) : Prop :=
  exists v, w' = Word.set_end_ms w v.

(** [w'] is [w] with at most its [sentence_index] rewritten. *)
Definition same_but_sentence_index (w w' : Word.t) : Prop :=
  exists k, w' = Word.set_sentence_index w k.

(** [s'] is [s] with at most its [start_ms] and [end_ms] rewritten. *)
Definition same_but_span (s s' : Sentence.t) : Prop :=
  exists a b, s' = Sentence.set_start_ms (Sentence.set_end_ms s b) a.

(** The cursor of the lookup builder is at the first word, or at a word that
    has started by the time [bound]. *)
Definition cursor_started (words : list Word.t) (word_idx : nat) (bound : Z) : Prop :=
  word_idx = 0%nat
  \/ exists w, words !! word_idx = Some w /\ Word.start_ms w <= bound.

(** An entry of the lookup table for the time [time_ms]: the sentinel pair,
    or the index of a word that is active at that time with the sentence
    index of that word. *)
Definition entry_sound (words : list Word.t) (time_ms : Z) (entry : Z * Z) : Prop :=
  entry = (-1, -1)
  \/ exists w,
       0 <= entry.1
       /\ words !! Z.to_nat entry.1 = Some w
       /\ is_active w time_ms = true
       /\ entry.2 = Word.sentence_index w.

(** Three words that meet, from 0 ms to 900 ms. *)
Definition contiguous_words : list Word.t :=
  [Word.mk "one" 0 300 0 3 0; Word.mk "two" 300 600 4 7 0;
   Word.mk "three" 600 900 8 13 1].

(** The times never decrease, and none is below [bound]. *)
Fixpoint increasing_from (bound : Z) (times : list Z) : Prop :=
  match times with
  | [] => True
  | t :: rest => bound <= t /\ increasing_from t rest
  end.

(** The character ranges of [sentences] are chained from [lo]: each sentence
    starts one character after the [char_end] of the one before, and [next]
    is where a further sentence would start. *)
Fixpoint char_chain (lo : Z) (sentences : list Sentence.t) (next : Z) : Prop :=
  match sentences with
  | [] => lo = next
  | s :: rest =>
      Sentence.char_start s = lo /\ char_chain (Sentence.char_end s + 1) rest next
  end.

(** The sentence [s], the one of index [k], agrees with the input words
    [pre] and the rewritten words [done]: it carries [k], its word range is
    in order and within the words, its times are the start of its first word
    and the end of its last word, and the words of its range carry [k]. *)
Definition sentence_ok (pre done : list Word.t) (k : nat) (s : Sentence.t) : Prop :=
  Sentence.sentence_index s = Z.of_nat k
  /\ 0 <= Sentence.wordStartIndex s <= Sentence.wordEndIndex s
  /\ Sentence.wordEndIndex s < Z.of_nat (length pre)
  /\ (exists a b,
        pre !! Z.to_nat (Sentence.wordStartIndex s) = Some a
        /\ pre !! Z.to_nat (Sentence.wordEndIndex s) = Some b
        /\ Sentence.start_ms s = Word.start_ms a
        /\ Sentence.end_ms s = Word.end_ms b)
  /\ (forall (j : nat) w',
        in_range s (Z.of_nat j) -> done !! j = Some w' ->
        Word.sentence_index w' = Z.of_nat k).

(** The [char_end] of [s] is the [char_end] of its last word. *)
Definition ends_at_word (pre : list Word.t) (s : Sentence.t) : Prop :=
  exists b,
    pre !! Z.to_nat (Sentence.wordEndIndex s) = Some b
    /\ Sentence.char_end s = Word.char_end b.

(** The sentence was made by a break of the segmenter: it has a reason,
    which is not [end_of_text]. *)
Definition made_by_break (s : Sentence.t) : Prop :=
  exists r, Sentence.break_reason s = Some r /\ r <> "end_of_text".

(** What a step of either detector does once it has decided: [word] (with
    the sentence index written into it) joins the buffered words, and on
    [should_break] they become a sentence with the reason [break_reason]. *)
Definition step_outcome (text : string) (st : EdgeCaseHandlers.segmenter_state)
    (i : Z) (word : Word.t) (should_break : bool) (break_reason : option string)
  : EdgeCaseHandlers.segmenter_state :=
  let current_sentence_words := EdgeCaseHandlers.current_sentence_words st ++ [word] in
  match should_break, current_sentence_words with
  | true, first_word :: _ =>
      let sentence_text :=
        Py.strip (Py.slice text (Some (EdgeCaseHandlers.current_sentence_start st))
                    (Some (Word.char_end word + 1))) in
      let sentence :=
        Sentence.mk sentence_text (Word.start_ms first_word) (Word.end_ms word)
          (EdgeCaseHandlers.sentence_index st)
          (i - Z.of_nat (length current_sentence_words) + 1) i
          (EdgeCaseHandlers.current_sentence_start st) (Word.char_end word)
          break_reason in
      EdgeCaseHandlers.mk_segmenter_state
        (EdgeCaseHandlers.words_done st ++ [word])
        (EdgeCaseHandlers.sentences st ++ [sentence])
        [] (Word.char_end word + 1) (EdgeCaseHandlers.sentence_index st + 1)
  | _, _ =>
      EdgeCaseHandlers.mk_segmenter_state
        (EdgeCaseHandlers.words_done st ++ [word])
        (EdgeCaseHandlers.sentences st)
        current_sentence_words (EdgeCaseHandlers.current_sentence_start st)
        (EdgeCaseHandlers.sentence_index st)
  end.

(** The sentence that either detector makes of the words still buffered
    when the loop ends. *)
Definition flush_sentence (text : string) (st : EdgeCaseHandlers.segmenter_state)
    (n : nat) (first_word last_word : Word.t) (break_reason : option string)
  : Sentence.t :=
  Sentence.mk
    (Py.strip (Py.slice text (Some (EdgeCaseHandlers.current_sentence_start st)) None))
    (Word.start_ms first_word) (Word.end_ms last_word)
    (EdgeCaseHandlers.sentence_index st)
    (Z.of_nat n - Z.of_nat (length (EdgeCaseHandlers.current_sentence_words st)))
    (Z.of_nat n - 1)
    (EdgeCaseHandlers.current_sentence_start st) (Py.len text - 1) break_reason.

(** What the loop of either detector keeps true after the input words
    [pre]. *)
Record segmenter_full_inv (pre : list Word.t)
    (st : EdgeCaseHandlers.segmenter_state) : Prop := {
  fi_done : Forall2 same_but_sentence_index pre (EdgeCaseHandlers.words_done st);
  fi_count :
    EdgeCaseHandlers.sentence_index st
    = Z.of_nat (length (EdgeCaseHandlers.sentences st));
  fi_buffered :
    EdgeCaseHandlers.current_sentence_words st
    = drop (length pre - length (EdgeCaseHandlers.current_sentence_words st))
        (EdgeCaseHandlers.words_done st);
  fi_buffered_length :
    (length (EdgeCaseHandlers.current_sentence_words st) <= length pre)%nat;
  fi_buffered_index :
    Forall (fun w => Word.sentence_index w = EdgeCaseHandlers.sentence_index st)
      (EdgeCaseHandlers.current_sentence_words st);
  fi_tiles :
    tiles 0 (EdgeCaseHandlers.sentences st)
      (Z.of_nat (length pre)
       - Z.of_nat (length (EdgeCaseHandlers.current_sentence_words st)));
  fi_sentences :
    forall (k : nat) s,
      EdgeCaseHandlers.sentences st !! k = Some s ->
      sentence_ok pre (EdgeCaseHandlers.words_done st) k s;
  fi_char_ends : Forall (ends_at_word pre) (EdgeCaseHandlers.sentences st);
  fi_chars :
    char_chain 0 (EdgeCaseHandlers.sentences st)
      (EdgeCaseHandlers.current_sentence_start st)
}.

(** The sentences that the segmenter makes of [list_words] with the times
    [0, 100, 200, 300, 400]. *)
Definition list_sentence_0 : Sentence.t :=
  Sentence.mk "Examples include:" 0 200 0 0 1 0 17 (Some "colon_list").

Definition list_sentence_1 : Sentence.t :=
  Sentence.mk ("Telematics" +:+ String newline "Wearables") 200 400 1 2 3 18 37
    (Some "end_of_text").

(** The sentences that the simple detector makes of [short_word_words]. *)
Definition short_word_sentence_0 : Sentence.t :=
  Sentence.mk "Hi." 0 125 0 0 0 0 3 None.

Definition short_word_sentence_1 : Sentence.t :=
  Sentence.mk "A" 125 126 1 1 1 4 4 None.

Definition short_word_words_indexed : list Word.t :=
  [Word.mk "Hi." 0 125 0 3 0; Word.mk "A" 125 126 4 5 1].

(** The continuation of the repetition in [Patterns.initials]: the [$]. *)
Definition at_end_of_line (c : Re.cursor) : option Re.cursor :=
  Re.run Re.Eol c Some.

(** What was read ends in a capital letter. *)
Definition ends_in_capital (mid : string) : Prop :=
  exists mid' u, mid = mid' +:+ String u EmptyString /\ Py.between 65 90 u = true.

(** [sep.join(parts)] *)
Fixpoint join (sep : string) (parts : list string) : string :=
  match parts with
  | [] => EmptyString
  | [p] => p
  | p :: ps => p +:+ sep +:+ join sep ps
  end.

(** The structure lies in [text] where it says: [content] is the slice from
    [start_pos] to [end_pos], and the two offsets are in order and within
    the text. *)
Definition placed_in (text : string) (s : TextStructure.t) : Prop :=
  Py.slice text (Some (TextStructure.start_pos s)) (Some (TextStructure.end_pos s))
  = TextStructure.content s
  /\ 0 <= TextStructure.start_pos s <= TextStructure.end_pos s
  /\ TextStructure.end_pos s <= Py.len text.

(** [w] is [w0] but for its [end_ms] and its [sentence_index]: the text,
    the start time and the offsets are the same. *)
Definition same_word (w0 w : Word.t) : Prop :=
  Word.word w = Word.word w0
  /\ Word.start_ms w = Word.start_ms w0
  /\ Word.char_start w = Word.char_start w0
  /\ Word.char_end w = Word.char_end w0.

(** The first test of [should_break_at_colon]: what follows the colon
    starts with a capital letter or a digit and has a newline within its
    first 100 characters or more than three capitalised words among its
    first ten. *)
Definition list_follows (text : string) (colon_pos : Z) : bool :=
  let after_colon := Py.strip (Py.slice text (Some (colon_pos + 1)) None) in
  EdgeCaseHandlers.first_is (fun a => Py.isupper a || Py.isdigit a) after_colon
  && (Py.contains newline (Py.slice after_colon None (Some 100))
      || (3 <? Z.of_nat
                 (length
                    (filter (fun w => EdgeCaseHandlers.first_is Py.isupper w = true)
                       (take 10 (Py.split after_colon)))))).

(** ** ParagraphExtractor: [extract_paragraphs] and the display text *)

(** The body of [for line in lines] on [(paragraphs, current_para)]. *)
Definition paragraph_step (st : list string * list string) (line : string)
  : list string * list string :=
  let '(paragraphs, current_para) := st in
  let line := Py.strip line in
  if negb (String.eqb line EmptyString) then (paragraphs, current_para ++ [line])
  else if bool_decide (current_para <> [])
  then (paragraphs ++ [join " " current_para], [])
  else (paragraphs, current_para).

(** [extract_paragraphs(text)]; [original_full_text] is
    [self.original_content['full_text']] when the original content was
    loaded and has that key, and [None] otherwise. *)
Definition extract_paragraphs (original_full_text : option string) (text : string)
  : list string :=
  let from_original :=
    match original_full_text with
    | Some original_text =>
        Py.strip <$> filter (fun p => Py.strip p <> EmptyString)
                       (Py.split_on newline original_text)
    | None => []
    end in
  if bool_decide (from_original <> []) then from_original
  else
    let '(paragraphs, current_para) :=
      foldl paragraph_step ([], []) (Py.split_on newline text) in
    let paragraphs :=
      if bool_decide (current_para <> [])
      then paragraphs ++ [join " " current_para] else paragraphs in
    if bool_decide (paragraphs = []) then [Py.strip text] else paragraphs.

(** [display_text] in [process] *)
Definition display_text (original_full_text : option string) (full_text : string)
  : string :=
  match original_full_text with
  | Some original_text => original_text
  | None =>
      let paragraphs := extract_paragraphs original_full_text full_text in
      if bool_decide (paragraphs <> [])
      then join (String newline (String newline EmptyString)) paragraphs
      else full_text
  end.

(** No whitespace at the start. *)
Definition no_lead (s : string) : Prop :=
  match s with
  | String c _ => Py.isspace c = false
  | EmptyString => True
  end.

(** No whitespace at either end. *)
Definition stripped (s : string) : Prop := no_lead s /\ Py.rstrip s = s.

(** A line of a paragraph: not empty, no whitespace at either end, and no
    newline. *)
Definition line_ok (s : string) : Prop :=
  s <> EmptyString /\ stripped s /\ Py.contains newline s = false.

(** What the loop of [extract_paragraphs] keeps true after the lines whose
    tokens are [tokens]. *)
Definition paragraph_inv (tokens : list string) (st : list string * list string)
  : Prop :=
  Forall line_ok st.1 /\ Forall line_ok st.2
  /\ concat (map Py.split st.1) ++ concat (map Py.split st.2) = tokens.

(** The text that the paragraphs are taken from: the original text when it
    has a token, the reconstructed text otherwise. *)
Definition paragraph_source (original_full_text : option string) (text : string)
  : string :=
  match original_full_text with
  | Some original_text =>
      if bool_decide (Py.split original_text <> []) then original_text else text
  | None => text
  end.

(** ** [split_list_items] *)

(** [sorted(structures, key=lambda s: s.start_pos)]: the sort is stable,
    and so is this insertion sort, which therefore returns the same list. *)
Fixpoint insert_by_start (s : TextStructure.t) (sorted : list TextStructure.t)
  : list TextStructure.t :=
  match sorted with
  | [] => [s]
  | s' :: rest =>
      if TextStructure.start_pos s <=? TextStructure.start_pos s'
      then s :: sorted
      else s' :: insert_by_start s rest
  end.

Definition sorted_by_start (structures : list TextStructure.t)
  : list TextStructure.t :=
  foldr insert_by_start [] structures.

(** The body of the loop of [split_list_items] on [(segments, last_pos)]. *)
Definition split_step (text : string) (st : list (string * Z * Z) * Z)
    (structure : TextStructure.t) : list (string * Z * Z) * Z :=
  let '(segments, last_pos) := st in
  if StructureType.is_list (TextStructure.type structure) then
    let segments :=
      if last_pos <? TextStructure.start_pos structure
      then segments
           ++ [(Py.slice text (Some last_pos)
                  (Some (TextStructure.start_pos structure)),
                last_pos, TextStructure.start_pos structure)]
      else segments in
    (segments
     ++ [(TextStructure.content structure, TextStructure.start_pos structure,
          TextStructure.end_pos structure)],
     TextStructure.end_pos structure)
  else st.

(** [split_list_items(text, structures)]: the segments
    [(text, start_pos, end_pos)]. *)
Definition split_list_items (text : string) (structures : list TextStructure.t)
  : list (string * Z * Z) :=
  let '(segments, last_pos) :=
    foldl (split_step text) ([], 0) (sorted_by_start structures) in
  if last_pos <? Py.len text
  then segments ++ [(Py.slice text (Some last_pos) None, last_pos, Py.len text)]
  else segments.

(** The structures are in the order of their [start_pos]. *)
Fixpoint starts_ordered (structures : list TextStructure.t) : Prop :=
  match structures with
  | s :: (s' :: _) as rest =>
      TextStructure.start_pos s <= TextStructure.start_pos s'
      /\ starts_ordered rest
  | _ => True
  end.

(** The list items among [structures] lie in [text] where they say, one
    after the other from the offset [lo] on, without overlap. *)
Fixpoint items_chained (text : string) (lo : Z) (structures : list TextStructure.t)
  : Prop :=
  match structures with
  | [] => True
  | s :: rest =>
      if StructureType.is_list (TextStructure.type s)
      then lo <= TextStructure.start_pos s
           /\ placed_in text s
           /\ items_chained text (TextStructure.end_pos s) rest
      else items_chained text lo rest
  end.

(** The texts of the segments, one after the other. *)
Definition text_of (segments : list (string * Z * Z)) : string :=
  foldr (fun segment acc => segment.1.1 +:+ acc) EmptyString segments.

(** The spans of the segments follow one another from [lo] to [hi], and
    each segment is as long as its span. *)
Fixpoint spans_chained (lo : Z) (segments : list (string * Z * Z)) (hi : Z) : Prop :=
  match segments with
  | [] => lo = hi
  | (t, a, b) :: rest =>
      a = lo /\ Py.len t = b - a /\ spans_chained b rest hi
  end.

(** The one list item of [list_text]. *)
Definition list_item : TextStructure.t :=
  TextStructure.mk StructureType.COLON_LIST 18 28 "Telematics" None.

(** * Properties *)

(** ** GapNormalizer *)

Section GapNormalizer.

Implicit Types (words : list Word.t) (i : nat).

Lemma close_gap_start_ms (c n : Word.t) :
  Word.start_ms (close_gap c n) = Word.start_ms c.
Proof. unfold close_gap. by repeat case_match. Qed.

Lemma close_gap_end_ms (c n : Word.t) :
  let gap := Word.start_ms n - Word.end_ms c in
  Word.end_ms (close_gap c n) =
    if 500 <=? gap then Word.end_ms c + gap / 2 else Word.start_ms n.
Proof.
  unfold close_gap. cbn zeta.
  repeat case_match; simpl; lia.
Qed.

(** The loop over the indices, run on [pre ++ words] from the index
    [length pre] on, rewrites [words] as [close_gaps] does. *)
Lemma foldl_gap_step (words pre : list Word.t) :
  foldl gap_step (pre ++ words) (seq (length pre) (length words - 1))
  = pre ++ close_gaps words.
Proof.
  revert pre. induction words as [|w ws IH]; intros pre; [done|].
  destruct ws as [|w' rest]; [done|].
  replace (length (w :: w' :: rest) - 1)%nat with (S (length rest)) by (simpl; lia).
  cbn [seq foldl].
  assert (Hstep : gap_step (pre ++ w :: w' :: rest) (length pre)
                  = (pre ++ [close_gap w w']) ++ w' :: rest).
  { unfold gap_step.
    rewrite list_lookup_middle by done.
    replace (pre ++ w :: w' :: rest) with ((pre ++ [w]) ++ w' :: rest) at 1
      by (by rewrite <- app_assoc).
    rewrite list_lookup_middle by (rewrite length_app; simpl; lia).
    rewrite insert_app_r_alt by lia.
    rewrite Nat.sub_diag. simpl. by rewrite <- app_assoc. }
  rewrite Hstep.
  specialize (IH (pre ++ [close_gap w w'])).
  rewrite length_app in IH. simpl in IH.
  replace (length pre + 1)%nat with (S (length pre)) in IH by lia.
  rewrite Nat.sub_0_r in IH. rewrite IH.
  by rewrite <- app_assoc.
Qed.

Lemma eliminate_timing_gaps_close_gaps words :
  eliminate_timing_gaps words = close_gaps words.
Proof.
  destruct words as [|w ws]; [done|].
  unfold eliminate_timing_gaps.
  exact (foldl_gap_step (w :: ws) []).
Qed.

Lemma length_close_gaps words : length (close_gaps words) = length words.
Proof.
  induction words as [|w [|w' rest] IH]; [done..|].
  change (S (length (close_gaps (w' :: rest))) = S (length (w' :: rest))).
  by rewrite IH.
Qed.

Lemma close_gaps_lookup_pair words i (c n : Word.t) :
  words !! i = Some c -> words !! S i = Some n ->
  close_gaps words !! i = Some (close_gap c n).
Proof.
  revert i. induction words as [|w [|w' rest] IH]; intros i Hc Hn; [done| |].
  - by destruct i.
  - destruct i as [|i].
    + simpl in *. by simplify_eq.
    + change (close_gaps (w' :: rest) !! i = Some (close_gap c n)).
      by apply IH.
Qed.

Lemma close_gaps_lookup_last words i (c : Word.t) :
  words !! i = Some c -> words !! S i = None ->
  close_gaps words !! i = Some c.
Proof.
  revert i. induction words as [|w [|w' rest] IH]; intros i Hc Hn; [done| |].
  - by destruct i.
  - destruct i as [|i]; [done|].
    change (close_gaps (w' :: rest) !! i = Some c).
    by apply IH.
Qed.

Lemma close_gaps_start_ms words i (w w' : Word.t) :
  words !! i = Some w -> close_gaps words !! i = Some w' ->
  Word.start_ms w' = Word.start_ms w.
Proof.
  intros Hw Hw'.
  destruct (words !! S i) as [n|] eqn:Hn.
  - rewrite (close_gaps_lookup_pair _ _ _ _ Hw Hn) in Hw'.
    simplify_eq. apply close_gap_start_ms.
  - rewrite (close_gaps_lookup_last _ _ _ Hw Hn) in Hw'. by simplify_eq.
Qed.

End GapNormalizer.

(** C9. After one pass of [eliminate_timing_gaps] no adjacent pair
    overlaps: the earlier word ends at or before the start of the later one,
    and a pair that overlapped in the input (the later word started before
    the earlier one ended) meets exactly. *)
Theorem eliminate_timing_gaps_no_overlap
    (words : list Word.t) (i : nat) (current_word next_word : Word.t) :
  words !! i = Some current_word ->
  words !! S i = Some next_word ->
  exists current_word' next_word',
    eliminate_timing_gaps words !! i = Some current_word'
    /\ eliminate_timing_gaps words !! S i = Some next_word'
    /\ Word.end_ms current_word' <= Word.start_ms next_word'
    /\ (Word.start_ms next_word < Word.end_ms current_word ->
        Word.end_ms current_word' = Word.start_ms next_word').
Proof.
  intros Hc Hn.
  rewrite eliminate_timing_gaps_close_gaps.
  pose proof (close_gaps_lookup_pair _ _ _ _ Hc Hn) as Hc'.
  assert (Hlen : (S i < length (close_gaps words))%nat).
  { rewrite length_close_gaps. by eapply lookup_lt_Some. }
  destruct (lookup_lt_is_Some_2 _ _ Hlen) as [next_word' Hn'].
  exists (close_gap current_word next_word), next_word'.
  pose proof (close_gaps_start_ms _ _ _ _ Hn Hn') as Hstart.
  pose proof (close_gap_end_ms current_word next_word) as Hend.
  cbn zeta in Hend. rewrite Hstart, Hend.
  repeat split; [done..| |].
  - case_match; [|lia].
    assert (0 <= (Word.start_ms next_word - Word.end_ms current_word) / 2
            <= Word.start_ms next_word - Word.end_ms current_word)
      by (split; [apply Z.div_pos | apply Z.div_le_upper_bound]; lia).
    lia.
  - intros Hoverlap. case_match; lia.
Qed.

Lemma eliminate_timing_gaps_no_overlap_witness :
  exists current_word' next_word',
    eliminate_timing_gaps overlapping_words !! 0%nat = Some current_word'
    /\ eliminate_timing_gaps overlapping_words !! 1%nat = Some next_word'
    /\ Word.end_ms current_word' <= Word.start_ms next_word'
    /\ (300 < 400 -> Word.end_ms current_word' = Word.start_ms next_word').
Proof.
  exact (eliminate_timing_gaps_no_overlap overlapping_words 0
           (Word.mk "one" 0 400 0 3 0) (Word.mk "two" 300 700 4 7 0)
           eq_refl eq_refl).
Defined.

(** C3, the claim as stated fails: a gap of 500 ms is halved by the first
    pass, and the 250 ms that remain are closed by the second. *)
Lemma eliminate_timing_gaps_second_pass_changes :
  eliminate_timing_gaps (eliminate_timing_gaps paragraph_gap_words)
  <> eliminate_timing_gaps paragraph_gap_words.
Proof. vm_compute. discriminate. Qed.

Lemma close_gaps_idempotent_below (words : list Word.t) :
  gaps_below 500 words = true ->
  close_gaps (close_gaps words) = close_gaps words.
Proof.
  induction words as [|c [|n rest] IH]; intros Hgaps; [done..|].
  cbn [gaps_below] in Hgaps. apply andb_prop in Hgaps as [Hgap Hrest].
  specialize (IH Hrest).
  change (close_gaps (c :: n :: rest))
    with (close_gap c n :: close_gaps (n :: rest)) in *.
  destruct (close_gaps (n :: rest)) as [|n' tl] eqn:Htl.
  { by destruct rest. }
  assert (Hstart : Word.start_ms n' = Word.start_ms n).
  { apply (close_gaps_start_ms (n :: rest) 0); [done|by rewrite Htl]. }
  change (close_gaps (close_gap c n :: n' :: tl))
    with (close_gap (close_gap c n) n' :: close_gaps (n' :: tl)).
  rewrite IH. f_equal.
  pose proof (close_gap_end_ms c n) as Hend. cbn zeta in Hend.
  unfold close_gap at 1. rewrite Hstart, Hend.
  apply Z.ltb_lt in Hgap.
  rewrite (proj2 (Z.leb_gt _ _)) by lia.
  rewrite Z.sub_diag. done.
Qed.

(** A gap of 500 ms or more is still a gap after one pass, and the next
    pass moves the end of the word again. *)
Lemma close_gaps_changes_above (words : list Word.t) :
  gaps_below 500 words = false ->
  close_gaps (close_gaps words) <> close_gaps words.
Proof.
  induction words as [|c [|n rest] IH]; intros Hgaps; [done..|].
  cbn [gaps_below] in Hgaps.
  change (close_gaps (c :: n :: rest))
    with (close_gap c n :: close_gaps (n :: rest)) in *.
  destruct (close_gaps (n :: rest)) as [|n' tl] eqn:Htl.
  { by destruct rest. }
  assert (Hstart : Word.start_ms n' = Word.start_ms n).
  { apply (close_gaps_start_ms (n :: rest) 0); [done|by rewrite Htl]. }
  change (close_gaps (close_gap c n :: n' :: tl))
    with (close_gap (close_gap c n) n' :: close_gaps (n' :: tl)).
  destruct (Word.start_ms n - Word.end_ms c <? 500) eqn:Hgap.
  - cbn [andb] in Hgaps. specialize (IH Hgaps). congruence.
  - apply Z.ltb_ge in Hgap. intros [= Hhead _].
    apply (f_equal Word.end_ms) in Hhead.
    pose proof (close_gap_end_ms c n) as Hend. cbn zeta in Hend.
    rewrite (proj2 (Z.leb_le _ _)) in Hend by done.
    pose proof (close_gap_end_ms (close_gap c n) n') as Hend'. cbn zeta in Hend'.
    rewrite Hend' in Hhead. rewrite Hstart, Hend in Hhead.
    assert ((Word.start_ms n - Word.end_ms c) / 2
            < Word.start_ms n - Word.end_ms c)
      by (apply Z.div_lt_upper_bound; lia).
    destruct (500 <=? _) eqn:Hagain in Hhead; [|lia].
    apply Z.leb_le in Hagain.
    assert (0 < (Word.start_ms n
                 - (Word.end_ms c + (Word.start_ms n - Word.end_ms c) / 2)) / 2)
      by (apply Z.div_str_pos; lia).
    lia.
Qed.

(** C3, amended. When every adjacent gap of the input is below 500 ms
    (overlaps included), the output of one pass of [eliminate_timing_gaps]
    is a fixed point of the pass. *)
Theorem eliminate_timing_gaps_idempotent_below (words : list Word.t) :
  gaps_below 500 words = true ->
  eliminate_timing_gaps (eliminate_timing_gaps words)
  = eliminate_timing_gaps words.
Proof.
  intros Hgaps. rewrite !eliminate_timing_gaps_close_gaps.
  by apply close_gaps_idempotent_below.
Qed.

Lemma eliminate_timing_gaps_idempotent_below_witness :
  eliminate_timing_gaps (eliminate_timing_gaps small_gap_words)
  = eliminate_timing_gaps small_gap_words.
Proof.
  apply (eliminate_timing_gaps_idempotent_below small_gap_words).
  reflexivity.
Defined.

(** ** LookupTableBuilder *)

Section LookupTableBuilder.

Implicit Types (words : list Word.t) (times : list Z).

Lemma length_lookup_entries words word_idx times :
  length (lookup_entries words word_idx times) = length times.
Proof.
  revert word_idx. induction times as [|t times IH]; intros word_idx; [done|].
  simpl. by rewrite IH.
Qed.

(** The entries of the first samples do not depend on the later ones. *)
Lemma lookup_entries_app words word_idx times1 times2 :
  exists word_idx',
    lookup_entries words word_idx (times1 ++ times2)
    = lookup_entries words word_idx times1
      ++ lookup_entries words word_idx' times2.
Proof.
  revert word_idx. induction times1 as [|t times1 IH]; intros word_idx.
  - by exists word_idx.
  - simpl.
    destruct (IH (advance_cursor (drop (S word_idx) words) t word_idx))
      as [word_idx' ->].
    by exists word_idx'.
Qed.

Lemma lookup_entries_prefix words word_idx times1 times2 (k : nat) :
  (k < length times1)%nat ->
  lookup_entries words word_idx (times1 ++ times2) !! k
  = lookup_entries words word_idx times1 !! k.
Proof.
  intros Hk.
  destruct (lookup_entries_app words word_idx times1 times2) as [idx' ->].
  apply lookup_app_l. by rewrite length_lookup_entries.
Qed.

(** The samples of a table of at least [n] entries start with the first
    [n] multiples of the interval. *)
Lemma range_prefix (total_duration_ms interval_ms : Z) (n : nat) :
  0 < interval_ms ->
  (Z.of_nat n - 1) * interval_ms <= total_duration_ms ->
  exists later,
    Py.range 0 (total_duration_ms + 1) interval_ms
    = map (fun k => 0 + Z.of_nat k * interval_ms) (seq 0 n) ++ later.
Proof.
  intros Hpos Hn. unfold Py.range.
  rewrite (proj2 (Z.ltb_lt 0 interval_ms)) by done.
  set (m := Z.to_nat _).
  assert (Hm : (n <= m)%nat).
  { subst m. apply Nat2Z.inj_le. rewrite Z2Nat.id.
    - apply Z.div_le_lower_bound; lia.
    - apply Z.div_pos; lia. }
  replace m with (n + (m - n))%nat by lia.
  rewrite seq_app, map_app. eauto.
Qed.

End LookupTableBuilder.

(** C5. For two words spanning 0..500 ms (sentence 0) and 500..1000 ms
    (sentence 1), the table built with an interval of 10 ms has word index 0
    at the sample time 250 ms and word index 1 at the sample time 750 ms,
    whatever the total duration from 750 ms on. *)
Theorem lookup_table_two_words
    (text0 text1 : string) (cs0 ce0 cs1 ce1 : Z)
    (sentences : list Sentence.t) (total_duration_ms : Z) :
  750 <= total_duration_ms ->
  exists table,
    generate_lookup_table
      [Word.mk text0 0 500 cs0 ce0 0; Word.mk text1 500 1000 cs1 ce1 1]
      sentences total_duration_ms 10 = Some table
    /\ entry_at table 250 = Some (0, 0)
    /\ entry_at table 750 = Some (1, 1).
Proof.
  intros Htotal. eexists. split; [reflexivity|].
  unfold entry_at. cbn [LookupTable.lookup LookupTable.interval].
  destruct (range_prefix total_duration_ms 10 76) as [later ->]; [lia..|].
  split.
  - rewrite lookup_entries_prefix by (rewrite length_map, length_seq; vm_compute; lia).
    vm_compute. reflexivity.
  - rewrite lookup_entries_prefix by (rewrite length_map, length_seq; vm_compute; lia).
    vm_compute. reflexivity.
Qed.

Lemma lookup_table_two_words_witness :
  exists table,
    generate_lookup_table
      [Word.mk "Hello" 0 500 0 5 0; Word.mk "world." 500 1000 6 12 1]
      [] 1000 10 = Some table
    /\ entry_at table 250 = Some (0, 0)
    /\ entry_at table 750 = Some (1, 1).
Proof.
  apply (lookup_table_two_words "Hello" "world." 0 5 6 12 [] 1000).
  lia.
Defined.

(** ** StructureDetector and SentenceSegmenter on given texts *)

(** C6. [is_abbreviation], called without a following word, holds of
    [Dr.], [Inc.], [U.S.A.] and [Ph.D.] and fails of [random.] and [end.]. *)
Theorem is_abbreviation_table :
  EdgeCaseHandlers.is_abbreviation "Dr." None = true
  /\ EdgeCaseHandlers.is_abbreviation "Inc." None = true
  /\ EdgeCaseHandlers.is_abbreviation "U.S.A." None = true
  /\ EdgeCaseHandlers.is_abbreviation "Ph.D." None = true
  /\ EdgeCaseHandlers.is_abbreviation "random." None = false
  /\ EdgeCaseHandlers.is_abbreviation "end." None = false.
Proof. vm_compute. repeat split. Qed.

(** C8, at the failing input: the text [She said "hi" today] has exactly
    two straight double quotes, and [detect_quotations] records nothing for
    it; both quotes are pushed as opening quotes. *)
Theorem detect_quotations_two_quotes :
  Py.count double_quote quoted_text = 2
  /\ EdgeCaseHandlers.detect_quotations quoted_text = [].
Proof. vm_compute. split; reflexivity. Qed.

(** The words of the list example as the aligner extracts them, here with
    one second for each character. *)
Example list_words_extracted :
  extract_words_with_timing (Z.mul 1000) (list_ascii_of_string list_text)
    (map (fun k => Some (Z.of_nat k)) (seq 0 38))
    (map (fun k => Some (Z.of_nat k)) (seq 1 38))
  = Some (list_words 0 8000 9000 17000 18000 28000 29000 38000).
Proof. vm_compute. reflexivity. Qed.

(** C2, the claim as stated fails: no sentence ends at [Telematics], and
    the sentence that ends at [Wearables] is tagged [end_of_text]. *)
Lemma list_forcing_fails :
  ~ (exists words sentences,
       detect_sentences true (list_words 0 100 100 200 200 300 300 400) list_text
       = Some (words, sentences)
       /\ list_forcing sentences).
Proof.
  intros (words & sentences & Hrun & s1 & s2 & Hs1 & Hs2 & He1 & He2 & Ht1 & Ht2).
  vm_compute in Hrun. injection Hrun as <- <-.
  apply list_elem_of_In in Hs2. simpl in Hs2.
  destruct Hs2 as [<-|[<-|[]]]; vm_compute in He2, Ht2; discriminate.
Qed.

(** C2, amended. For the text of the list example, with its words timed in
    any way, the first sentence of the segmenter ends exactly at [include:]
    and is tagged [colon_list], and its last sentence ends exactly at
    [Wearables] and is tagged [end_of_text]. *)
Theorem list_text_sentences (s0 e0 s1 e1 s2 e2 s3 e3 : Z) :
  exists words sentences first_sentence last_sentence,
    detect_sentences true (list_words s0 e0 s1 e1 s2 e2 s3 e3) list_text
    = Some (words, sentences)
    /\ head sentences = Some first_sentence
    /\ last sentences = Some last_sentence
    /\ Sentence.wordEndIndex first_sentence = 1
    /\ Sentence.char_end first_sentence = 17
    /\ Sentence.break_reason first_sentence = Some "colon_list"
    /\ Sentence.wordEndIndex last_sentence = 3
    /\ Sentence.break_reason last_sentence = Some "end_of_text".
Proof.
  do 4 eexists. split; [vm_compute; reflexivity|].
  cbn. repeat split.
Qed.

(** ** SentenceSegmenter: the word ranges of the sentences *)

Section Tiles.

Implicit Types (sentences : list Sentence.t) (lo hi i : Z).

Lemma tiles_le lo sentences hi : tiles lo sentences hi -> lo <= hi.
Proof.
  revert lo. induction sentences as [|s rest IH]; simpl; intros lo.
  - lia.
  - intros (_ & Hle & Hrest). apply IH in Hrest. lia.
Qed.

Lemma tiles_snoc lo sentences (s : Sentence.t) mid :
  tiles lo sentences mid ->
  Sentence.wordStartIndex s = mid ->
  mid <= Sentence.wordEndIndex s ->
  tiles lo (sentences ++ [s]) (Sentence.wordEndIndex s + 1).
Proof.
  revert lo. induction sentences as [|s0 rest IH]; simpl; intros lo.
  - intros -> Hs Hle. by rewrite Hs.
  - intros (Hs0 & Hle0 & Hrest) Hs Hle. eauto.
Qed.

Lemma tiles_snoc_to lo sentences (s : Sentence.t) mid hi :
  tiles lo sentences mid ->
  Sentence.wordStartIndex s = mid ->
  mid <= Sentence.wordEndIndex s ->
  hi = Sentence.wordEndIndex s + 1 ->
  tiles lo (sentences ++ [s]) hi.
Proof. intros ? ? ? ->. by apply tiles_snoc with (mid := mid). Qed.

Lemma tiles_head lo sentences hi :
  tiles lo sentences hi -> lo < hi ->
  exists s, head sentences = Some s /\ Sentence.wordStartIndex s = lo.
Proof.
  destruct sentences as [|s rest]; simpl.
  - lia.
  - intros (Hs & _) _. eauto.
Qed.

Lemma tiles_last lo sentences hi :
  tiles lo sentences hi -> lo < hi ->
  exists s, last sentences = Some s /\ Sentence.wordEndIndex s = hi - 1.
Proof.
  revert lo. induction sentences as [|s rest IH]; simpl; intros lo.
  - lia.
  - intros (Hs & Hle & Hrest) Hlt.
    destruct rest as [|s' rest'].
    + simpl in Hrest. exists s. split; [done|lia].
    + apply IH in Hrest as (l & Hl & Hend).
      * exists l. by rewrite last_cons_cons.
      * simpl in Hrest. destruct Hrest as (Hs' & Hle' & Hrest').
        apply tiles_le in Hrest'. lia.
Qed.

Lemma tiles_adjacent lo sentences hi (k : nat) (s s' : Sentence.t) :
  tiles lo sentences hi ->
  sentences !! k = Some s -> sentences !! S k = Some s' ->
  Sentence.wordStartIndex s' = Sentence.wordEndIndex s + 1.
Proof.
  revert lo k. induction sentences as [|s0 rest IH]; intros lo k; [done|].
  intros (Hs0 & Hle & Hrest) Hk HSk.
  destruct k as [|k].
  - simpl in Hk, HSk. simplify_eq.
    destruct rest as [|s1 rest']; [done|].
    simpl in HSk. simplify_eq. by destruct Hrest.
  - eapply IH; eauto.
Qed.

Lemma tiles_lower_bound lo sentences hi (k : nat) (s : Sentence.t) :
  tiles lo sentences hi -> sentences !! k = Some s ->
  lo <= Sentence.wordStartIndex s.
Proof.
  revert lo k. induction sentences as [|s0 rest IH]; intros lo k; [done|].
  intros (Hs0 & Hle & Hrest) Hk.
  destruct k as [|k].
  - simpl in Hk. simplify_eq. lia.
  - simpl in Hk. specialize (IH _ _ Hrest Hk). lia.
Qed.

Lemma tiles_cover lo sentences hi i :
  tiles lo sentences hi -> lo <= i < hi ->
  exists! k : nat, exists s, sentences !! k = Some s /\ in_range s i.
Proof.
  revert lo. induction sentences as [|s0 rest IH]; simpl; intros lo.
  - lia.
  - intros (Hs0 & Hle & Hrest) Hi.
    destruct (Z_le_gt_dec i (Sentence.wordEndIndex s0)) as [Hin|Hout].
    + exists 0%nat. split.
      * exists s0. split; [done|]. unfold in_range. lia.
      * intros [|k] (s & Hk & Hr); [done|].
        simpl in Hk.
        pose proof (tiles_lower_bound _ _ _ _ _ Hrest Hk).
        unfold in_range in Hr. lia.
    + destruct (IH _ Hrest) as (k & (s & Hk & Hr) & Huniq); [lia|].
      exists (S k). split.
      * by exists s.
      * intros [|k'] (s' & Hk' & Hr').
        -- simpl in Hk'. simplify_eq. unfold in_range in Hr'. lia.
        -- f_equal. apply Huniq. by exists s'.
Qed.

End Tiles.

Section Segmenter.

Import EdgeCaseHandlers.

Variables (text : string) (structure_map : gmap Z TextStructure.t).

Lemma segmenter_step_inv st i word later :
  segmenter_inv st i ->
  segmenter_inv (segmenter_step text structure_map st i word later) (i + 1).
Proof.
  unfold segmenter_inv, segmenter_step. intros Hinv.
  destruct (break_decision _ _ _ _) as [should_break break_reason].
  destruct should_break.
  - destruct (current_sentence_words st ++ [_]) as [|first_word buffered] eqn:Hbuf.
    { by destruct (current_sentence_words st). }
    assert (Hlen : length (first_word :: buffered)
                   = (length (current_sentence_words st) + 1)%nat)
      by (by rewrite <- Hbuf, length_app).
    cbn [sentences current_sentence_words].
    eapply tiles_snoc_to; [exact Hinv|..];
      cbn [Sentence.wordStartIndex Sentence.wordEndIndex length] in Hlen |- *;
      lia.
  - cbn [sentences current_sentence_words].
    rewrite length_app. cbn [length].
    replace (i + 1 - Z.of_nat (length (current_sentence_words st) + 1))
      with (i - Z.of_nat (length (current_sentence_words st))) by lia.
    done.
Qed.

Lemma segmenter_loop_inv words st i :
  segmenter_inv st i ->
  segmenter_inv (segmenter_loop text structure_map st i words)
    (i + Z.of_nat (length words)).
Proof.
  revert st i. induction words as [|word later IH]; intros st i Hinv.
  - simpl. by rewrite Z.add_0_r.
  - cbn [segmenter_loop length].
    replace (i + Z.of_nat (S (length later)))
      with (i + 1 + Z.of_nat (length later)) by lia.
    apply IH. by apply segmenter_step_inv.
Qed.

End Segmenter.

Lemma apply_enhanced_sentence_detection_tiles
    (words : list Word.t) (text : string) (structures : list TextStructure.t) :
  tiles 0 (EdgeCaseHandlers.apply_enhanced_sentence_detection words text structures).2
    (Z.of_nat (length words)).
Proof.
  unfold EdgeCaseHandlers.apply_enhanced_sentence_detection.
  set (structure_map := EdgeCaseHandlers.structure_map_of structures).
  set (st0 := EdgeCaseHandlers.mk_segmenter_state [] [] [] 0 0).
  pose proof (segmenter_loop_inv text structure_map words st0 0) as Hinv.
  set (st := EdgeCaseHandlers.segmenter_loop _ _ _ _ _) in *.
  unfold segmenter_inv in Hinv. rewrite Z.add_0_l in Hinv.
  specialize (Hinv eq_refl).
  destruct (EdgeCaseHandlers.current_sentence_words st) as [|first_word buffered] eqn:Hbuf.
  - simpl in *. by rewrite Z.sub_0_r in Hinv.
  - destruct (last (first_word :: buffered)) as [last_word|] eqn:Hlast.
    + cbn [snd].
      eapply tiles_snoc_to; [exact Hinv|..];
        cbn [Sentence.wordStartIndex Sentence.wordEndIndex length]; lia.
    + apply last_None in Hlast. done.
Qed.

(** C10. For a non-empty word list the sentences of
    [apply_enhanced_sentence_detection] partition the word indices into
    contiguous ranges: the first range starts at 0, the last ends at
    [len(words) - 1], each range starts right after the one before, and
    every word index lies in the range of exactly one sentence. *)
Theorem sentences_partition_words
    (words : list Word.t) (text : string) (structures : list TextStructure.t) :
  words <> [] ->
  let sentences :=
    (EdgeCaseHandlers.apply_enhanced_sentence_detection words text structures).2 in
  (exists first_sentence,
      head sentences = Some first_sentence
      /\ Sentence.wordStartIndex first_sentence = 0)
  /\ (exists last_sentence,
        last sentences = Some last_sentence
        /\ Sentence.wordEndIndex last_sentence = Z.of_nat (length words) - 1)
  /\ (forall (k : nat) s s',
        sentences !! k = Some s -> sentences !! S k = Some s' ->
        Sentence.wordStartIndex s' = Sentence.wordEndIndex s + 1)
  /\ (forall i, 0 <= i < Z.of_nat (length words) ->
        exists! k : nat, exists s, sentences !! k = Some s /\ in_range s i).
Proof.
  intros Hwords sentences.
  pose proof (apply_enhanced_sentence_detection_tiles words text structures) as Htiles.
  fold sentences in Htiles.
  assert (0 < Z.of_nat (length words)) by (destruct words; [done|simpl; lia]).
  split; [by eapply tiles_head|].
  split; [by eapply tiles_last|].
  split.
  - intros k s s'. by eapply tiles_adjacent.
  - intros i Hi. by eapply tiles_cover.
Qed.

Lemma sentences_partition_words_witness :
  let sentences :=
    (EdgeCaseHandlers.apply_enhanced_sentence_detection
       (list_words 0 100 100 200 200 300 300 400) list_text
       (EdgeCaseHandlers.detect_structures list_text)).2 in
  (exists first_sentence,
      head sentences = Some first_sentence
      /\ Sentence.wordStartIndex first_sentence = 0)
  /\ (exists last_sentence,
        last sentences = Some last_sentence
        /\ Sentence.wordEndIndex last_sentence = Z.of_nat 4 - 1)
  /\ (forall (k : nat) s s',
        sentences !! k = Some s -> sentences !! S k = Some s' ->
        Sentence.wordStartIndex s' = Sentence.wordEndIndex s + 1)
  /\ (forall i, 0 <= i < Z.of_nat 4 ->
        exists! k : nat, exists s, sentences !! k = Some s /\ in_range s i).
Proof.
  apply (sentences_partition_words (list_words 0 100 100 200 200 300 300 400)
           list_text (EdgeCaseHandlers.detect_structures list_text)).
  discriminate.
Defined.

(** ** CoverageAssigner *)

Section CoverageAssigner.

Implicit Types (sentences : list Sentence.t) (words : list Word.t).

Lemma foldl_extend_step (pre : list Sentence.t) (s : Sentence.t)
    (rest : list Sentence.t) :
  foldl extend_step (pre ++ s :: rest) (seq (length pre) (S (length rest)))
  = pre ++ extend_from s rest.
Proof.
  revert pre s. induction rest as [|s' rest' IH]; intros pre s.
  - cbn [seq foldl length]. unfold extend_step.
    rewrite length_app. cbn [length].
    by rewrite (proj2 (Z.ltb_ge _ _)) by lia.
  - cbn [length]. rewrite <- cons_seq. cbn [foldl].
    assert (Hstep : extend_step (pre ++ s :: s' :: rest') (length pre)
              = (pre ++ [Sentence.set_end_ms s
                           ((Sentence.end_ms s + Sentence.start_ms s') / 2)])
                ++ Sentence.set_start_ms s'
                     ((Sentence.end_ms s + Sentence.start_ms s') / 2) :: rest').
    { unfold extend_step.
      rewrite length_app. cbn [length].
      rewrite (proj2 (Z.ltb_lt _ _)) by lia.
      assert (H0 : (pre ++ s :: s' :: rest') !! length pre = Some s)
        by (by apply list_lookup_middle).
      assert (H1 : (pre ++ s :: s' :: rest') !! S (length pre) = Some s').
      { rewrite lookup_app_r by lia.
        by replace (S (length pre) - length pre)%nat with 1%nat by lia. }
      rewrite H0, H1.
      rewrite (insert_app_r_alt pre _ (length pre)) by lia.
      rewrite Nat.sub_diag. cbn [insert list_insert].
      rewrite (insert_app_r_alt pre _ (S (length pre))) by lia.
      replace (S (length pre) - length pre)%nat with 1%nat by lia.
      cbn. by rewrite <- app_assoc. }
    rewrite Hstep.
    specialize (IH (pre ++ [Sentence.set_end_ms s
                              ((Sentence.end_ms s + Sentence.start_ms s') / 2)])
                  (Sentence.set_start_ms s'
                     ((Sentence.end_ms s + Sentence.start_ms s') / 2))).
    rewrite length_app in IH. cbn [length] in IH.
    replace (length pre + 1)%nat with (S (length pre)) in IH by lia.
    rewrite IH. by rewrite <- app_assoc.
Qed.

Lemma extend_sentences_extend_from (s : Sentence.t) (rest : list Sentence.t) :
  extend_sentences (s :: rest) = extend_from s rest.
Proof. exact (foldl_extend_step [] s rest). Qed.

Lemma length_extend_from (s : Sentence.t) rest :
  length (extend_from s rest) = S (length rest).
Proof.
  revert s. induction rest as [|s' rest' IH]; intros s; [done|].
  simpl. by rewrite IH.
Qed.

Lemma length_extend_sentences sentences :
  length (extend_sentences sentences) = length sentences.
Proof.
  destruct sentences as [|s rest]; [done|].
  by rewrite extend_sentences_extend_from, length_extend_from.
Qed.

Lemma extend_from_head_start (s : Sentence.t) rest :
  exists s0 tl, extend_from s rest = s0 :: tl
                /\ Sentence.start_ms s0 = Sentence.start_ms s.
Proof. destruct rest; simpl; eauto. Qed.

(** After the first loop each sentence ends where the next one starts. *)
Lemma extend_from_contiguous (s : Sentence.t) rest (k : nat) (a b : Sentence.t) :
  extend_from s rest !! k = Some a -> extend_from s rest !! S k = Some b ->
  Sentence.end_ms a = Sentence.start_ms b.
Proof.
  revert s k. induction rest as [|s' rest' IH]; intros s k Ha Hb.
  - by destruct k.
  - cbn [extend_from] in Ha, Hb. destruct k as [|k].
    + simpl in Ha. simplify_eq.
      change (extend_from (Sentence.set_start_ms s'
                             ((Sentence.end_ms s + Sentence.start_ms s') / 2))
                rest' !! 0%nat = Some b) in Hb.
      destruct (extend_from_head_start
                  (Sentence.set_start_ms s'
                     ((Sentence.end_ms s + Sentence.start_ms s') / 2)) rest')
        as (s0 & tl & Heq & Hstart).
      rewrite Heq in Hb. simpl in Hb. simplify_eq.
      by rewrite Hstart.
    + eapply IH; eauto.
Qed.

Lemma extend_sentences_contiguous sentences (k : nat) (a b : Sentence.t) :
  extend_sentences sentences !! k = Some a ->
  extend_sentences sentences !! S k = Some b ->
  Sentence.end_ms a = Sentence.start_ms b.
Proof.
  destruct sentences as [|s rest]; [done|].
  rewrite extend_sentences_extend_from. apply extend_from_contiguous.
Qed.




Lemma assign_word_times sentences (w : Word.t) :
  same_times w (assign_word sentences w).
Proof. unfold assign_word. by repeat case_match. Qed.

Lemma fix_index_times (w : Word.t) : same_times w (fix_index w).
Proof. unfold fix_index. by case_match. Qed.



End CoverageAssigner.

(** ** The sentence detectors keep the times of the words *)

Section Detectors.

Import EdgeCaseHandlers.

Implicit Types (st : segmenter_state) (words : list Word.t).

Lemma same_times_set_sentence_index (w : Word.t) (v : Z) :
  same_times w (Word.set_sentence_index w v).
Proof. done. Qed.

Lemma segmenter_step_words_done text structure_map st i word later :
  exists word',
    words_done (segmenter_step text structure_map st i word later)
    = words_done st ++ [word']
    /\ same_times word word'.
Proof.
  exists (Word.set_sentence_index word (sentence_index st)).
  split; [|done].
  unfold segmenter_step.
  destruct (break_decision _ _ _ _) as [[] ?]; [|done].
  by destruct (current_sentence_words st ++ [_]).
Qed.

Lemma segmenter_step_started text structure_map st i word later :
  has_started (segmenter_step text structure_map st i word later).
Proof.
  unfold has_started, segmenter_step.
  destruct (break_decision _ _ _ _) as [[] ?].
  - destruct (current_sentence_words st ++ [_]) as [|first_word buffered] eqn:Hbuf.
    + by destruct (current_sentence_words st).
    + left. cbn [sentences]. by destruct (sentences st).
  - right. cbn [current_sentence_words]. by destruct (current_sentence_words st).
Qed.

Lemma segmenter_loop_words_done text structure_map st i words :
  exists words',
    words_done (segmenter_loop text structure_map st i words)
    = words_done st ++ words'
    /\ Forall2 same_times words words'.
Proof.
  revert st i. induction words as [|word later IH]; intros st i.
  - exists []. by rewrite app_nil_r.
  - cbn [segmenter_loop].
    destruct (segmenter_step_words_done text structure_map st i word later)
      as (word' & Hdone & Htimes).
    destruct (IH (segmenter_step text structure_map st i word later) (i + 1))
      as (words' & Hdone' & Htimes').
    exists (word' :: words'). split.
    + by rewrite Hdone', Hdone, <- app_assoc.
    + by constructor.
Qed.

Lemma segmenter_loop_started text structure_map st i words :
  has_started st \/ words <> [] ->
  has_started (segmenter_loop text structure_map st i words).
Proof.
  revert st i. induction words as [|word later IH]; intros st i Hst.
  - by destruct Hst.
  - cbn [segmenter_loop]. apply IH. left. apply segmenter_step_started.
Qed.

Lemma apply_enhanced_sentence_detection_words words text structures :
  Forall2 same_times words
    (apply_enhanced_sentence_detection words text structures).1.
Proof.
  unfold apply_enhanced_sentence_detection.
  destruct (segmenter_loop_words_done text (structure_map_of structures)
              (mk_segmenter_state [] [] [] 0 0) 0 words)
    as (words' & Hdone & Htimes).
  cbn [words_done app] in Hdone.
  by repeat case_match; cbn [fst]; rewrite Hdone.
Qed.

Lemma apply_enhanced_sentence_detection_nonempty words text structures :
  words <> [] ->
  (apply_enhanced_sentence_detection words text structures).2 <> [].
Proof.
  intros Hwords.
  pose proof (apply_enhanced_sentence_detection_tiles words text structures) as Ht.
  destruct (_.2) as [|s rest]; [|done].
  simpl in Ht. destruct words; [done|simpl in Ht; lia].
Qed.

Lemma simple_step_Some text st i word later st' :
  simple_step text st i word later = Some st' ->
  has_started st'
  /\ exists word', words_done st' = words_done st ++ [word']
                   /\ same_times word word'.
Proof.
  unfold simple_step. intros Hstep.
  assert (Hkeep : forall st0,
    st0 = mk_segmenter_state
            (words_done st ++ [Word.set_sentence_index word (sentence_index st)])
            (sentences st)
            (current_sentence_words st
             ++ [Word.set_sentence_index word (sentence_index st)])
            (current_sentence_start st) (sentence_index st) ->
    has_started st0
    /\ exists word', words_done st0 = words_done st ++ [word']
                     /\ same_times word word').
  { intros st0 ->. split.
    - right. cbn [current_sentence_words]. by destruct (current_sentence_words st).
    - eexists. split; [reflexivity|done]. }
  destruct (existsb _ _); [|injection Hstep as <-; by apply Hkeep].
  destruct (if _ : bool then _ else _) as [special|]; [|done].
  cbn [mbind option_bind] in Hstep.
  destruct (negb special); [|injection Hstep as <-; by apply Hkeep].
  destruct (current_sentence_words st ++ [_]) as [|first_word buffered] eqn:Hbuf.
  { by destruct (current_sentence_words st). }
  injection Hstep as <-. split.
  - left. cbn [sentences]. by destruct (sentences st).
  - eexists. split; [reflexivity|done].
Qed.

Lemma simple_loop_Some text st i words st' :
  simple_loop text st i words = Some st' ->
  (has_started st \/ words <> [] -> has_started st')
  /\ exists words', words_done st' = words_done st ++ words'
                    /\ Forall2 same_times words words'.
Proof.
  revert st i. induction words as [|word later IH]; intros st i Hloop.
  - injection Hloop as <-. split.
    + by intros [|].
    + exists []. by rewrite app_nil_r.
  - cbn [simple_loop] in Hloop.
    destruct (simple_step text st i word later) as [st1|] eqn:Hstep; [|done].
    cbn [mbind option_bind] in Hloop.
    apply simple_step_Some in Hstep as (Hstarted & word' & Hdone & Htimes).
    apply IH in Hloop as (Hstarted' & words' & Hdone' & Htimes').
    split; [auto|].
    exists (word' :: words'). split.
    + by rewrite Hdone', Hdone, <- app_assoc.
    + by constructor.
Qed.

Lemma _simple_sentence_detection_Some words text words' sentences' :
  _simple_sentence_detection words text = Some (words', sentences') ->
  Forall2 same_times words words' /\ (words <> [] -> sentences' <> []).
Proof.
  unfold _simple_sentence_detection. intros Hrun.
  destruct (simple_loop _ _ _ _) as [st|] eqn:Hloop; [|done].
  cbn [mbind option_bind] in Hrun.
  apply simple_loop_Some in Hloop as (Hstarted & done' & Hdone & Htimes).
  cbn [words_done app] in Hdone.
  destruct (current_sentence_words st) as [|first_word buffered] eqn:Hbuf.
  - injection Hrun as <- <-. rewrite Hdone. split; [done|].
    intros Hwords. destruct Hstarted as [|]; [by right|done|done].
  - destruct (last (first_word :: buffered)) eqn:Hlast;
      [|by apply last_None in Hlast].
    injection Hrun as <- <-. rewrite Hdone. split; [done|].
    intros _. by destruct (sentences st).
Qed.

End Detectors.

Lemma detect_sentences_Some (use_enhanced_detection : bool)
    (words : list Word.t) (text : string) words' sentences' :
  detect_sentences use_enhanced_detection words text = Some (words', sentences') ->
  Forall2 same_times words words' /\ (words <> [] -> sentences' <> []).
Proof.
  unfold detect_sentences. destruct use_enhanced_detection.
  - intros [= Heq].
    pose proof (apply_enhanced_sentence_detection_words words text
                  (EdgeCaseHandlers.detect_structures text)) as Hwords.
    pose proof (apply_enhanced_sentence_detection_nonempty words text
                  (EdgeCaseHandlers.detect_structures text)) as Hne.
    by rewrite Heq in Hwords, Hne.
  - apply _simple_sentence_detection_Some.
Qed.

(** ** The pipeline *)

Section Pipeline.

Context {Num : Type} (ms_of : Num -> Z).

Implicit Types (words : list Word.t) (sentences : list Sentence.t).

Lemma same_times_trans (a b c : Word.t) :
  same_times a b -> same_times b c -> same_times a c.
Proof. unfold same_times. intros [] []. split; congruence. Qed.

Lemma Forall2_same_times_trans words1 words2 words3 :
  Forall2 same_times words1 words2 -> Forall2 same_times words2 words3 ->
  Forall2 same_times words1 words3.
Proof.
  intros H12. revert words3.
  induction H12 as [|a b l k Hab _ IH]; intros words3 H23.
  - by inversion H23.
  - inversion H23 as [|? c ? k' Hbc Hk]; subst.
    constructor; [by eapply same_times_trans|by apply IH].
Qed.

Lemma Forall2_same_times_map (f : Word.t -> Word.t) words :
  (forall w, same_times w (f w)) -> Forall2 same_times words (map f words).
Proof. intros Hf. induction words; constructor; auto. Qed.

Lemma ensure_continuous_sentence_coverage_nonempty words sentences :
  words <> [] -> sentences <> [] ->
  ensure_continuous_sentence_coverage words sentences
  = (map fix_index (map (assign_word (extend_sentences sentences)) words),
     extend_sentences sentences).
Proof. by destruct words, sentences. Qed.

Lemma ensure_continuous_sentence_coverage_empty words sentences :
  words = [] \/ sentences = [] ->
  ensure_continuous_sentence_coverage words sentences = (words, sentences).
Proof. intros [-> | ->]; [by destruct sentences|done]. Qed.

Lemma ensure_continuous_sentence_coverage_times words sentences :
  Forall2 same_times words
    (ensure_continuous_sentence_coverage words sentences).1.
Proof.
  destruct words as [|w ws].
  { rewrite ensure_continuous_sentence_coverage_empty by auto. constructor. }
  destruct sentences as [|s ss].
  { rewrite ensure_continuous_sentence_coverage_empty by auto.
    cbn [fst]. generalize (w :: ws). intros l. by induction l; constructor. }
  rewrite ensure_continuous_sentence_coverage_nonempty by done.
  cbn [fst].
  eapply Forall2_same_times_trans.
  - apply Forall2_same_times_map, assign_word_times.
  - apply Forall2_same_times_map, fix_index_times.
Qed.

Lemma detect_sentences_nil (use_enhanced_detection : bool) (text : string) :
  detect_sentences use_enhanced_detection [] text = Some ([], []).
Proof. by destruct use_enhanced_detection. Qed.

(** The stages that a successful run of [process] went through. *)
Lemma process_Some (use_enhanced_detection : bool) (characters : list ascii)
    (start_times end_times : list (option Num)) (t : Timing.t) :
  process ms_of use_enhanced_detection characters start_times end_times = Some t ->
  exists words0 words1 sentences1,
    extract_words_with_timing ms_of characters start_times end_times = Some words0
    /\ detect_sentences use_enhanced_detection (eliminate_timing_gaps words0)
         (reconstruct_text characters) = Some (words1, sentences1)
    /\ ensure_continuous_sentence_coverage words1 sentences1
       = (Timing.words t, Timing.sentences t).
Proof.
  unfold process. intros Hrun.
  destruct (extract_words_with_timing _ _ _ _) as [words0|]; [|done].
  cbn [mbind option_bind] in Hrun.
  destruct (detect_sentences _ _ _) as [[words1 sentences1]|] eqn:Hdet; [|done].
  cbn [mbind option_bind] in Hrun.
  destruct (ensure_continuous_sentence_coverage words1 sentences1)
    as [words2 sentences2] eqn:Hcov.
  destruct (total_duration _ _) as [total|]; [|done].
  cbn [mbind option_bind] in Hrun.
  destruct (generate_lookup_table _ _ _ _) as [table|]; [|done].
  injection Hrun as <-.
  by exists words0, words1, sentences1.
Qed.

(** The words of the output have the times that [eliminate_timing_gaps]
    gave them. *)
Lemma process_times use_enhanced_detection characters start_times end_times t :
  process ms_of use_enhanced_detection characters start_times end_times = Some t ->
  exists words0,
    extract_words_with_timing ms_of characters start_times end_times = Some words0
    /\ Forall2 same_times (close_gaps words0) (Timing.words t).
Proof.
  intros Hrun.
  apply process_Some in Hrun as (words0 & words1 & sentences1 & Hex & Hdet & Hcov).
  exists words0. split; [done|].
  rewrite eliminate_timing_gaps_close_gaps in Hdet.
  apply detect_sentences_Some in Hdet as [Hdet _].
  eapply Forall2_same_times_trans; [exact Hdet|].
  pose proof (ensure_continuous_sentence_coverage_times words1 sentences1) as Ht.
  by rewrite Hcov in Ht.
Qed.

(** The sentences and words of the output come out of the two loops of
    [ensure_continuous_sentence_coverage], unless there is no word. *)
Lemma process_sentences use_enhanced_detection characters start_times end_times t :
  process ms_of use_enhanced_detection characters start_times end_times = Some t ->
  (Timing.words t = [] /\ Timing.sentences t = [])
  \/ exists words1 sentences1,
       sentences1 <> []
       /\ Timing.sentences t = extend_sentences sentences1
       /\ Timing.words t
          = map fix_index (map (assign_word (extend_sentences sentences1)) words1).
Proof.
  intros Hrun.
  apply process_Some in Hrun as (words0 & words1 & sentences1 & Hex & Hdet & Hcov).
  destruct (eliminate_timing_gaps words0) as [|w ws] eqn:Hgaps.
  - rewrite detect_sentences_nil in Hdet. injection Hdet as <- <-.
    left. by injection Hcov as <- <-.
  - apply detect_sentences_Some in Hdet as [Htimes Hne].
    specialize (Hne ltac:(done)).
    assert (words1 <> []) by (by inversion Htimes).
    rewrite ensure_continuous_sentence_coverage_nonempty in Hcov by done.
    injection Hcov as <- <-.
    right. by exists words1, sentences1.
Qed.

End Pipeline.

(** C1, the claim as stated fails: for [a b] with a second of silence
    between the words, [a] is stretched from 1000 ms to 1500 ms only, and
    [b] still starts at 2000 ms. *)
Lemma process_words_not_contiguous :
  exists t,
    process Dyadic.ms true far_apart_chars far_apart_starts far_apart_ends = Some t
    /\ ~ (words_contiguous (Timing.words t)
          /\ sentences_contiguous (Timing.sentences t)).
Proof.
  eexists. split; [vm_compute; reflexivity|].
  intros [Hwords _].
  specialize (Hwords 0%nat _ _ eq_refl eq_refl).
  vm_compute in Hwords. discriminate.
Qed.

(** C1, amended. On the output of the pipeline every sentence ends where
    the next one starts.  The words keep the starts that the aligner
    extracted; a word ends where the next one starts when the gap between
    the two, as extracted, is below 500 ms (an overlap included), and for a
    gap of 500 ms or more it is stretched by half the gap, rounded down, so
    that it ends before the next word starts. *)
Theorem process_coverage {Num : Type} (ms_of : Num -> Z)
    (use_enhanced_detection : bool) (characters : list ascii)
    (start_times end_times : list (option Num)) (t : Timing.t) :
  process ms_of use_enhanced_detection characters start_times end_times = Some t ->
  sentences_contiguous (Timing.sentences t)
  /\ exists words0,
       extract_words_with_timing ms_of characters start_times end_times = Some words0
       /\ length (Timing.words t) = length words0
       /\ forall (i : nat) current_word0 next_word0,
            words0 !! i = Some current_word0 ->
            words0 !! S i = Some next_word0 ->
            exists current_word next_word,
              Timing.words t !! i = Some current_word
              /\ Timing.words t !! S i = Some next_word
              /\ Word.start_ms next_word = Word.start_ms next_word0
              /\ let gap := Word.start_ms next_word0 - Word.end_ms current_word0 in
                 (gap < 500 -> Word.end_ms current_word = Word.start_ms next_word)
                 /\ (500 <= gap ->
                     Word.end_ms current_word = Word.end_ms current_word0 + gap / 2
                     /\ Word.end_ms current_word < Word.start_ms next_word).
Proof.
  intros Hrun. split.
  - destruct (process_sentences _ _ _ _ _ _ Hrun)
      as [[_ ->]|(words1 & sentences1 & _ & -> & _)].
    + intros k s s' Hs. done.
    + intros k s s'. apply extend_sentences_contiguous.
  - destruct (process_times _ _ _ _ _ _ Hrun) as (words0 & Hex & Htimes).
    exists words0. split; [done|]. split.
    { apply Forall2_length in Htimes. by rewrite length_close_gaps in Htimes. }
    intros i c0 n0 Hc0 Hn0.
    pose proof (close_gaps_lookup_pair _ _ _ _ Hc0 Hn0) as Hc1.
    destruct (Forall2_lookup_l _ _ _ _ _ Htimes Hc1) as (c & Hc & Hcs & Hce).
    assert (Hlen : (S i < length (close_gaps words0))%nat).
    { rewrite length_close_gaps. by eapply lookup_lt_Some. }
    destruct (lookup_lt_is_Some_2 _ _ Hlen) as [n1 Hn1].
    destruct (Forall2_lookup_l _ _ _ _ _ Htimes Hn1) as (n & Hn & Hns & Hne).
    pose proof (close_gaps_start_ms _ _ _ _ Hn0 Hn1) as Hstart.
    pose proof (close_gap_end_ms c0 n0) as Hend. cbn zeta in Hend.
    exists c, n. split; [done|]. split; [done|]. split; [congruence|].
    cbn zeta. rewrite Hce, Hns, Hstart, Hend. split.
    + intros Hgap. by rewrite (proj2 (Z.leb_gt _ _)) by lia.
    + intros Hgap. rewrite (proj2 (Z.leb_le _ _)) by lia. split; [done|].
      assert ((Word.start_ms n0 - Word.end_ms c0) / 2
              < Word.start_ms n0 - Word.end_ms c0)
        by (apply Z.div_lt_upper_bound; lia).
      lia.
Qed.

Lemma process_coverage_witness :
  exists t,
    process Dyadic.ms true far_apart_chars far_apart_starts far_apart_ends = Some t
    /\ sentences_contiguous (Timing.sentences t)
    /\ exists words0,
         extract_words_with_timing Dyadic.ms far_apart_chars far_apart_starts
           far_apart_ends = Some words0
         /\ length (Timing.words t) = length words0
         /\ forall (i : nat) current_word0 next_word0,
              words0 !! i = Some current_word0 ->
              words0 !! S i = Some next_word0 ->
              exists current_word next_word,
                Timing.words t !! i = Some current_word
                /\ Timing.words t !! S i = Some next_word
                /\ Word.start_ms next_word = Word.start_ms next_word0
                /\ let gap := Word.start_ms next_word0 - Word.end_ms current_word0 in
                   (gap < 500 -> Word.end_ms current_word = Word.start_ms next_word)
                   /\ (500 <= gap ->
                       Word.end_ms current_word
                       = Word.end_ms current_word0 + gap / 2
                       /\ Word.end_ms current_word < Word.start_ms next_word).
Proof.
  eexists. split; [vm_compute; reflexivity|].
  apply (process_coverage Dyadic.ms true far_apart_chars far_apart_starts
           far_apart_ends).
  vm_compute. reflexivity.
Defined.




(** ** CharacterAligner: the time entries that are read *)

Section Aligner.

Context {Num : Type} (ms_of : Num -> Z).

Implicit Types (st : aligner_state (Num := Num)) (characters : list ascii).

Variables (start_times end_times : list (option Num)).

Lemma append_char_nonempty (s : string) (c : ascii) :
  s +:+ String c EmptyString <> EmptyString.
Proof. by destruct s. Qed.

Lemma aligner_step_in_state (in_word : bool) st (i : nat) (c : ascii) st' :
  aligner_in_state in_word st ->
  aligner_step ms_of start_times end_times st i c = Some st' ->
  aligner_in_state (negb (Py.isspace c)) st'.
Proof.
  unfold aligner_step. intros Hst Hstep.
  destruct (Py.isspace c); cbn [negb] in *.
  - destruct (String.eqb_spec (current_word st) EmptyString) as [Hcur|Hcur];
      cbn [negb] in Hstep.
    + injection Hstep as <-. cbn. split; [done|].
      destruct in_word; [done|]. by destruct Hst.
    + destruct (end_times !! _); [|done]. by injection Hstep as <-.
  - destruct (word_start_time st).
    + injection Hstep as <-. apply append_char_nonempty.
    + destruct (start_times !! i); [|done].
      injection Hstep as <-. apply append_char_nonempty.
Qed.

Lemma aligner_step_no_start st (i : nat) (c : ascii) :
  aligner_in_state false st -> Py.isspace c = false ->
  (length start_times <= i)%nat ->
  aligner_step ms_of start_times end_times st i c = None.
Proof.
  intros [_ Hnone] Hc Hi. unfold aligner_step.
  rewrite Hc, Hnone. cbn [negb].
  by rewrite (lookup_ge_None_2 start_times i).
Qed.

Lemma aligner_step_no_end st (i : nat) (c : ascii) :
  aligner_in_state true st -> Py.isspace c = true ->
  (length end_times <= if (0 <? i)%nat then i - 1 else i)%nat ->
  aligner_step ms_of start_times end_times st i c = None.
Proof.
  intros Hcur Hc Hi. unfold aligner_step.
  rewrite Hc. cbn [negb].
  rewrite (proj2 (String.eqb_neq _ _)) by done. cbn [negb].
  by rewrite (lookup_ge_None_2 end_times _ Hi).
Qed.

Lemma aligner_loop_missing (in_word : bool) st (i : nat) characters :
  aligner_in_state in_word st ->
  existsb (fun i => (length start_times <=? i)%nat) (word_starts in_word i characters)
  || existsb (fun i => (length end_times <=? i)%nat) (word_ends in_word i characters)
  = true ->
  aligner_loop ms_of start_times end_times st i characters = None.
Proof.
  revert in_word st i. induction characters as [|c rest IH];
    intros in_word st i Hst Hmiss; [done|].
  cbn [aligner_loop word_starts word_ends] in *.
  destruct (aligner_step ms_of start_times end_times st i c) as [st'|] eqn:Hstep;
    [|done].
  cbn [mbind option_bind].
  apply (IH (negb (Py.isspace c))); [by eapply aligner_step_in_state|].
  rewrite !existsb_app in Hmiss.
  destruct in_word, (Py.isspace c) eqn:Hc; cbn in Hmiss |- *;
    rewrite ?orb_false_r in Hmiss; try done.
  - apply orb_prop in Hmiss as [Hmiss|Hmiss]; [by rewrite Hmiss|].
    apply orb_prop in Hmiss as [Hmiss|Hmiss]; [|by rewrite Hmiss, orb_true_r].
    apply Nat.leb_le in Hmiss.
    by rewrite (aligner_step_no_end st i c) in Hstep.
  - apply orb_prop in Hmiss as [Hmiss|Hmiss]; [|by rewrite Hmiss, orb_true_r].
    apply orb_prop in Hmiss as [Hmiss|Hmiss]; [|by rewrite Hmiss].
    apply Nat.leb_le in Hmiss.
    by rewrite (aligner_step_no_start st i c) in Hstep.
Qed.

Lemma aligner_loop_in_state (in_word : bool) st (i : nat) characters st' :
  aligner_in_state in_word st ->
  aligner_loop ms_of start_times end_times st i characters = Some st' ->
  aligner_in_state (ends_in_word in_word characters) st'.
Proof.
  revert in_word st i. induction characters as [|c rest IH];
    intros in_word st i Hst Hloop.
  - by injection Hloop as <-.
  - cbn [aligner_loop ends_in_word] in *.
    destruct (aligner_step ms_of start_times end_times st i c) as [st1|] eqn:Hstep;
      [|done].
    cbn [mbind option_bind] in Hloop.
    eapply IH; [|exact Hloop]. by eapply aligner_step_in_state.
Qed.

Lemma extract_words_with_timing_missing characters :
  missing_time_entry characters start_times end_times = true ->
  extract_words_with_timing ms_of characters start_times end_times = None.
Proof.
  unfold missing_time_entry, extract_words_with_timing. intros Hmiss.
  set (st0 := mk_aligner_state [] EmptyString None 0 0).
  assert (Hst0 : aligner_in_state false st0) by done.
  apply orb_prop in Hmiss as [Hmiss|Hmiss].
  - by rewrite (aligner_loop_missing false st0 0 characters Hst0 Hmiss).
  - apply andb_prop in Hmiss as [Hword Hnil].
    apply bool_decide_eq_true in Hnil.
    destruct (aligner_loop _ _ _ st0 _ _) as [st'|] eqn:Hloop; [|done].
    cbn [mbind option_bind].
    pose proof (aligner_loop_in_state false st0 0 characters st' Hst0 Hloop) as Hst'.
    rewrite Hword in Hst'. cbn in Hst'.
    rewrite (proj2 (String.eqb_neq _ _)) by done. cbn [negb].
    by rewrite Hnil.
Qed.

End Aligner.

(** C4, the claim as stated fails: for [ab] with a single start time and
    a single end time the arrays differ in length, the second character has
    no time entry, and the run goes through. *)
Lemma process_accepts_short_arrays :
  length short_arrays_chars <> length short_arrays_starts
  /\ length short_arrays_chars <> length short_arrays_ends
  /\ process Dyadic.ms true short_arrays_chars short_arrays_starts short_arrays_ends
     <> None.
Proof. vm_compute. repeat split; discriminate. Qed.

(** C4, amended. The arrays are not validated.  The run fails, in the word
    extraction and so before anything is produced, when a time entry that
    the aligner reads is missing: the start time of a character that begins
    a word, the end time of a character that ends a word before whitespace,
    or any end time when the text ends in a word. *)
Theorem process_missing_time_entry {Num : Type} (ms_of : Num -> Z)
    (use_enhanced_detection : bool) (characters : list ascii)
    (start_times end_times : list (option Num)) :
  missing_time_entry characters start_times end_times = true ->
  extract_words_with_timing ms_of characters start_times end_times = None
  /\ process ms_of use_enhanced_detection characters start_times end_times = None.
Proof.
  intros Hmiss.
  pose proof (extract_words_with_timing_missing ms_of _ _ _ Hmiss) as Hex.
  split; [done|]. unfold process. by rewrite Hex.
Qed.

Lemma process_missing_time_entry_witness :
  extract_words_with_timing Dyadic.ms no_start_chars no_start_starts no_start_ends
  = None
  /\ process Dyadic.ms true no_start_chars no_start_starts no_start_ends = None.
Proof.
  apply (process_missing_time_entry Dyadic.ms true no_start_chars no_start_starts
           no_start_ends).
  reflexivity.
Defined.

(** ** StructureDetector: the quote loop never closes a quotation *)

Section Quotations.

Import EdgeCaseHandlers.

(** Every match of the quote pattern is a single straight quote. *)
Lemma scan_quote_group (s : string) (resume : nat) (before : option ascii)
    (at_ : nat) (m : Re.found) :
  m ∈ Re.scan Patterns.quote resume before at_ s ->
  exists a, Re.group m = String a EmptyString /\ Patterns.quote_class a = true.
Proof.
  revert resume before at_. induction s as [|a s' IH]; intros resume before at_.
  - cbn [Re.scan].
    destruct (at_ <? resume)%nat; cbn; intros Hm; by apply elem_of_nil in Hm.
  - cbn [Re.scan].
    set (here := if (at_ <? resume)%nat then None else _).
    assert (Hhere : here = None
                    \/ exists m0, here = Some m0
                                  /\ Re.group m0 = String a EmptyString
                                  /\ Patterns.quote_class a = true).
    { subst here. destruct (at_ <? resume)%nat; [by left|].
      unfold Re.match_at, Patterns.quote. cbn [Re.run Re.rest].
      destruct (Patterns.quote_class a) eqn:Hq; [|by left].
      right. eexists. split; [reflexivity|]. split; [|done].
      cbn. by replace (S at_ - at_)%nat with 1%nat by lia. }
    destruct Hhere as [->|(m0 & -> & Hgroup & Hq)].
    + apply IH.
    + intros Hm. apply elem_of_cons in Hm as [->|Hm]; [eauto|].
      by eapply IH.
Qed.

Lemma quote_class_opening (a : ascii) :
  Patterns.quote_class a = true -> Py.contains a opening_quotes = true.
Proof.
  unfold Patterns.quote_class. intros Hq.
  apply orb_prop in Hq as [Hq|Hq]; apply Ascii.eqb_eq in Hq; by subst.
Qed.

(** A straight quote is always taken for an opening quote: the loop only
    pushes, and [structures] stays as it is. *)
Lemma quote_step_pushes (text : string) quote_stack structures (m : Re.found) (a : ascii) :
  Re.group m = String a EmptyString -> Patterns.quote_class a = true ->
  quote_step text (quote_stack, structures) m
  = ((Re.group m, Re.m_start m) :: quote_stack, structures).
Proof.
  intros Hgroup Hq. unfold quote_step. rewrite Hgroup. cbn [first_is].
  by rewrite (quote_class_opening a Hq), orb_true_r.
Qed.

Lemma foldl_quote_step (text : string) (matches : list Re.found) quote_stack :
  (forall m, m ∈ matches ->
     exists a, Re.group m = String a EmptyString /\ Patterns.quote_class a = true) ->
  (foldl (quote_step text) (quote_stack, []) matches).2 = [].
Proof.
  revert quote_stack. induction matches as [|m rest IH]; intros quote_stack Hall;
    [done|].
  cbn [foldl].
  destruct (Hall m) as (a & Hgroup & Hq); [by left|].
  rewrite (quote_step_pushes text quote_stack [] m a Hgroup Hq).
  apply IH. intros m' Hm'. apply Hall. by right.
Qed.

(** For no text at all does [detect_quotations] record a quotation: what
    it returns are the dialog markers. *)
Lemma detect_quotations_only_dialog (text : string) (s : TextStructure.t) :
  s ∈ detect_quotations text -> TextStructure.type s = StructureType.DIALOG.
Proof.
  unfold detect_quotations.
  pose proof (foldl_quote_step text (Re.finditer Patterns.quote text) []) as Hfold.
  destruct (foldl _ _ _) as [quote_stack structures].
  cbn [snd] in Hfold. rewrite Hfold.
  - cbn [app]. intros Hs. apply list_elem_of_fmap in Hs as (m & -> & _). done.
  - intros m Hm. by eapply scan_quote_group.
Qed.

End Quotations.

(** ** The pipeline runs through when the time entries are there *)

Section Totality.

Context {Num : Type} (ms_of : Num -> Z).

Implicit Types (st : aligner_state (Num := Num)) (characters : list ascii).

Variables (start_times end_times : list (option Num)).

Lemma aligner_step_Some st (i : nat) (c : ascii) :
  (i < length start_times)%nat -> (i < length end_times)%nat ->
  Forall has_text (words_so_far st) ->
  exists st', aligner_step ms_of start_times end_times st i c = Some st'
              /\ Forall has_text (words_so_far st').
Proof.
  intros Hstart Hend Htext. unfold aligner_step.
  destruct (lookup_lt_is_Some_2 start_times i Hstart) as [t0 Ht0].
  destruct (lookup_lt_is_Some_2 end_times (if (0 <? i)%nat then i - 1 else i)%nat)
    as [t1 Ht1]; [case_match; lia|].
  rewrite Ht0, Ht1. cbn [mbind option_bind].
  destruct (negb (Py.isspace c)).
  - destruct (word_start_time st); eauto.
  - destruct (String.eqb_spec (current_word st) EmptyString) as [Hcur|Hcur];
      cbn [negb]; [eauto|].
    eexists. split; [reflexivity|].
    cbn [words_so_far]. apply Forall_app. split; [done|].
    by apply Forall_singleton.
Qed.

Lemma aligner_loop_Some st (i : nat) characters :
  (i + length characters <= length start_times)%nat ->
  (i + length characters <= length end_times)%nat ->
  Forall has_text (words_so_far st) ->
  exists st', aligner_loop ms_of start_times end_times st i characters = Some st'
              /\ Forall has_text (words_so_far st').
Proof.
  revert st i. induction characters as [|c rest IH]; intros st i Hstart Hend Htext.
  - by exists st.
  - cbn [aligner_loop length] in *.
    destruct (aligner_step_Some st i c) as (st1 & -> & Htext1); [lia|lia|done|].
    cbn [mbind option_bind]. apply IH; [lia|lia|done].
Qed.

(** The extraction succeeds when both time arrays are at least as long as
    the character array, and every word that it extracts has a text. *)
Lemma extract_words_with_timing_Some characters :
  (length characters <= length start_times)%nat ->
  (length characters <= length end_times)%nat ->
  exists words,
    extract_words_with_timing ms_of characters start_times end_times = Some words
    /\ Forall has_text words.
Proof.
  intros Hstart Hend. unfold extract_words_with_timing.
  destruct (aligner_loop_Some (mk_aligner_state [] EmptyString None 0 0) 0 characters)
    as (st' & Hloop & Htext); [done|done|by constructor|].
  rewrite Hloop. cbn [mbind option_bind].
  destruct (String.eqb_spec (current_word st') EmptyString) as [Hcur|Hcur];
    cbn [negb]; [eauto|].
  destruct (last end_times) as [t1|] eqn:Hlast.
  - cbn [mbind option_bind]. eexists. split; [reflexivity|].
    apply Forall_app. split; [done|]. by apply Forall_singleton.
  - apply last_None in Hlast. subst end_times.
    destruct characters; [|simpl in Hend; lia].
    cbn in Hloop. injection Hloop as <-. done.
Qed.

End Totality.

Lemma close_gaps_has_text (words : list Word.t) :
  Forall has_text words -> Forall has_text (close_gaps words).
Proof.
  induction words as [|c [|n rest] IH]; intros Htext; [done..|].
  apply Forall_cons in Htext as [Hc Hrest].
  change (Forall has_text (close_gap c n :: close_gaps (n :: rest))).
  constructor; [|by apply IH].
  unfold close_gap. by repeat case_match.
Qed.

Lemma simple_loop_total (text : string) (st : EdgeCaseHandlers.segmenter_state)
    (i : Z) (words : list Word.t) :
  Forall has_text words -> is_Some (simple_loop text st i words).
Proof.
  revert st i. induction words as [|word later IH]; intros st i Htext; [done|].
  apply Forall_cons in Htext as [_ Hlater].
  cbn [simple_loop].
  assert (Hstep : is_Some (simple_step text st i word later)).
  { unfold simple_step.
    destruct (existsb _ _); [|done].
    destruct (_ && _).
    - destruct later as [|next_word later'].
      + cbn [mbind option_bind]. by repeat case_match.
      + apply Forall_cons in Hlater as [Hnext _].
        unfold has_text in Hnext.
        destruct (Word.word next_word); [done|].
        cbn [mbind option_bind]. by repeat case_match.
    - cbn [mbind option_bind]. by repeat case_match. }
  destruct Hstep as [st1 ->]. cbn [mbind option_bind]. by apply IH.
Qed.

Lemma detect_sentences_total (use_enhanced_detection : bool)
    (words : list Word.t) (text : string) :
  Forall has_text words ->
  is_Some (detect_sentences use_enhanced_detection words text).
Proof.
  intros Htext. unfold detect_sentences.
  destruct use_enhanced_detection; [done|].
  unfold _simple_sentence_detection.
  destruct (simple_loop_total text (EdgeCaseHandlers.mk_segmenter_state [] [] [] 0 0)
              0 words Htext) as [st ->].
  cbn [mbind option_bind]. by repeat case_match.
Qed.

(** [process] returns a document whenever both time arrays are at least as
    long as the character array and the last end time is not [null]. *)
Lemma process_total {Num : Type} (ms_of : Num -> Z)
    (use_enhanced_detection : bool) (characters : list ascii)
    (start_times end_times : list (option Num)) :
  (length characters <= length start_times)%nat ->
  (length characters <= length end_times)%nat ->
  last end_times <> Some None ->
  is_Some (process ms_of use_enhanced_detection characters start_times end_times).
Proof.
  intros Hstart Hend Hlast. unfold process.
  destruct (extract_words_with_timing_Some ms_of start_times end_times characters)
    as (words0 & -> & Htext); [done..|].
  cbn [mbind option_bind].
  rewrite eliminate_timing_gaps_close_gaps.
  destruct (detect_sentences_total use_enhanced_detection (close_gaps words0)
              (reconstruct_text characters)) as [[words1 sentences1] ->];
    [by apply close_gaps_has_text|].
  cbn [mbind option_bind].
  destruct (ensure_continuous_sentence_coverage words1 sentences1).
  unfold total_duration.
  destruct (last end_times) as [[x|]|]; [|done|]; done.
Qed.

(** ** The extraction fails only for a missing time entry *)

Section Present.

Context {Num : Type} (ms_of : Num -> Z).

Implicit Types (st : aligner_state (Num := Num)) (characters : list ascii).

Variables (start_times end_times : list (option Num)).

(** No start time is [null]. *)
Hypothesis start_times_given : Forall is_Some start_times.




End Present.

(** * Further properties of the code *)

(** ** Strings *)

Section StringFacts.

Implicit Types (a b c s : string).

Lemma append_cons (x : ascii) a b : String x a +:+ b = String x (a +:+ b).
Proof. reflexivity. Qed.

Lemma append_empty_l a : EmptyString +:+ a = a.
Proof. reflexivity. Qed.

Lemma append_assoc a b c : (a +:+ b) +:+ c = a +:+ (b +:+ c).
Proof.
  induction a as [|x a IH]; [done|]. rewrite !append_cons. by rewrite IH.
Qed.

Lemma append_empty_r a : a +:+ EmptyString = a.
Proof. induction a as [|x a IH]; [done|]. rewrite append_cons. by rewrite IH. Qed.

Lemma length_append a b :
  String.length (a +:+ b) = (String.length a + String.length b)%nat.
Proof.
  induction a as [|x a IH]; [done|]. rewrite append_cons. simpl. by rewrite IH.
Qed.

Lemma len_append a b : Py.len (a +:+ b) = Py.len a + Py.len b.
Proof. unfold Py.len. rewrite length_append. lia. Qed.

Lemma len_nonneg a : 0 <= Py.len a.
Proof. unfold Py.len. lia. Qed.

Lemma len_pos a : a <> EmptyString -> 0 < Py.len a.
Proof. destruct a; [done|]. unfold Py.len. simpl. lia. Qed.

Lemma drop_append a b : Py.drop (String.length a) (a +:+ b) = b.
Proof.
  induction a as [|x a IH]; [by destruct b|]. rewrite append_cons. simpl. done.
Qed.

Lemma take_append a b : Py.take (String.length a) (a +:+ b) = a.
Proof.
  induction a as [|x a IH]; [by destruct b|].
  rewrite append_cons. simpl. by rewrite IH.
Qed.

Lemma take_all a (n : nat) : (String.length a <= n)%nat -> Py.take n a = a.
Proof.
  revert n. induction a as [|x a IH]; intros n Hn; [by destruct n|].
  destruct n as [|n]; [simpl in Hn; lia|].
  simpl. rewrite IH; [done|]. simpl in Hn. lia.
Qed.

Lemma string_of_list_ascii_app (l1 l2 : list ascii) :
  string_of_list_ascii (l1 ++ l2)
  = string_of_list_ascii l1 +:+ string_of_list_ascii l2.
Proof.
  induction l1 as [|x l1 IH]; [done|]. simpl. rewrite append_cons. by rewrite IH.
Qed.

Lemma clip_in_range (n i : Z) : 0 <= i <= n -> Py.clip n i = i.
Proof.
  intros Hi. unfold Py.clip.
  rewrite (proj2 (Z.ltb_ge i 0)) by lia. apply Z.min_l. lia.
Qed.

(** The part of a text between a prefix and a suffix is the slice at the
    length of the prefix. *)
Lemma slice_middle (pre w post : string) :
  Py.slice (pre +:+ w +:+ post) (Some (Py.len pre)) (Some (Py.len pre + Py.len w))
  = w.
Proof.
  unfold Py.slice. cbv zeta. cbn [default]. unfold id.
  rewrite !len_append.
  pose proof (len_nonneg pre). pose proof (len_nonneg w). pose proof (len_nonneg post).
  rewrite !clip_in_range by lia.
  replace (Py.len pre + Py.len w - Py.len pre) with (Py.len w) by lia.
  unfold Py.len. rewrite !Nat2Z.id.
  by rewrite drop_append, take_append.
Qed.

End StringFacts.

(** ** CharacterAligner: the words and the text *)

Section AlignerWords.

Context {Num : Type} (ms_of : Num -> Z).

Implicit Types (st : aligner_state (Num := Num)) (characters : list ascii).

Variables (start_times end_times : list (option Num)).

Lemma word_at_append (done more : string) (w : Word.t) :
  word_at done w -> word_at (done +:+ more) w.
Proof.
  intros (pre & post & -> & Hstart & Hend & Htext).
  exists pre, (post +:+ more). by rewrite !append_assoc.
Qed.

Lemma offsets_ordered_snoc (words : list Word.t) (w : Word.t) :
  offsets_ordered words ->
  Forall (fun a => Word.char_end a < Word.char_start w) words ->
  offsets_ordered (words ++ [w]).
Proof.
  intros Hord Hall k a b Ha Hb.
  destruct (decide (S k < length words)%nat) as [Hk|Hk].
  - rewrite lookup_app_l in Ha, Hb by lia. eauto.
  - assert (Hlen : S k = length words).
    { apply lookup_lt_Some in Hb. rewrite length_app in Hb. simpl in Hb. lia. }
    rewrite lookup_app_l in Ha by lia.
    rewrite lookup_app_r in Hb by lia.
    rewrite Hlen, Nat.sub_diag in Hb. injection Hb as <-.
    eapply Forall_lookup_1 in Hall; [|exact Ha]. done.
Qed.

Lemma aligner_inv_start : 
  aligner_inv ms_of start_times end_times EmptyString
    (mk_aligner_state [] EmptyString None 0 0) 0.
Proof. split; try done. by left. Qed.

(** No start time is [null]. *)
Hypothesis start_times_given : Forall is_Some start_times.

Lemma aligner_step_keeps_inv (done : string) st (i : nat) (c : ascii) st' :
  aligner_inv ms_of start_times end_times done st i ->
  aligner_step ms_of start_times end_times st i c = Some st' ->
  aligner_inv ms_of start_times end_times (done +:+ String c EmptyString) st' (S i).
Proof.
  intros [Hpos Hlen Hwords Hstarts Hends Hbefore Hord Hcur] Hstep.
  assert (Hlen' : Py.len (done +:+ String c EmptyString) = Z.of_nat (S i)).
  { rewrite len_append, Hlen. unfold Py.len. simpl. lia. }
  assert (Hwords' : Forall (word_at (done +:+ String c EmptyString)) (words_so_far st)).
  { eapply Forall_impl; [exact Hwords|]. intros w. apply word_at_append. }
  assert (Hbefore' : Forall (fun w => Word.char_end w < char_position st + 1)
                       (words_so_far st)).
  { eapply Forall_impl; [exact Hbefore|]. intros w. simpl. lia. }
  unfold aligner_step in Hstep.
  destruct (Py.isspace c); cbn [negb] in Hstep.
  - destruct (String.eqb_spec (current_word st) EmptyString) as [Hempty|Hfull];
      cbn [negb] in Hstep.
    + injection Hstep as <-.
      split; cbn [char_position words_so_far current_word word_start_time
                  word_start_char]; try done; [lia|].
      left. split; [done|]. by destruct Hcur as [[_ ?]|[? _]].
    + destruct (end_times !! _) as [t1|] eqn:Ht1; [|done].
      cbn [mbind option_bind] in Hstep. injection Hstep as <-.
      destruct Hcur as [[? _]|(_ & Htime & Hread & Hprev & pre & Hdone & Hchar)];
        [done|].
      assert (Hi : (0 < i)%nat).
      { pose proof (len_pos _ Hfull). pose proof (len_nonneg pre).
        rewrite Hdone, len_append in Hlen. lia. }
      rewrite (proj2 (Nat.ltb_lt 0 i)) in Ht1 by done.
      split; cbn [char_position words_so_far current_word word_start_time
                  word_start_char].
      * lia.
      * done.
      * apply Forall_app. split; [done|]. apply Forall_singleton.
        exists pre, (String c EmptyString). cbn [Word.word Word.char_start Word.char_end].
        rewrite Hdone, append_assoc. split; [done|]. split; [done|].
        split; [|done]. rewrite Hpos, <- Hlen, Hdone, len_append. lia.
      * apply Forall_app. split; [done|]. apply Forall_singleton.
        exists (word_start_time st). by cbn.
      * apply Forall_app. split; [done|]. apply Forall_singleton.
        exists t1. cbn [Word.char_end Word.end_ms]. split; [|done].
        rewrite Hpos. by replace (Z.to_nat (Z.of_nat i - 1)) with (i - 1)%nat by lia.
      * apply Forall_app. split; [done|]. apply Forall_singleton.
        cbn [Word.char_end]. lia.
      * apply offsets_ordered_snoc; [done|]. done.
      * by left.
  - destruct (word_start_time st) as [t0|] eqn:Ht0.
    + injection Hstep as <-.
      destruct Hcur as [[_ ?]|(Hfull & Htime & Hread & Hprev & pre & Hdone & Hchar)];
        [done|].
      split; cbn [char_position words_so_far current_word word_start_time
                  word_start_char]; try done; [lia|].
      right. split; [apply append_char_nonempty|]. split; [done|].
      split; [done|]. split; [done|].
      exists pre. split; [|done]. by rewrite Hdone, append_assoc.
    + destruct (start_times !! i) as [start_time|] eqn:Hread; [|done].
      cbn [mbind option_bind] in Hstep. injection Hstep as <-.
      destruct Hcur as [[Hempty _]|(_ & [? ?] & _)]; [|done].
      split; cbn [char_position words_so_far current_word word_start_time
                  word_start_char]; try done; [lia|].
      right. split; [apply append_char_nonempty|].
      split; [by eapply Forall_lookup_1 in start_times_given|].
      split; [by rewrite Hpos, Nat2Z.id|]. split; [done|].
      exists done. rewrite Hempty, append_empty_l. split; [done|]. lia.
Qed.

Lemma aligner_loop_keeps_inv (done : string) st (i : nat) characters st' :
  aligner_inv ms_of start_times end_times done st i ->
  aligner_loop ms_of start_times end_times st i characters = Some st' ->
  aligner_inv ms_of start_times end_times
    (done +:+ string_of_list_ascii characters) st' (i + length characters).
Proof.
  revert done st i. induction characters as [|c rest IH]; intros done st i Hinv Hloop.
  - injection Hloop as <-. simpl. by rewrite append_empty_r, Nat.add_0_r.
  - cbn [aligner_loop] in Hloop.
    destruct (aligner_step ms_of start_times end_times st i c) as [st1|] eqn:Hstep;
      [|done].
    cbn [mbind option_bind] in Hloop.
    pose proof (aligner_step_keeps_inv done st i c st1 Hinv Hstep) as Hinv1.
    specialize (IH _ _ _ Hinv1 Hloop).
    cbn [string_of_list_ascii length].
    replace (i + S (length rest))%nat with (S i + length rest)%nat by lia.
    replace (done +:+ String c (string_of_list_ascii rest))
      with ((done +:+ String c EmptyString) +:+ string_of_list_ascii rest)
      by (by rewrite append_assoc).
    done.
Qed.

(** What holds of the words that the extraction returns. *)
Lemma extract_words_with_timing_inv characters (words : list Word.t) :
  extract_words_with_timing ms_of characters start_times end_times = Some words ->
  Forall (word_at (reconstruct_text characters)) words
  /\ Forall (start_timed ms_of start_times) words
  /\ offsets_ordered words
  /\ (length end_times = length characters ->
      Forall (end_timed ms_of end_times) words).
Proof.
  unfold extract_words_with_timing, reconstruct_text. intros Hrun.
  destruct (aligner_loop _ _ _ _ _ _) as [st|] eqn:Hloop; [|done].
  cbn [mbind option_bind] in Hrun.
  pose proof (aligner_loop_keeps_inv _ _ _ _ _ aligner_inv_start Hloop) as Hinv.
  rewrite append_empty_l in Hinv. cbn [Nat.add] in Hinv.
  destruct Hinv as [Hpos Hlen Hwords Hstarts Hends Hbefore Hord Hcur].
  destruct (String.eqb_spec (current_word st) EmptyString) as [Hempty|Hfull];
    cbn [negb] in Hrun.
  { by injection Hrun as <-. }
  destruct (last end_times) as [t1|] eqn:Hlast; [|done].
  cbn [mbind option_bind] in Hrun. injection Hrun as <-.
  destruct Hcur as [[? _]|(_ & Htime & Hread & Hprev & pre & Hdone & Hchar)]; [done|].
  split; [|split; [|split]].
  - apply Forall_app. split; [done|]. apply Forall_singleton.
    exists pre, EmptyString. cbn [Word.word Word.char_start Word.char_end].
    rewrite append_empty_r. split; [done|]. split; [done|]. split; [|done].
    rewrite Hpos, <- Hlen, Hdone, len_append. lia.
  - apply Forall_app. split; [done|]. apply Forall_singleton.
    exists (word_start_time st). by cbn.
  - by apply offsets_ordered_snoc.
  - intros Hsame. apply Forall_app. split; [done|]. apply Forall_singleton.
    exists t1. cbn [Word.char_end Word.end_ms]. split; [|done].
    rewrite last_lookup in Hlast. rewrite Hsame in Hlast. rewrite Hpos.
    by replace (Z.to_nat (Z.of_nat (length characters) - 1))
      with (Nat.pred (length characters)) by lia.
Qed.

End AlignerWords.

(** ** CharacterAligner: the words are the tokens of the text *)

Section AlignerTokens.

Lemma split_space (c : ascii) (s : string) :
  Py.isspace c = true -> Py.split (String c s) = Py.split s.
Proof. intros Hc. cbn [Py.split]. by rewrite Hc. Qed.

Lemma no_space_append (a b : string) :
  no_space a -> no_space b -> no_space (a +:+ b).
Proof.
  unfold no_space. intros Ha Hb.
  induction a as [|x a IH]; [done|].
  rewrite append_cons. cbn [Py.forallb_str] in *.
  apply andb_prop in Ha as [-> Ha]. by rewrite IH.
Qed.

(** A run of characters without whitespace, in front of whitespace or of the
    end of the text, is one token. *)
Lemma split_token (cur s : string) :
  no_space cur -> cur <> EmptyString -> Py.at_token_end s = true ->
  Py.split (cur +:+ s) = cur :: Py.split s.
Proof.
  unfold no_space. intros Hcur Hfull Hend.
  induction cur as [|x cur IH]; [done|].
  cbn [Py.forallb_str] in Hcur. apply andb_prop in Hcur as [Hx Hcur].
  apply negb_true_iff in Hx.
  rewrite append_cons. cbn [Py.split]. rewrite Hx.
  destruct cur as [|y cur'].
  - rewrite append_empty_l, Hend. done.
  - specialize (IH Hcur ltac:(done)).
    cbn [Py.forallb_str] in Hcur. apply andb_prop in Hcur as [Hy _].
    apply negb_true_iff in Hy.
    rewrite IH. rewrite append_cons. cbn [Py.at_token_end]. by rewrite Hy.
Qed.

Context {Num : Type} (ms_of : Num -> Z).

Implicit Types (st : aligner_state (Num := Num)) (characters : list ascii).

Variables (start_times end_times : list (option Num)).

Lemma aligner_loop_tokens st (i : nat) characters st' :
  no_space (current_word st) ->
  aligner_loop ms_of start_times end_times st i characters = Some st' ->
  no_space (current_word st')
  /\ map Word.word (words_so_far st') ++ Py.split (current_word st')
     = map Word.word (words_so_far st)
       ++ Py.split (current_word st +:+ string_of_list_ascii characters).
Proof.
  revert st i. induction characters as [|c rest IH]; intros st i Hcur Hloop.
  - injection Hloop as <-. simpl. by rewrite append_empty_r.
  - cbn [aligner_loop] in Hloop.
    destruct (aligner_step ms_of start_times end_times st i c) as [st1|] eqn:Hstep;
      [|done].
    cbn [mbind option_bind] in Hloop.
    cbn [string_of_list_ascii].
    unfold aligner_step in Hstep.
    destruct (Py.isspace c) eqn:Hc; cbn [negb] in Hstep.
    + destruct (String.eqb_spec (current_word st) EmptyString) as [Hempty|Hfull];
        cbn [negb] in Hstep.
      * injection Hstep as <-.
        apply IH in Hloop as [Hcur' Htok]; [|done].
        split; [done|]. rewrite Htok. cbn [words_so_far current_word].
        rewrite Hempty, !append_empty_l. by rewrite split_space.
      * destruct (end_times !! _); [|done].
        cbn [mbind option_bind] in Hstep. injection Hstep as <-.
        apply IH in Hloop as [Hcur' Htok]; [|done].
        split; [done|]. rewrite Htok. cbn [words_so_far current_word].
        rewrite map_app, <- app_assoc. cbn [map Word.word app].
        rewrite append_empty_l.
        rewrite (split_token (current_word st)) by (done || by cbn; rewrite Hc).
        by rewrite split_space.
    + assert (Hnext : no_space (current_word st +:+ String c EmptyString)).
      { apply no_space_append; [done|]. unfold no_space. cbn. by rewrite Hc. }
      assert (Hboth : exists t0 p,
                 st1 = mk_aligner_state (words_so_far st)
                         (current_word st +:+ String c EmptyString) t0 p
                         (char_position st + 1)).
      { destruct (word_start_time st).
        - injection Hstep as <-. eauto.
        - destruct (start_times !! i); [|done]. injection Hstep as <-. eauto. }
      destruct Hboth as (t0 & p & ->).
      apply IH in Hloop as [Hcur' Htok]; [|done].
      split; [done|]. rewrite Htok. cbn [words_so_far current_word].
      by rewrite append_assoc.
Qed.

End AlignerTokens.

Lemma extract_words_with_timing_tokens {Num : Type} (ms_of : Num -> Z)
    (characters : list ascii) (start_times end_times : list (option Num))
    (words : list Word.t) :
  extract_words_with_timing ms_of characters start_times end_times = Some words ->
  map Word.word words = Py.split (reconstruct_text characters).
Proof.
  unfold extract_words_with_timing, reconstruct_text. intros Hrun.
  destruct (aligner_loop _ _ _ _ _ _) as [st|] eqn:Hloop; [|done].
  cbn [mbind option_bind] in Hrun.
  pose proof Hloop as Htok.
  apply aligner_loop_tokens in Htok as [Hcur Htok]; [|done].
  cbn [words_so_far current_word map app] in Htok.
  rewrite append_empty_l in Htok. rewrite <- Htok.
  destruct (String.eqb_spec (current_word st) EmptyString) as [Hempty|Hfull];
    cbn [negb] in Hrun.
  - injection Hrun as <-. rewrite Hempty. cbn. by rewrite app_nil_r.
  - destruct (last end_times); [|done].
    cbn [mbind option_bind] in Hrun. injection Hrun as <-.
    rewrite map_app. cbn [map Word.word]. f_equal.
    rewrite <- (append_empty_r (current_word st)) at 2.
    by rewrite split_token.
Qed.

(** X1. The texts of the extracted words are the whitespace-separated
    tokens of the reconstructed text, in their order: what
    [reconstruct_text().split()] gives. *)
Theorem extract_words_are_tokens {Num : Type} (ms_of : Num -> Z)
    (characters : list ascii) (start_times end_times : list (option Num))
    (words : list Word.t) :
  extract_words_with_timing ms_of characters start_times end_times = Some words ->
  map Word.word words = Py.split (reconstruct_text characters).
Proof.
  intros Hrun.
  by apply (extract_words_with_timing_tokens ms_of characters start_times end_times).
Qed.

Lemma extract_words_are_tokens_witness :
  map Word.word short_word_words
  = Py.split (reconstruct_text short_word_chars).
Proof.
  apply (extract_words_are_tokens Dyadic.ms short_word_chars short_word_starts
           short_word_ends short_word_words).
  vm_compute. reflexivity.
Defined.

(** X2. With no [null] among the start times, every extracted word is the
    slice of the reconstructed text at its offsets, [text[char_start:char_end]],
    and the offsets are in range with [char_start < char_end]. *)
Theorem extract_words_are_slices {Num : Type} (ms_of : Num -> Z)
    (characters : list ascii) (start_times end_times : list (option Num))
    (words : list Word.t) (w : Word.t) :
  Forall is_Some start_times ->
  extract_words_with_timing ms_of characters start_times end_times = Some words ->
  w ∈ words ->
  Py.slice (reconstruct_text characters)
    (Some (Word.char_start w)) (Some (Word.char_end w)) = Word.word w
  /\ 0 <= Word.char_start w < Word.char_end w
  /\ Word.char_end w <= Py.len (reconstruct_text characters).
Proof.
  intros Hgiven Hrun Hw.
  destruct (extract_words_with_timing_inv ms_of start_times end_times Hgiven
              characters words Hrun) as (Hat & _).
  rewrite Forall_forall in Hat.
  destruct (Hat w Hw) as (pre & post & Htext & Hstart & Hend & Hfull).
  rewrite Htext, Hstart, Hend, !len_append.
  pose proof (len_nonneg pre). pose proof (len_nonneg post).
  pose proof (len_pos _ Hfull).
  split; [apply slice_middle|]. lia.
Qed.

Lemma extract_words_are_slices_witness :
  Py.slice (reconstruct_text short_word_chars) (Some 4) (Some 5) = "A"
  /\ 0 <= 4 < 5
  /\ 5 <= Py.len (reconstruct_text short_word_chars).
Proof.
  apply (extract_words_are_slices Dyadic.ms short_word_chars short_word_starts
           short_word_ends short_word_words (Word.mk "A" 125 126 4 5 0)).
  - repeat constructor; by eexists.
  - vm_compute. reflexivity.
  - apply list_elem_of_In. right. left. reflexivity.
Defined.

(** X3. With no [null] among the start times, the extracted words follow
    one another in the text without overlap: each word ends before the next
    one starts, with at least one character between them. *)
Theorem extract_words_offsets_ordered {Num : Type} (ms_of : Num -> Z)
    (characters : list ascii) (start_times end_times : list (option Num))
    (words : list Word.t) :
  Forall is_Some start_times ->
  extract_words_with_timing ms_of characters start_times end_times = Some words ->
  offsets_ordered words.
Proof.
  intros Hgiven Hrun.
  by destruct (extract_words_with_timing_inv ms_of start_times end_times Hgiven
                 characters words Hrun) as (_ & _ & Hord & _).
Qed.

Lemma extract_words_offsets_ordered_witness : offsets_ordered short_word_words.
Proof.
  apply (extract_words_offsets_ordered Dyadic.ms short_word_chars short_word_starts
           short_word_ends short_word_words).
  - repeat constructor; by eexists.
  - vm_compute. reflexivity.
Defined.

(** X4. With no [null] among the start times and as many end times as
    characters, the [start_ms] of every extracted word is the converted start
    time of its first character and its [end_ms] the converted end time of
    its last character. *)
Theorem extract_words_times {Num : Type} (ms_of : Num -> Z)
    (characters : list ascii) (start_times end_times : list (option Num))
    (words : list Word.t) (w : Word.t) :
  Forall is_Some start_times ->
  length end_times = length characters ->
  extract_words_with_timing ms_of characters start_times end_times = Some words ->
  w ∈ words ->
  start_timed ms_of start_times w /\ end_timed ms_of end_times w.
Proof.
  intros Hgiven Hsame Hrun Hw.
  destruct (extract_words_with_timing_inv ms_of start_times end_times Hgiven
              characters words Hrun) as (_ & Hstarts & _ & Hends).
  specialize (Hends Hsame).
  rewrite Forall_forall in Hstarts, Hends. eauto.
Qed.

Lemma extract_words_times_witness :
  start_timed Dyadic.ms short_word_starts (Word.mk "A" 125 126 4 5 0)
  /\ end_timed Dyadic.ms short_word_ends (Word.mk "A" 125 126 4 5 0).
Proof.
  apply (extract_words_times Dyadic.ms short_word_chars short_word_starts
           short_word_ends short_word_words (Word.mk "A" 125 126 4 5 0)).
  - repeat constructor; by eexists.
  - reflexivity.
  - vm_compute. reflexivity.
  - apply list_elem_of_In. right. left. reflexivity.
Defined.

(** ** GapNormalizer: what a pass keeps and when it changes nothing *)

Lemma set_end_ms_same (w : Word.t) : Word.set_end_ms w (Word.end_ms w) = w.
Proof. by destruct w. Qed.

Lemma close_gap_same_but_end_ms (c n : Word.t) : same_but_end_ms c (close_gap c n).
Proof.
  unfold close_gap, same_but_end_ms.
  repeat case_match; eauto. exists (Word.end_ms c). by rewrite set_end_ms_same.
Qed.

Lemma close_gap_fixed (c n : Word.t) :
  close_gap c n = c <-> Word.end_ms c = Word.start_ms n.
Proof.
  pose proof (close_gap_end_ms c n) as Hend. cbn zeta in Hend. split.
  - intros Heq. rewrite Heq in Hend.
    destruct (500 <=? _) eqn:Hbig in Hend; [|done].
    apply Z.leb_le in Hbig.
    assert (0 < (Word.start_ms n - Word.end_ms c) / 2)
      by (apply Z.div_str_pos; lia).
    lia.
  - intros Heq. unfold close_gap. rewrite Heq, Z.sub_diag. done.
Qed.

Lemma words_contiguous_cons (c n : Word.t) (rest : list Word.t) :
  words_contiguous (c :: n :: rest)
  <-> Word.end_ms c = Word.start_ms n /\ words_contiguous (n :: rest).
Proof.
  split.
  - intros Hall. split; [by apply (Hall 0%nat)|].
    intros i a b Ha Hb. by apply (Hall (S i)).
  - intros [Hhead Hrest] [|i] a b Ha Hb.
    + simpl in Ha, Hb. by simplify_eq.
    + by apply (Hrest i).
Qed.

Lemma close_gaps_fixed (words : list Word.t) :
  close_gaps words = words <-> words_contiguous words.
Proof.
  induction words as [|c [|n rest] IH].
  - split; [|done]. by intros _ [|?] ? ? ?.
  - split; [|done]. by intros _ [|[|?]] ? ? ?.
  - change (close_gaps (c :: n :: rest))
      with (close_gap c n :: close_gaps (n :: rest)).
    split.
    + intros [= Hc Hrest]. apply words_contiguous_cons.
      split; [by apply close_gap_fixed|by apply IH].
    + intros [Hc Hrest]%words_contiguous_cons.
      f_equal; [by apply close_gap_fixed|by apply IH].
Qed.

(** X5. [eliminate_timing_gaps] neither drops nor reorders a word and
    rewrites nothing but [end_ms]: the output has the length of the input,
    every word of it is the input word with at most its [end_ms] changed,
    and the last word is left as it is. *)
Theorem eliminate_timing_gaps_keeps (words : list Word.t) :
  Forall2 same_but_end_ms words (eliminate_timing_gaps words)
  /\ last (eliminate_timing_gaps words) = last words.
Proof.
  rewrite eliminate_timing_gaps_close_gaps.
  induction words as [|c [|n rest] IH].
  - by split.
  - split; [|done]. constructor; [|done].
    exists (Word.end_ms c). by rewrite set_end_ms_same.
  - change (close_gaps (c :: n :: rest))
      with (close_gap c n :: close_gaps (n :: rest)).
    remember (close_gaps (n :: rest)) as tl eqn:Htl.
    destruct IH as [IHall IHlast]. split.
    + constructor; [apply close_gap_same_but_end_ms|done].
    + destruct tl as [|n' tl].
      { apply Forall2_length in IHall. done. }
      by rewrite !last_cons_cons.
Qed.

(** X6. The fixed points of [eliminate_timing_gaps].  A pass returns the
    list as it was exactly when the list has neither gap nor overlap, that
    is, when every word already ends where the next one starts; and a second
    pass returns what the first pass returned exactly when no adjacent gap
    of the input is 500 ms or more. *)
Theorem eliminate_timing_gaps_fixed_points (words : list Word.t) :
  (eliminate_timing_gaps words = words <-> words_contiguous words)
  /\ (eliminate_timing_gaps (eliminate_timing_gaps words)
      = eliminate_timing_gaps words
      <-> gaps_below 500 words = true).
Proof.
  rewrite !eliminate_timing_gaps_close_gaps. split.
  - apply close_gaps_fixed.
  - split.
    + intros Hsame. destruct (gaps_below 500 words) eqn:Hgaps; [done|].
      by apply close_gaps_changes_above in Hgaps.
    + apply close_gaps_idempotent_below.
Qed.

(** ** CoverageAssigner: what it keeps, and running it twice *)

Section CoverageKeeps.

Implicit Types (sentences : list Sentence.t) (words : list Word.t).

Lemma set_sentence_index_same (w : Word.t) :
  Word.set_sentence_index w (Word.sentence_index w) = w.
Proof. by destruct w. Qed.

Lemma same_but_sentence_index_refl (w : Word.t) : same_but_sentence_index w w.
Proof. exists (Word.sentence_index w). by rewrite set_sentence_index_same. Qed.

Lemma assign_word_same_but (sentences : list Sentence.t) (w : Word.t) :
  same_but_sentence_index w (fix_index (assign_word sentences w)).
Proof.
  assert (Hset : exists k, assign_word sentences w = Word.set_sentence_index w k).
  { unfold assign_word.
    repeat case_match; try (eexists; reflexivity);
      exists (Word.sentence_index w); by rewrite set_sentence_index_same. }
  destruct Hset as [k ->]. unfold fix_index, same_but_sentence_index.
  cbn [Word.set_sentence_index Word.sentence_index]. case_match; eauto.
Qed.

Lemma same_but_span_refl (s : Sentence.t) : same_but_span s s.
Proof. exists (Sentence.start_ms s), (Sentence.end_ms s). by destruct s. Qed.

Lemma extend_from_same_but_span (s0 s : Sentence.t) (rest : list Sentence.t) :
  same_but_span s0 s ->
  Forall2 same_but_span (s0 :: rest) (extend_from s rest).
Proof.
  revert s0 s. induction rest as [|n rest' IH]; intros s0 s (a & b & ->).
  - repeat constructor. by exists a, b.
  - cbn [extend_from]. constructor.
    + eexists a, _. reflexivity.
    + apply IH. eexists _, (Sentence.end_ms n). by destruct n.
Qed.

Lemma extend_from_last_end (s : Sentence.t) (rest : list Sentence.t) :
  Sentence.end_ms <$> last (extend_from s rest)
  = Sentence.end_ms <$> last (s :: rest).
Proof.
  revert s. induction rest as [|n rest' IH]; intros s; [done|].
  cbn [extend_from].
  destruct (extend_from_head_start
              (Sentence.set_start_ms n
                 ((Sentence.end_ms s + Sentence.start_ms n) / 2)) rest')
    as (h & tl & Heq & _).
  specialize (IH (Sentence.set_start_ms n
                    ((Sentence.end_ms s + Sentence.start_ms n) / 2))).
  rewrite Heq in IH |- *. rewrite !last_cons_cons. rewrite IH.
  destruct rest'; done.
Qed.

Lemma extend_from_contiguous_id (s : Sentence.t) (rest : list Sentence.t) :
  sentences_contiguous (s :: rest) -> extend_from s rest = s :: rest.
Proof.
  revert s. induction rest as [|n rest' IH]; intros s Hcont; [done|].
  cbn [extend_from].
  assert (Hmeet : Sentence.end_ms s = Sentence.start_ms n)
    by (by apply (Hcont 0%nat)).
  assert (Hmid : (Sentence.end_ms s + Sentence.start_ms n) / 2 = Sentence.end_ms s).
  { rewrite <- Hmeet.
    replace (Sentence.end_ms s + Sentence.end_ms s) with (Sentence.end_ms s * 2)
      by lia.
    by apply Z.div_mul. }
  rewrite Hmid. f_equal; [by destruct s|].
  replace (Sentence.set_start_ms n (Sentence.end_ms s)) with n
    by (rewrite Hmeet; by destruct n).
  apply IH. intros k a b Ha Hb. by apply (Hcont (S k)).
Qed.

Lemma extend_sentences_idempotent sentences :
  extend_sentences (extend_sentences sentences) = extend_sentences sentences.
Proof.
  destruct sentences as [|s rest]; [done|].
  pose proof (extend_sentences_contiguous (s :: rest)) as Hcont.
  destruct (extend_sentences (s :: rest)) as [|s' rest'] eqn:Heq; [done|].
  rewrite extend_sentences_extend_from.
  by apply extend_from_contiguous_id.
Qed.

Lemma assign_word_set_sentence_index sentences (w : Word.t) (k : Z) :
  sentences <> [] ->
  assign_word sentences (Word.set_sentence_index w k) = assign_word sentences w.
Proof.
  intros Hne. unfold assign_word.
  cbn [Word.set_sentence_index Word.start_ms Word.end_ms].
  destruct sentences as [|s0 rest]; [done|].
  destruct (last (s0 :: rest)) eqn:Hlast; [|by apply last_None in Hlast].
  cbn [head]. by repeat case_match.
Qed.

Lemma assign_word_twice sentences (w : Word.t) :
  sentences <> [] ->
  fix_index (assign_word sentences (fix_index (assign_word sentences w)))
  = fix_index (assign_word sentences w).
Proof.
  intros Hne.
  destruct (assign_word_same_but sentences w) as [k Hk].
  by rewrite Hk, assign_word_set_sentence_index, <- Hk.
Qed.

End CoverageKeeps.

Lemma ensure_continuous_sentence_coverage_same_but
    (words : list Word.t) (sentences : list Sentence.t) :
  Forall2 same_but_sentence_index words
    (ensure_continuous_sentence_coverage words sentences).1
  /\ Forall2 same_but_span sentences
       (ensure_continuous_sentence_coverage words sentences).2.
Proof.
  assert (Hrefl_w : forall l : list Word.t, Forall2 same_but_sentence_index l l).
  { intros l. induction l; constructor; [apply same_but_sentence_index_refl|done]. }
  assert (Hrefl_s : forall l : list Sentence.t, Forall2 same_but_span l l).
  { intros l. induction l; constructor; [apply same_but_span_refl|done]. }
  destruct words as [|w ws].
  { rewrite ensure_continuous_sentence_coverage_empty by auto. by cbn. }
  destruct sentences as [|s ss].
  { rewrite ensure_continuous_sentence_coverage_empty by auto. by cbn. }
  rewrite ensure_continuous_sentence_coverage_nonempty by done.
  cbn [fst snd]. rewrite extend_sentences_extend_from.
  split.
  - rewrite map_map. generalize (w :: ws). intros l.
    induction l; constructor; [apply assign_word_same_but|done].
  - apply extend_from_same_but_span, same_but_span_refl.
Qed.

(** X7. [ensure_continuous_sentence_coverage] keeps every word and every
    sentence in place: a word changes in its [sentence_index] at most, a
    sentence in its [start_ms] and [end_ms] at most, and the start of the
    first sentence and the end of the last sentence stay as they were. *)
Theorem ensure_continuous_sentence_coverage_keeps
    (words : list Word.t) (sentences : list Sentence.t) :
  let out := ensure_continuous_sentence_coverage words sentences in
  Forall2 same_but_sentence_index words out.1
  /\ Forall2 same_but_span sentences out.2
  /\ Sentence.start_ms <$> head out.2 = Sentence.start_ms <$> head sentences
  /\ Sentence.end_ms <$> last out.2 = Sentence.end_ms <$> last sentences.
Proof.
  cbn zeta.
  destruct (ensure_continuous_sentence_coverage_same_but words sentences)
    as [Hwords Hsentences].
  split; [done|]. split; [done|].
  destruct words as [|w ws].
  { rewrite ensure_continuous_sentence_coverage_empty by auto. by cbn. }
  destruct sentences as [|s ss].
  { rewrite ensure_continuous_sentence_coverage_empty by auto. by cbn. }
  rewrite ensure_continuous_sentence_coverage_nonempty by done.
  cbn [fst snd]. rewrite extend_sentences_extend_from.
  split.
  - destruct (extend_from_head_start s ss) as (h & tl & -> & Hstart).
    cbn. by rewrite Hstart.
  - apply extend_from_last_end.
Qed.

(** X8. [ensure_continuous_sentence_coverage] is idempotent: run on its own
    output, it returns that output. *)
Theorem ensure_continuous_sentence_coverage_idempotent
    (words : list Word.t) (sentences : list Sentence.t) :
  let out := ensure_continuous_sentence_coverage words sentences in
  ensure_continuous_sentence_coverage out.1 out.2 = out.
Proof.
  cbn zeta.
  destruct words as [|w ws].
  { rewrite (ensure_continuous_sentence_coverage_empty [] sentences) by auto.
    cbn [fst snd]. by rewrite ensure_continuous_sentence_coverage_empty by auto. }
  destruct sentences as [|s ss].
  { rewrite (ensure_continuous_sentence_coverage_empty (w :: ws) []) by auto.
    cbn [fst snd]. by rewrite ensure_continuous_sentence_coverage_empty by auto. }
  rewrite (ensure_continuous_sentence_coverage_nonempty (w :: ws) (s :: ss)) by done.
  cbn [fst snd].
  assert (Hne : extend_sentences (s :: ss) <> []).
  { intros Hnil. apply (f_equal length) in Hnil.
    by rewrite length_extend_sentences in Hnil. }
  rewrite ensure_continuous_sentence_coverage_nonempty by done.
  rewrite extend_sentences_idempotent. f_equal.
  rewrite !map_map. apply map_ext. intros w0. cbn.
  by apply assign_word_twice.
Qed.

(** ** LookupTableBuilder: size, soundness and coverage of the table *)

Section LookupTableFacts.

Implicit Types (words : list Word.t) (times : list Z).

Lemma range_length (stop step : Z) :
  0 < step -> 0 <= stop ->
  Z.of_nat (length (Py.range 0 stop step)) = (stop + step - 1) / step.
Proof.
  intros Hstep Hstop. unfold Py.range.
  rewrite (proj2 (Z.ltb_lt 0 step)) by done.
  rewrite length_map, length_seq, Z.sub_0_r.
  rewrite Z2Nat.id; [done|]. apply Z.div_pos; lia.
Qed.

Lemma range_lookup (stop step : Z) (k : nat) (t : Z) :
  Py.range 0 stop step !! k = Some t -> t = Z.of_nat k * step.
Proof.
  unfold Py.range. rewrite list_lookup_fmap.
  intros Ht. destruct (seq 0 _ !! k) as [j|] eqn:Hj; [|done].
  apply lookup_seq in Hj as [-> _]. simpl in Ht. injection Ht as <-. lia.
Qed.

Lemma range_increasing (stop step : Z) :
  0 < step -> increasing_from 0 (Py.range 0 stop step).
Proof.
  intros Hstep. unfold Py.range.
  rewrite (proj2 (Z.ltb_lt 0 step)) by done.
  generalize (Z.to_nat ((stop - 0 + step - 1) / step)). intros n.
  assert (Hgen : forall (a : nat) (bound : Z),
             bound <= Z.of_nat a * step ->
             increasing_from bound
               (map (fun k => 0 + Z.of_nat k * step) (seq a n))).
  { induction n as [|n IH]; intros a bound Hbound; [done|].
    cbn [seq map increasing_from]. split; [lia|]. apply IH. nia. }
  apply Hgen. lia.
Qed.

(** The entry of index [k] is the one that [lookup_step] gives for the time
    of index [k], from some position of the cursor. *)
Lemma lookup_entries_lookup words word_idx times (k : nat) (entry : Z * Z) :
  lookup_entries words word_idx times !! k = Some entry ->
  exists word_idx' t,
    times !! k = Some t /\ entry = (lookup_step words word_idx' t).2.
Proof.
  revert word_idx k. induction times as [|t times IH]; intros word_idx k; [done|].
  cbn [lookup_entries].
  destruct (lookup_step words word_idx t) as [word_idx1 entry1] eqn:Hstep.
  destruct k as [|k].
  - intros [= <-]. exists word_idx, t. by rewrite Hstep.
  - intros Hk. apply IH in Hk as (word_idx' & t' & Ht' & ->). eauto.
Qed.

Lemma active_word_sound words word_idx (t : Z) :
  active_word words word_idx t = -1
  \/ exists w, 0 <= active_word words word_idx t
               /\ words !! Z.to_nat (active_word words word_idx t) = Some w
               /\ is_active w t = true.
Proof.
  unfold active_word.
  destruct (words !! word_idx) as [w|] eqn:Hw; [|by left].
  destruct (is_active w t) eqn:Hact.
  { right. exists w. by rewrite Nat2Z.id; split; [lia|]. }
  destruct word_idx as [|prev_idx]; [by left|].
  destruct (words !! prev_idx) as [p|] eqn:Hp; [|by left].
  destruct (is_active p t) eqn:Hpact; [|by left].
  right. exists p. by rewrite Nat2Z.id; split; [lia|].
Qed.

Lemma lookup_step_sound words word_idx (t : Z) :
  entry_sound words t (lookup_step words word_idx t).2.
Proof.
  unfold lookup_step, entry_sound. cbn [snd fst].
  set (idx := advance_cursor _ _ _).
  destruct (active_word_sound words idx t) as [Hnone|(w & Hpos & Hw & Hact)].
  - left. by rewrite Hnone.
  - right. exists w. rewrite (proj2 (Z.leb_le _ _)) by done.
    by rewrite Hw.
Qed.

Lemma advance_cursor_spec (rest : list Word.t) (t : Z) (word_idx : nat) :
  exists n : nat,
    advance_cursor rest t word_idx = (word_idx + n)%nat
    /\ (n <= length rest)%nat
    /\ (forall (j : nat) w, (j < n)%nat -> rest !! j = Some w -> Word.start_ms w <= t)
    /\ (forall w, rest !! n = Some w -> t < Word.start_ms w).
Proof.
  revert word_idx. induction rest as [|next rest' IH]; intros word_idx.
  - exists 0%nat. cbn. split; [lia|]. split; [lia|]. split; [lia|done].
  - cbn [advance_cursor].
    destruct (Word.start_ms next <=? t) eqn:Hnext.
    + destruct (IH (S word_idx)) as (n & -> & Hn & Hbefore & Hafter).
      exists (S n). split; [lia|]. split; [simpl; lia|]. split.
      * intros [|j] w Hj Hw; [simpl in Hw; simplify_eq; lia|].
        apply (Hbefore j); [lia|done].
      * done.
    + exists 0%nat. split; [lia|]. split; [lia|]. split; [lia|].
      intros w [= <-]. lia.
Qed.

(** From a cursor as in [cursor_started], the step for a later time inside
    the span of contiguous words finds the word that is active, and leaves
    the cursor as in [cursor_started] again. *)
Lemma lookup_step_started words word_idx (bound t : Z) :
  (word_idx < length words)%nat ->
  cursor_started words word_idx bound -> bound <= t ->
  ((lookup_step words word_idx t).1 < length words)%nat
  /\ cursor_started words (lookup_step words word_idx t).1 t.
Proof.
  intros Hidx Hcur Ht. unfold lookup_step. cbn [fst].
  destruct (advance_cursor_spec (drop (S word_idx) words) t word_idx)
    as (n & -> & Hn & Hbefore & _).
  rewrite length_drop in Hn. split; [lia|].
  destruct n as [|n].
  - rewrite Nat.add_0_r. destruct Hcur as [->|(w & Hw & Hstart)]; [by left|].
    right. exists w. split; [done|lia].
  - right.
    destruct (lookup_lt_is_Some_2 words (word_idx + S n)) as [w Hw]; [lia|].
    exists w. split; [done|].
    apply (Hbefore n w); [lia|].
    rewrite lookup_drop. by replace (S word_idx + n)%nat with (word_idx + S n)%nat by lia.
Qed.

Lemma lookup_step_covered words word_idx (bound t : Z) (first_word last_word : Word.t) :
  words_contiguous words ->
  head words = Some first_word -> last words = Some last_word ->
  (word_idx < length words)%nat ->
  cursor_started words word_idx bound -> bound <= t ->
  Word.start_ms first_word <= t <= Word.end_ms last_word ->
  0 <= (lookup_step words word_idx t).2.1.
Proof.
  intros Hcont Hfirst Hlast Hidx Hcur Hbound Ht.
  unfold lookup_step. cbn [fst snd].
  destruct (advance_cursor_spec (drop (S word_idx) words) t word_idx)
    as (n & Hadv & Hn & Hbefore & Hafter).
  rewrite length_drop in Hn.
  pose proof (lookup_step_started words word_idx bound t Hidx Hcur Hbound)
    as [Hidx' Hcur'].
  unfold lookup_step in Hidx', Hcur'. cbn [fst] in Hidx', Hcur'.
  rewrite Hadv in *.
  remember (word_idx + n)%nat as idx eqn:Hidx_eq.
  destruct (lookup_lt_is_Some_2 words idx) as [w Hw]; [lia|].
  assert (Hstart : Word.start_ms w <= t).
  { destruct Hcur' as [Hzero|(w' & Hw' & Hstart)].
    - rewrite Hzero, <- head_lookup in Hw.
      assert (w = first_word) as -> by congruence. lia.
    - by assert (w = w') as -> by congruence. }
  assert (Hend : t <= Word.end_ms w).
  { destruct (words !! S idx) as [next|] eqn:Hnext.
    - rewrite (Hcont idx w next Hw Hnext).
      assert (t < Word.start_ms next); [|lia].
      apply Hafter. rewrite lookup_drop.
      by replace (S word_idx + n)%nat with (S idx) by lia.
    - apply lookup_ge_None in Hnext.
      rewrite last_lookup in Hlast.
      replace (Nat.pred (length words)) with idx in Hlast by lia.
      assert (w = last_word) by congruence. subst. lia. }
  unfold active_word. rewrite Hw. unfold is_active.
  rewrite (proj2 (Z.leb_le _ _) Hstart), (proj2 (Z.leb_le _ _) Hend).
  cbn [andb]. lia.
Qed.

Lemma lookup_entries_covered words word_idx (bound : Z) times
    (first_word last_word : Word.t) (k : nat) (t : Z) :
  words_contiguous words ->
  head words = Some first_word -> last words = Some last_word ->
  (word_idx < length words)%nat ->
  cursor_started words word_idx bound ->
  increasing_from bound times ->
  times !! k = Some t ->
  Word.start_ms first_word <= t <= Word.end_ms last_word ->
  exists entry, lookup_entries words word_idx times !! k = Some entry /\ 0 <= entry.1.
Proof.
  intros Hcont Hfirst Hlast.
  revert word_idx bound k.
  induction times as [|t0 times IH];
    intros word_idx bound k Hidx Hcur Hsorted Hk Ht; [done|].
  destruct Hsorted as [Hbound0 Hsorted].
  cbn [lookup_entries].
  pose proof (lookup_step_started words word_idx bound t0 Hidx Hcur Hbound0)
    as [Hidx' Hcur'].
  pose proof (lookup_step_covered words word_idx bound t0 first_word last_word
                Hcont Hfirst Hlast Hidx Hcur Hbound0) as Hcov.
  destruct (lookup_step words word_idx t0) as [word_idx1 entry1].
  cbn [fst snd] in *.
  destruct k as [|k].
  - simpl in Hk. injection Hk as ->. exists entry1. split; [done|]. by apply Hcov.
  - simpl in Hk. by apply (IH word_idx1 t0 k).
Qed.

End LookupTableFacts.

(** X9. For a positive interval and a total duration that is not negative,
    the table holds [total_duration_ms // interval_ms + 1] entries, the
    number that the source computes as [num_entries]. *)
Theorem lookup_table_length (words : list Word.t) (sentences : list Sentence.t)
    (total_duration_ms interval_ms : Z) :
  0 < interval_ms -> 0 <= total_duration_ms ->
  exists table,
    generate_lookup_table words sentences total_duration_ms interval_ms = Some table
    /\ Z.of_nat (length (LookupTable.lookup table))
       = total_duration_ms / interval_ms + 1.
Proof.
  intros Hstep Htotal. unfold generate_lookup_table.
  rewrite (proj2 (Z.eqb_neq _ _)) by lia.
  eexists. split; [reflexivity|]. cbn [LookupTable.lookup].
  rewrite length_lookup_entries, range_length by lia.
  replace (total_duration_ms + 1 + interval_ms - 1)
    with (total_duration_ms + 1 * interval_ms) by lia.
  rewrite Z.div_add by lia. done.
Qed.

Lemma lookup_table_length_witness :
  exists table,
    generate_lookup_table contiguous_words [] 900 10 = Some table
    /\ Z.of_nat (length (LookupTable.lookup table)) = 900 / 10 + 1.
Proof. apply (lookup_table_length contiguous_words [] 900 10); lia. Defined.

(** X10. Every entry of the table is sound for its time: the entry of index
    [k] is the sentinel pair [[-1, -1]], or it holds the index of a word
    whose span, ends included, holds the time [k * interval_ms], together
    with the [sentence_index] of that word. *)
Theorem lookup_table_sound (words : list Word.t) (sentences : list Sentence.t)
    (total_duration_ms interval_ms : Z) (table : LookupTable.t)
    (k : nat) (entry : Z * Z) :
  generate_lookup_table words sentences total_duration_ms interval_ms = Some table ->
  LookupTable.lookup table !! k = Some entry ->
  entry_sound words (Z.of_nat k * interval_ms) entry.
Proof.
  unfold generate_lookup_table. intros Hrun Hk.
  destruct (interval_ms =? 0); [done|]. injection Hrun as <-.
  cbn [LookupTable.lookup] in Hk.
  apply lookup_entries_lookup in Hk as (word_idx & t & Ht & ->).
  apply range_lookup in Ht as ->. apply lookup_step_sound.
Qed.

Lemma lookup_table_sound_witness :
  entry_sound contiguous_words (Z.of_nat 45 * 10) (1, 0).
Proof.
  apply (lookup_table_sound contiguous_words [] 900 10
           (LookupTable.mk "1.0" 10 900
              (lookup_entries contiguous_words 0 (Py.range 0 901 10)))).
  - reflexivity.
  - vm_compute. reflexivity.
Defined.

(** X11. When the words are contiguous (each ends where the next starts),
    the table has no hole inside their span: for a positive interval, every
    sample time from the start of the first word to the end of the last one
    has an entry with a word index that is not the sentinel. *)
Theorem lookup_table_covers (words : list Word.t) (sentences : list Sentence.t)
    (total_duration_ms interval_ms : Z) (table : LookupTable.t)
    (first_word last_word : Word.t) (k : nat) :
  0 < interval_ms ->
  generate_lookup_table words sentences total_duration_ms interval_ms = Some table ->
  words_contiguous words ->
  head words = Some first_word -> last words = Some last_word ->
  Z.of_nat k * interval_ms <= total_duration_ms ->
  Word.start_ms first_word <= Z.of_nat k * interval_ms <= Word.end_ms last_word ->
  exists entry, LookupTable.lookup table !! k = Some entry /\ 0 <= entry.1.
Proof.
  intros Hstep Hrun Hcont Hfirst Hlast Htotal Ht.
  unfold generate_lookup_table in Hrun.
  rewrite (proj2 (Z.eqb_neq _ _)) in Hrun by lia. injection Hrun as <-.
  cbn [LookupTable.lookup].
  assert (Htime : Py.range 0 (total_duration_ms + 1) interval_ms !! k
                  = Some (Z.of_nat k * interval_ms)).
  { destruct (lookup_lt_is_Some_2 (Py.range 0 (total_duration_ms + 1) interval_ms) k)
      as [t Hk].
    - apply Nat2Z.inj_lt. rewrite range_length by lia.
      assert (Z.of_nat k + 1
              <= (total_duration_ms + 1 + interval_ms - 1) / interval_ms)
        by (apply Z.div_le_lower_bound; [lia|nia]).
      lia.
    - by rewrite (range_lookup _ _ _ _ Hk) in Hk. }
  assert (Hwords : (0 < length words)%nat) by (destruct words; [done|simpl; lia]).
  apply (lookup_entries_covered words 0 0 _ first_word last_word k
           (Z.of_nat k * interval_ms)); try done.
  - by left.
  - by apply range_increasing.
Qed.

Lemma lookup_table_covers_witness :
  exists entry,
    lookup_entries contiguous_words 0 (Py.range 0 901 10) !! 45%nat = Some entry
    /\ 0 <= entry.1.
Proof.
  apply (lookup_table_covers contiguous_words [] 900 10
           (LookupTable.mk "1.0" 10 900
              (lookup_entries contiguous_words 0 (Py.range 0 901 10)))
           (Word.mk "one" 0 300 0 3 0) (Word.mk "three" 600 900 8 13 1) 45).
  - lia.
  - reflexivity.
  - intros [|[|[|i]]] a b Ha Hb; simpl in Ha, Hb; simplify_eq; reflexivity.
  - reflexivity.
  - reflexivity.
  - vm_compute. discriminate.
  - vm_compute. split; discriminate.
Defined.

(** ** SentenceSegmenter and the simple detector: the sentences agree with
    the words *)

Section SegmenterFacts.

Variables (text : string) (structure_map : gmap Z TextStructure.t).

Lemma break_decision_reason word next_word r :
  EdgeCaseHandlers.break_decision text structure_map word next_word = (true, r) ->
  exists x, r = Some x /\ x <> "end_of_text".
Proof.
  unfold EdgeCaseHandlers.break_decision. cbv zeta.
  intros H.
  repeat case_match; simplify_eq; eexists; (split; [reflexivity|]);
    rewrite ?append_cons; discriminate.
Qed.

Lemma char_chain_snoc lo sentences mid s :
  char_chain lo sentences mid -> Sentence.char_start s = mid ->
  char_chain lo (sentences ++ [s]) (Sentence.char_end s + 1).
Proof.
  revert lo. induction sentences as [|s0 rest IH]; intros lo; cbn.
  - intros -> ->. done.
  - intros [-> Hrest] Hs. split; [done|]. by apply IH.
Qed.

Lemma char_chain_head lo sentences next s :
  char_chain lo sentences next -> head sentences = Some s ->
  Sentence.char_start s = lo.
Proof. destruct sentences; cbn; [done|]. intros [? _] ?. by simplify_eq. Qed.

Lemma char_chain_adjacent lo sentences next (k : nat) s s' :
  char_chain lo sentences next ->
  sentences !! k = Some s -> sentences !! S k = Some s' ->
  Sentence.char_start s' = Sentence.char_end s + 1.
Proof.
  revert lo k. induction sentences as [|s0 rest IH]; intros lo k; [done|].
  cbn [char_chain]. intros [_ Hrest] Hk HSk.
  destruct k as [|k].
  - cbn in Hk. simplify_eq. cbn in HSk.
    eapply char_chain_head; [done|]. by destruct rest; simplify_eq.
  - by eapply IH.
Qed.

Lemma sentence_ok_app pre done (k : nat) s x y :
  length pre = length done ->
  sentence_ok pre done k s -> sentence_ok (pre ++ x) (done ++ y) k s.
Proof.
  intros Hlen (Hk & Hord & Hlt & (a & b & Ha & Hb & Hs & He) & Hw).
  split; [done|]. split; [done|].
  split; [rewrite length_app; lia|].
  split.
  - exists a, b. rewrite !lookup_app_l by lia. done.
  - intros j w' Hin Hj. apply (Hw j w' Hin).
    rewrite lookup_app_l in Hj; [done|]. unfold in_range in Hin. lia.
Qed.

Lemma ends_at_word_app pre s x :
  ends_at_word pre s -> ends_at_word (pre ++ x) s.
Proof.
  intros (b & Hb & Hc). exists b. split; [|done].
  by apply lookup_app_l_Some.
Qed.

(** The buffered words are the end of the rewritten words. *)
Lemma buffered_lookup (done buffered : list Word.t) (n j : nat) w :
  buffered = drop n done -> (n <= j)%nat -> done !! j = Some w ->
  w ∈ buffered.
Proof.
  intros -> Hn Hj. apply list_elem_of_lookup. exists (j - n)%nat.
  rewrite lookup_drop. by replace (n + (j - n))%nat with j by lia.
Qed.

Lemma buffered_first (done : list Word.t) (n : nat) first_word buffered :
  first_word :: buffered = drop n done -> done !! n = Some first_word.
Proof.
  intros Hbuf. pose proof (lookup_drop done n 0) as Hd.
  rewrite <- Hbuf, Nat.add_0_r in Hd. by rewrite <- Hd.
Qed.

Lemma segmenter_full_inv_start :
  segmenter_full_inv [] (EdgeCaseHandlers.mk_segmenter_state [] [] [] 0 0).
Proof. constructor; cbn; try done; constructor. Qed.

Lemma step_outcome_full_inv pre st word (should_break : bool)
    (break_reason : option string) :
  segmenter_full_inv pre st ->
  segmenter_full_inv (pre ++ [word])
    (step_outcome text st (Z.of_nat (length pre))
       (Word.set_sentence_index word (EdgeCaseHandlers.sentence_index st))
       should_break break_reason).
Proof.
  intros [Hdone Hcount Hbuf Hblen Hbidx Htiles Hsent Hends Hchars].
  pose proof (Forall2_length _ _ _ Hdone) as Hlen.
  unfold step_outcome. cbv zeta.
  set (word' := Word.set_sentence_index word (EdgeCaseHandlers.sentence_index st)).
  assert (Hdone' : Forall2 same_but_sentence_index (pre ++ [word])
                     (EdgeCaseHandlers.words_done st ++ [word'])).
  { apply Forall2_app; [done|]. constructor; [|constructor]. by eexists. }
  assert (Hbuf' :
    EdgeCaseHandlers.current_sentence_words st ++ [word']
    = drop (length pre - length (EdgeCaseHandlers.current_sentence_words st))
        (EdgeCaseHandlers.words_done st ++ [word'])).
  { rewrite drop_app_le by lia. by rewrite <- Hbuf. }
  assert (Hbidx' :
    Forall (fun w => Word.sentence_index w = EdgeCaseHandlers.sentence_index st)
      (EdgeCaseHandlers.current_sentence_words st ++ [word'])).
  { apply Forall_app. split; [done|]. by constructor. }
  assert (Hl : length (EdgeCaseHandlers.current_sentence_words st ++ [word'])
               = S (length (EdgeCaseHandlers.current_sentence_words st)))
    by (rewrite length_app; cbn; lia).
  assert (Hends' : Forall (ends_at_word (pre ++ [word]))
                     (EdgeCaseHandlers.sentences st)).
  { eapply Forall_impl; [exact Hends|]. intros s. apply ends_at_word_app. }
  assert (Hword : (pre ++ [word]) !! Z.to_nat (Z.of_nat (length pre)) = Some word)
    by (rewrite Nat2Z.id; by apply list_lookup_middle).
  destruct should_break;
    [destruct (EdgeCaseHandlers.current_sentence_words st ++ [word'])
       as [|first_word buffered] eqn:Hcur'|].
  - by destruct (EdgeCaseHandlers.current_sentence_words st).
  - cbn [length] in Hl.
    constructor; cbn.
    + done.
    + rewrite length_app, Hcount. cbn. lia.
    + symmetry. apply drop_ge. rewrite !length_app. cbn. lia.
    + lia.
    + constructor.
    + rewrite length_app. cbn.
      eapply tiles_snoc_to; [exact Htiles|..]; cbn; lia.
    + intros k s Hk. apply lookup_app_Some in Hk as [Hk|[Hge Hk]].
      { by apply sentence_ok_app; [|apply Hsent]. }
      apply list_lookup_singleton_Some in Hk as [Hz <-].
      assert (k = length (EdgeCaseHandlers.sentences st)) as -> by lia.
      unfold sentence_ok. cbn.
      split; [lia|]. split; [lia|].
      split; [rewrite length_app; cbn; lia|].
      split.
      * pose proof (buffered_first _ _ _ _ Hbuf') as Hfirst.
        destruct (Forall2_lookup_r _ _ _ _ _ Hdone' Hfirst)
          as (a & Ha & k' & Hk').
        exists a, word.
        replace (Z.to_nat (Z.of_nat (length pre)
                           - Z.of_nat (S (length buffered)) + 1))
          with (length pre
                - length (EdgeCaseHandlers.current_sentence_words st))%nat
          by lia.
        split; [done|]. split; [done|].
        split; [by rewrite Hk'|done].
      * intros j w' [Hlo Hhi] Hj. cbn in Hlo, Hhi.
        assert (Hin : w' ∈ first_word :: buffered).
        { eapply buffered_lookup; [exact Hbuf'| |exact Hj]. lia. }
        rewrite Forall_forall in Hbidx'. rewrite (Hbidx' _ Hin). lia.
    + apply Forall_app. split; [done|]. constructor; [|constructor].
      by exists word.
    + by eapply (char_chain_snoc _ _ _ (Sentence.mk _ _ _ _ _ _ _ _ _)).
  - constructor; cbn.
    + done.
    + done.
    + rewrite Hl, length_app. cbn.
      replace (length pre + 1 - S (length (EdgeCaseHandlers.current_sentence_words st)))%nat
        with (length pre - length (EdgeCaseHandlers.current_sentence_words st))%nat
        by lia.
      done.
    + rewrite Hl, length_app. cbn. lia.
    + done.
    + rewrite Hl, length_app. cbn.
      replace (Z.of_nat (length pre + 1)
               - Z.of_nat (S (length (EdgeCaseHandlers.current_sentence_words st))))
        with (Z.of_nat (length pre)
              - Z.of_nat (length (EdgeCaseHandlers.current_sentence_words st)))
        by lia.
      done.
    + intros k s Hk. by apply sentence_ok_app; [|apply Hsent].
    + done.
    + done.
Qed.

(** The sentence made of the words left in the buffer. *)
Lemma flush_sentence_ok words st first_word buffered last_word
    (break_reason : option string) :
  segmenter_full_inv words st ->
  EdgeCaseHandlers.current_sentence_words st = first_word :: buffered ->
  last (first_word :: buffered) = Some last_word ->
  let s := flush_sentence text st (length words) first_word last_word break_reason in
  sentence_ok words (EdgeCaseHandlers.words_done st)
    (length (EdgeCaseHandlers.sentences st)) s
  /\ tiles 0 (EdgeCaseHandlers.sentences st ++ [s]) (Z.of_nat (length words))
  /\ char_chain 0 (EdgeCaseHandlers.sentences st ++ [s]) (Py.len text - 1 + 1).
Proof.
  intros [Hdone Hcount Hbuf Hblen Hbidx Htiles Hsent Hends Hchars] Hcur Hlast s.
  subst s. unfold flush_sentence.
  pose proof (Forall2_length _ _ _ Hdone) as Hlen.
  rewrite Hcur in *. cbn [length] in *.
  pose proof (buffered_first _ _ _ _ Hbuf) as Hfirst.
  assert (Hlastw :
    EdgeCaseHandlers.words_done st !! (length words - 1)%nat = Some last_word).
  { rewrite last_lookup in Hlast. cbn [length Nat.pred] in Hlast.
    rewrite Hbuf, lookup_drop in Hlast.
    by replace (length words - S (length buffered) + length buffered)%nat
      with (length words - 1)%nat in Hlast by lia. }
  split; [|split].
  - unfold sentence_ok. cbn.
    split; [lia|]. split; [lia|]. split; [lia|].
    split.
    + destruct (Forall2_lookup_r _ _ _ _ _ Hdone Hfirst) as (a & Ha & ka & Hka).
      destruct (Forall2_lookup_r _ _ _ _ _ Hdone Hlastw) as (b & Hb & kb & Hkb).
      exists a, b.
      replace (Z.to_nat (Z.of_nat (length words) - Z.of_nat (S (length buffered))))
        with (length words - S (length buffered))%nat by lia.
      replace (Z.to_nat (Z.of_nat (length words) - 1))
        with (length words - 1)%nat by lia.
      split; [done|]. split; [done|].
      split; [by rewrite Hka|by rewrite Hkb].
    + intros j w' [Hlo Hhi] Hj. cbn in Hlo, Hhi.
      assert (Hin : w' ∈ first_word :: buffered).
      { eapply buffered_lookup; [exact Hbuf| |exact Hj]. lia. }
      rewrite Forall_forall in Hbidx. rewrite (Hbidx _ Hin). lia.
  - eapply tiles_snoc_to; [exact Htiles|..]; cbn; lia.
  - by eapply (char_chain_snoc _ _ _ (Sentence.mk _ _ _ _ _ _ _ _ _)).
Qed.

Lemma segmenter_step_outcome st i word later :
  EdgeCaseHandlers.segmenter_step text structure_map st i word later
  = step_outcome text st i
      (Word.set_sentence_index word (EdgeCaseHandlers.sentence_index st))
      (EdgeCaseHandlers.break_decision text structure_map
         (Word.set_sentence_index word (EdgeCaseHandlers.sentence_index st))
         (Word.word <$> head later)).1
      (EdgeCaseHandlers.break_decision text structure_map
         (Word.set_sentence_index word (EdgeCaseHandlers.sentence_index st))
         (Word.word <$> head later)).2.
Proof.
  unfold EdgeCaseHandlers.segmenter_step, step_outcome. cbv zeta.
  by destruct (EdgeCaseHandlers.break_decision _ _ _ _).
Qed.

Lemma segmenter_loop_full_inv words pre st :
  segmenter_full_inv pre st ->
  segmenter_full_inv (pre ++ words)
    (EdgeCaseHandlers.segmenter_loop text structure_map st
       (Z.of_nat (length pre)) words).
Proof.
  revert pre st. induction words as [|word later IH]; intros pre st Hinv.
  - by rewrite app_nil_r.
  - cbn [EdgeCaseHandlers.segmenter_loop].
    rewrite cons_middle, app_assoc.
    replace (Z.of_nat (length pre) + 1) with (Z.of_nat (length (pre ++ [word])))
      by (rewrite length_app; cbn; lia).
    apply IH. rewrite segmenter_step_outcome. by apply step_outcome_full_inv.
Qed.

Lemma segmenter_step_reasons st i word later :
  Forall made_by_break (EdgeCaseHandlers.sentences st) ->
  Forall made_by_break
    (EdgeCaseHandlers.sentences
       (EdgeCaseHandlers.segmenter_step text structure_map st i word later)).
Proof.
  intros Hreas. unfold EdgeCaseHandlers.segmenter_step. cbv zeta.
  destruct (EdgeCaseHandlers.break_decision _ _ _ _) as [b r] eqn:Hbd.
  destruct b; [|done].
  destruct (EdgeCaseHandlers.current_sentence_words st ++ [_]); [done|].
  cbn. apply Forall_app. split; [done|]. constructor; [|constructor].
  unfold made_by_break. cbn. by eapply break_decision_reason.
Qed.

Lemma segmenter_loop_reasons words st i :
  Forall made_by_break (EdgeCaseHandlers.sentences st) ->
  Forall made_by_break
    (EdgeCaseHandlers.sentences
       (EdgeCaseHandlers.segmenter_loop text structure_map st i words)).
Proof.
  revert st i. induction words as [|word later IH]; intros st i Hreas; [done|].
  cbn [EdgeCaseHandlers.segmenter_loop]. apply IH.
  by apply segmenter_step_reasons.
Qed.

Lemma simple_step_outcome st i word later st' :
  simple_step text st i word later = Some st' ->
  exists should_break,
    st' = step_outcome text st i
            (Word.set_sentence_index word (EdgeCaseHandlers.sentence_index st))
            should_break None.
Proof.
  unfold simple_step, step_outcome. cbv zeta. intros Hstep.
  destruct (existsb _ _).
  - destruct (if _ && _ then _ else _) as [special|]; [|done].
    cbn [mbind option_bind] in Hstep.
    destruct special; cbn [negb] in Hstep.
    + exists false. by injection Hstep as <-.
    + exists true.
      destruct (EdgeCaseHandlers.current_sentence_words st ++ [_]);
        by injection Hstep as <-.
  - exists false. by injection Hstep as <-.
Qed.

Lemma simple_loop_full_inv words pre st st' :
  segmenter_full_inv pre st ->
  simple_loop text st (Z.of_nat (length pre)) words = Some st' ->
  segmenter_full_inv (pre ++ words) st'.
Proof.
  revert pre st. induction words as [|word later IH]; intros pre st Hinv Hloop.
  - injection Hloop as <-. by rewrite app_nil_r.
  - cbn [simple_loop] in Hloop.
    destruct (simple_step text st _ word later) as [st1|] eqn:Hstep; [|done].
    cbn [mbind option_bind] in Hloop.
    apply simple_step_outcome in Hstep as [b ->].
    rewrite cons_middle, app_assoc.
    replace (Z.of_nat (length pre) + 1) with (Z.of_nat (length (pre ++ [word])))
      in Hloop by (rewrite length_app; cbn; lia).
    eapply IH; [|exact Hloop]. by apply step_outcome_full_inv.
Qed.

End SegmenterFacts.

Lemma apply_enhanced_sentence_detection_full
    (words : list Word.t) (text : string) (structures : list TextStructure.t) :
  let out := EdgeCaseHandlers.apply_enhanced_sentence_detection words text structures in
  Forall2 same_but_sentence_index words out.1
  /\ (forall (k : nat) s, out.2 !! k = Some s -> sentence_ok words out.1 k s)
  /\ (forall (k : nat) s,
        out.2 !! k = Some s ->
        is_Some (Sentence.break_reason s)
        /\ (Sentence.break_reason s = Some "end_of_text" ->
            S k = length out.2 /\ Sentence.char_end s = Py.len text - 1)
        /\ (Sentence.break_reason s <> Some "end_of_text" -> ends_at_word words s))
  /\ (exists next, char_chain 0 out.2 next).
Proof.
  intros out. subst out.
  unfold EdgeCaseHandlers.apply_enhanced_sentence_detection. cbv zeta.
  pose proof (segmenter_loop_full_inv text
                (EdgeCaseHandlers.structure_map_of structures) words [] _
                segmenter_full_inv_start) as Hinv.
  pose proof (segmenter_loop_reasons text
                (EdgeCaseHandlers.structure_map_of structures) words
                (EdgeCaseHandlers.mk_segmenter_state [] [] [] 0 0) 0
                ltac:(constructor)) as Hreas.
  cbn [length app] in Hinv. change (Z.of_nat 0) with 0 in Hinv.
  set (st := EdgeCaseHandlers.segmenter_loop _ _ _ _ _) in *.
  assert (Hold : forall (k : nat) s,
            EdgeCaseHandlers.sentences st !! k = Some s ->
            is_Some (Sentence.break_reason s)
            /\ Sentence.break_reason s <> Some "end_of_text"
            /\ ends_at_word words s).
  { intros k s Hk.
    destruct (Forall_lookup_1 _ _ _ _ Hreas Hk) as (r & Hr & Hne).
    rewrite Hr. split; [by eexists|]. split; [congruence|].
    destruct Hinv as [_ _ _ _ _ _ _ Hends _].
    by eapply Forall_lookup_1 in Hends. }
  destruct (EdgeCaseHandlers.current_sentence_words st)
    as [|first_word buffered] eqn:Hcur.
  - cbn [fst snd]. destruct Hinv as [Hdone _ _ _ _ _ Hsent _ Hchars].
    split; [done|]. split; [done|]. split; [|by eexists].
    intros k s Hk. destruct (Hold k s Hk) as (Hsome & Hne & Hend). by repeat split.
  - destruct (last (first_word :: buffered)) as [last_word|] eqn:Hlast;
      [|by rewrite last_cons in Hlast; destruct (last buffered)].
    cbn [fst snd].
    destruct (flush_sentence_ok text words st first_word buffered last_word
                (Some "end_of_text") Hinv Hcur Hlast) as (Hok & _ & Hchain).
    unfold flush_sentence in Hok, Hchain. rewrite Hcur in Hok, Hchain.
    destruct Hinv as [Hdone _ _ _ _ _ Hsent _ _].
    split; [done|]. split; [|split].
    + intros k s Hk. apply lookup_app_Some in Hk as [Hk|[Hge Hk]]; [by apply Hsent|].
      apply list_lookup_singleton_Some in Hk as [Hz <-].
      by assert (k = length (EdgeCaseHandlers.sentences st)) as -> by lia.
    + intros k s Hk. apply lookup_app_Some in Hk as [Hk|[Hge Hk]].
      { destruct (Hold k s Hk) as (Hsome & Hne & Hend). by repeat split. }
      apply list_lookup_singleton_Some in Hk as [Hz <-]. cbn.
      split; [by eexists|]. split; [|done].
      intros _. rewrite length_app. cbn. lia.
    + by eexists.
Qed.

Lemma _simple_sentence_detection_full
    (words : list Word.t) (text : string) words' sentences :
  _simple_sentence_detection words text = Some (words', sentences) ->
  Forall2 same_but_sentence_index words words'
  /\ (forall (k : nat) s, sentences !! k = Some s -> sentence_ok words words' k s)
  /\ tiles 0 sentences (Z.of_nat (length words))
  /\ (exists next, char_chain 0 sentences next).
Proof.
  unfold _simple_sentence_detection. intros Hrun.
  destruct (simple_loop _ _ _ _) as [st|] eqn:Hloop; [|done].
  cbn [mbind option_bind] in Hrun.
  pose proof (simple_loop_full_inv text words [] _ st segmenter_full_inv_start Hloop)
    as Hinv.
  cbn [app] in Hinv.
  destruct (EdgeCaseHandlers.current_sentence_words st)
    as [|first_word buffered] eqn:Hcur.
  - injection Hrun as <- <-.
    destruct Hinv as [Hdone _ _ _ _ Htiles Hsent _ Hchars].
    rewrite Hcur in Htiles. cbn [length] in Htiles. rewrite Z.sub_0_r in Htiles.
    split; [done|]. split; [done|]. split; [done|by eexists].
  - destruct (last (first_word :: buffered)) as [last_word|] eqn:Hlast;
      [|by rewrite last_cons in Hlast; destruct (last buffered)].
    injection Hrun as <- <-.
    destruct (flush_sentence_ok text words st first_word buffered last_word
                None Hinv Hcur Hlast) as (Hok & Htiles & Hchain).
    unfold flush_sentence in Hok, Htiles, Hchain.
    rewrite Hcur in Hok, Htiles, Hchain.
    destruct Hinv as [Hdone _ _ _ _ _ Hsent _ _].
    split; [done|]. split; [|split; [done|by eexists]].
    intros k s Hk. apply lookup_app_Some in Hk as [Hk|[Hge Hk]]; [by apply Hsent|].
    apply list_lookup_singleton_Some in Hk as [Hz <-].
    by assert (k = length (EdgeCaseHandlers.sentences st)) as -> by lia.
Qed.

(** X12. The sentence at position [k] of the segmenter's output carries
    [sentence_index = k], and so does every returned word whose index lies in
    the word range of that sentence. *)
Theorem segmenter_sentence_indices
    (words : list Word.t) (text : string) (structures : list TextStructure.t)
    (k : nat) (s : Sentence.t) :
  (EdgeCaseHandlers.apply_enhanced_sentence_detection words text structures).2 !! k
  = Some s ->
  Sentence.sentence_index s = Z.of_nat k
  /\ (forall (j : nat) w',
        in_range s (Z.of_nat j) ->
        (EdgeCaseHandlers.apply_enhanced_sentence_detection words text structures).1
          !! j = Some w' ->
        Word.sentence_index w' = Z.of_nat k).
Proof.
  intros Hk.
  destruct (apply_enhanced_sentence_detection_full words text structures)
    as (_ & Hok & _).
  destruct (Hok k s Hk) as (Hidx & _ & _ & _ & Hw). by split.
Qed.

Lemma segmenter_sentence_indices_witness :
  Sentence.sentence_index list_sentence_1 = Z.of_nat 1
  /\ (forall (j : nat) w',
        in_range list_sentence_1 (Z.of_nat j) ->
        (EdgeCaseHandlers.apply_enhanced_sentence_detection
           (list_words 0 100 100 200 200 300 300 400) list_text
           (EdgeCaseHandlers.detect_structures list_text)).1 !! j = Some w' ->
        Word.sentence_index w' = Z.of_nat 1).
Proof.
  apply (segmenter_sentence_indices (list_words 0 100 100 200 200 300 300 400)
           list_text (EdgeCaseHandlers.detect_structures list_text) 1
           list_sentence_1).
  vm_compute. reflexivity.
Defined.

(** X13. Every sentence of the segmenter spans its words in time: its
    [start_ms] is the [start_ms] of the input word at [wordStartIndex] and
    its [end_ms] is the [end_ms] of the input word at [wordEndIndex]. *)
Theorem segmenter_sentence_times
    (words : list Word.t) (text : string) (structures : list TextStructure.t)
    (k : nat) (s : Sentence.t) :
  (EdgeCaseHandlers.apply_enhanced_sentence_detection words text structures).2 !! k
  = Some s ->
  exists first_word last_word,
    words !! Z.to_nat (Sentence.wordStartIndex s) = Some first_word
    /\ words !! Z.to_nat (Sentence.wordEndIndex s) = Some last_word
    /\ Sentence.start_ms s = Word.start_ms first_word
    /\ Sentence.end_ms s = Word.end_ms last_word.
Proof.
  intros Hk.
  destruct (apply_enhanced_sentence_detection_full words text structures)
    as (_ & Hok & _).
  destruct (Hok k s Hk) as (_ & _ & _ & (a & b & Ha & Hb & Hs & He) & _).
  by exists a, b.
Qed.

Lemma segmenter_sentence_times_witness :
  exists first_word last_word,
    list_words 0 100 100 200 200 300 300 400
      !! Z.to_nat (Sentence.wordStartIndex list_sentence_1) = Some first_word
    /\ list_words 0 100 100 200 200 300 300 400
         !! Z.to_nat (Sentence.wordEndIndex list_sentence_1) = Some last_word
    /\ Sentence.start_ms list_sentence_1 = Word.start_ms first_word
    /\ Sentence.end_ms list_sentence_1 = Word.end_ms last_word.
Proof.
  apply (segmenter_sentence_times (list_words 0 100 100 200 200 300 300 400)
           list_text (EdgeCaseHandlers.detect_structures list_text) 1
           list_sentence_1).
  vm_compute. reflexivity.
Defined.

(** X14. The segmenter returns the words it was given, in their order and
    none dropped, with nothing but their [sentence_index] rewritten. *)
Theorem segmenter_keeps_words
    (words : list Word.t) (text : string) (structures : list TextStructure.t) :
  Forall2 same_but_sentence_index words
    (EdgeCaseHandlers.apply_enhanced_sentence_detection words text structures).1.
Proof.
  by destruct (apply_enhanced_sentence_detection_full words text structures)
    as (Hdone & _).
Qed.

(** X15. Every sentence of the segmenter has a [break_reason], and only the
    last sentence can have the reason [end_of_text]; the [char_end] of that
    sentence is [len(text) - 1]. *)
Theorem segmenter_break_reasons
    (words : list Word.t) (text : string) (structures : list TextStructure.t)
    (k : nat) (s : Sentence.t) :
  (EdgeCaseHandlers.apply_enhanced_sentence_detection words text structures).2 !! k
  = Some s ->
  is_Some (Sentence.break_reason s)
  /\ (Sentence.break_reason s = Some "end_of_text" ->
      S k
      = length
          (EdgeCaseHandlers.apply_enhanced_sentence_detection words text structures).2
      /\ Sentence.char_end s = Py.len text - 1).
Proof.
  intros Hk.
  destruct (apply_enhanced_sentence_detection_full words text structures)
    as (_ & _ & Hreason & _).
  destruct (Hreason k s Hk) as (Hsome & Hlast & _). by split.
Qed.

Lemma segmenter_break_reasons_witness :
  is_Some (Sentence.break_reason list_sentence_1)
  /\ (Sentence.break_reason list_sentence_1 = Some "end_of_text" ->
      2%nat
      = length
          (EdgeCaseHandlers.apply_enhanced_sentence_detection
             (list_words 0 100 100 200 200 300 300 400) list_text
             (EdgeCaseHandlers.detect_structures list_text)).2
      /\ Sentence.char_end list_sentence_1 = Py.len list_text - 1).
Proof.
  apply (segmenter_break_reasons (list_words 0 100 100 200 200 300 300 400)
           list_text (EdgeCaseHandlers.detect_structures list_text) 1
           list_sentence_1).
  vm_compute. reflexivity.
Defined.

(** X16. The character ranges of the segmenter's sentences are chained: the
    first sentence starts at offset 0 and each further sentence starts one
    character after the [char_end] of the one before.  The [char_end] of a
    sentence closed by a break is the [char_end] of its last word, which is
    the offset after the last character of that word. *)
Theorem segmenter_char_offsets
    (words : list Word.t) (text : string) (structures : list TextStructure.t) :
  let sentences :=
    (EdgeCaseHandlers.apply_enhanced_sentence_detection words text structures).2 in
  (forall s, head sentences = Some s -> Sentence.char_start s = 0)
  /\ (forall (k : nat) s s',
        sentences !! k = Some s -> sentences !! S k = Some s' ->
        Sentence.char_start s' = Sentence.char_end s + 1)
  /\ (forall (k : nat) s,
        sentences !! k = Some s ->
        Sentence.break_reason s <> Some "end_of_text" ->
        exists last_word,
          words !! Z.to_nat (Sentence.wordEndIndex s) = Some last_word
          /\ Sentence.char_end s = Word.char_end last_word).
Proof.
  intros sentences. subst sentences.
  destruct (apply_enhanced_sentence_detection_full words text structures)
    as (_ & _ & Hreason & next & Hchain).
  split; [intros s Hs; by eapply char_chain_head|].
  split; [intros k s s' Hk HSk; by eapply char_chain_adjacent|].
  intros k s Hk Hne.
  destruct (Hreason k s Hk) as (_ & _ & Hend). by apply Hend.
Qed.

(** ** The simple detector *)

(** X17. When [_simple_sentence_detection] returns, its sentences partition
    the words into contiguous ranges, as those of the segmenter do: the first
    range starts at 0, the last ends at [len(words) - 1], each range starts
    right after the one before, and every word index lies in the range of
    exactly one sentence. *)
Theorem simple_sentences_partition_words
    (words : list Word.t) (text : string)
    (words' : list Word.t) (sentences : list Sentence.t) :
  _simple_sentence_detection words text = Some (words', sentences) ->
  words <> [] ->
  (exists first_sentence,
      head sentences = Some first_sentence
      /\ Sentence.wordStartIndex first_sentence = 0)
  /\ (exists last_sentence,
        last sentences = Some last_sentence
        /\ Sentence.wordEndIndex last_sentence = Z.of_nat (length words) - 1)
  /\ (forall (k : nat) s s',
        sentences !! k = Some s -> sentences !! S k = Some s' ->
        Sentence.wordStartIndex s' = Sentence.wordEndIndex s + 1)
  /\ (forall i, 0 <= i < Z.of_nat (length words) ->
        exists! k : nat, exists s, sentences !! k = Some s /\ in_range s i).
Proof.
  intros Hrun Hwords.
  destruct (_simple_sentence_detection_full words text words' sentences Hrun)
    as (_ & _ & Htiles & _).
  assert (0 < Z.of_nat (length words)) by (destruct words; [done|simpl; lia]).
  split; [by eapply tiles_head|].
  split; [by eapply tiles_last|].
  split.
  - intros k s s'. by eapply tiles_adjacent.
  - intros i Hi. by eapply tiles_cover.
Qed.

Lemma simple_sentences_partition_words_witness :
  (exists first_sentence,
      head [short_word_sentence_0; short_word_sentence_1] = Some first_sentence
      /\ Sentence.wordStartIndex first_sentence = 0)
  /\ (exists last_sentence,
        last [short_word_sentence_0; short_word_sentence_1] = Some last_sentence
        /\ Sentence.wordEndIndex last_sentence
           = Z.of_nat (length short_word_words) - 1)
  /\ (forall (k : nat) s s',
        [short_word_sentence_0; short_word_sentence_1] !! k = Some s ->
        [short_word_sentence_0; short_word_sentence_1] !! S k = Some s' ->
        Sentence.wordStartIndex s' = Sentence.wordEndIndex s + 1)
  /\ (forall i, 0 <= i < Z.of_nat (length short_word_words) ->
        exists! k : nat, exists s,
          [short_word_sentence_0; short_word_sentence_1] !! k = Some s
          /\ in_range s i).
Proof.
  apply (simple_sentences_partition_words short_word_words "Hi. A"
           short_word_words_indexed
           [short_word_sentence_0; short_word_sentence_1]).
  - vm_compute. reflexivity.
  - discriminate.
Defined.

(** X18. When [_simple_sentence_detection] returns, it returns the words it
    was given with nothing but their [sentence_index] rewritten, and every
    sentence agrees with them: the sentence at position [k] carries
    [sentence_index = k], as does every word of its range, and its times are
    the start of its first word and the end of its last word. *)
Theorem simple_sentences_agree
    (words : list Word.t) (text : string)
    (words' : list Word.t) (sentences : list Sentence.t) :
  _simple_sentence_detection words text = Some (words', sentences) ->
  Forall2 same_but_sentence_index words words'
  /\ (forall (k : nat) s,
        sentences !! k = Some s -> sentence_ok words words' k s).
Proof.
  intros Hrun.
  destruct (_simple_sentence_detection_full words text words' sentences Hrun)
    as (Hwords & Hok & _).
  by split.
Qed.

Lemma simple_sentences_agree_witness :
  Forall2 same_but_sentence_index short_word_words short_word_words_indexed
  /\ (forall (k : nat) s,
        [short_word_sentence_0; short_word_sentence_1] !! k = Some s ->
        sentence_ok short_word_words short_word_words_indexed k s).
Proof.
  apply (simple_sentences_agree short_word_words "Hi. A").
  vm_compute. reflexivity.
Defined.

(** ** The pipeline: when [process] raises *)

Section ProcessFails.

Context {Num : Type} (ms_of : Num -> Z).

Implicit Types (st : aligner_state (Num := Num)) (characters : list ascii).

Variables (start_times end_times : list (option Num)).




End ProcessFails.



(** ** StructureDetector: the patterns anchored with [^] *)

Section AnchoredPatterns.

Implicit Types (r : Re.t) (s : string).

Lemma match_at_anchored r (c : Re.cursor) :
  (Re.pos c <> 0)%nat -> Re.match_at (Re.Cat Re.Bol r) c = None.
Proof.
  intros Hpos. unfold Re.match_at. cbn [Re.run Re.pos].
  by rewrite (proj2 (Nat.eqb_neq _ _) Hpos).
Qed.

Lemma scan_anchored_later r (resume : nat) (before : option ascii) (at_ : nat) s :
  (0 < at_)%nat -> Re.scan (Re.Cat Re.Bol r) resume before at_ s = [].
Proof.
  revert resume before at_. induction s as [|a s' IH]; intros resume before at_ Hat;
    cbn [Re.scan];
    rewrite (match_at_anchored r (Re.mk_cursor before at_ _ None))
      by (cbn; lia).
  - by destruct (at_ <? resume)%nat.
  - destruct (at_ <? resume)%nat; apply IH; lia.
Qed.

(** Compiled without [re.MULTILINE], a pattern that begins with [^] is
    found by [finditer] at the start of the text or not at all. *)
Lemma finditer_anchored r s :
  Re.finditer (Re.Cat Re.Bol r) s
  = match Re.match_ (Re.Cat Re.Bol r) s with
    | Some m => [m]
    | None => []
    end.
Proof.
  unfold Re.finditer, Re.match_, Re.start_of.
  destruct s as [|a s']; cbn [Re.scan]; change (0 <? 0)%nat with false; cbn beta iota.
  - by destruct (Re.match_at _ _).
  - destruct (Re.match_at _ _); by rewrite scan_anchored_later by lia.
Qed.

Lemma match_start r s (m : Re.found) :
  Re.match_ r s = Some m -> Re.m_start m = 0.
Proof.
  unfold Re.match_, Re.match_at, Re.start_of. cbn [Re.prev Re.pos Re.rest].
  destruct (Re.run r _ Some); [|done]. by intros [= <-].
Qed.

Lemma structures_anchored (ty : StructureType.t) (p : Re.t) r s :
  p = Re.Cat Re.Bol r ->
  Forall (fun x => TextStructure.start_pos x = 0 /\ TextStructure.type x = ty)
    (map (EdgeCaseHandlers.structure_of ty) (Re.finditer p s))
  /\ (length (Re.finditer p s) <= 1)%nat.
Proof.
  intros ->. rewrite finditer_anchored.
  destruct (Re.match_ _ s) as [m|] eqn:Hm; cbn; [|split; [constructor|lia]].
  split; [|lia]. constructor; [|constructor].
  split; [|done]. by eapply match_start.
Qed.

End AnchoredPatterns.

(** X20. [detect_structural_elements] finds a header or a caption at the
    very start of the text only: every structure that it returns is a
    [HEADER] with [start_pos = 0], and there are at most two of them (the
    patterns are compiled without [re.MULTILINE]). *)
Theorem detect_structural_elements_at_start (text : string) :
  Forall (fun s => TextStructure.start_pos s = 0
                   /\ TextStructure.type s = StructureType.HEADER)
    (EdgeCaseHandlers.detect_structural_elements text)
  /\ (length (EdgeCaseHandlers.detect_structural_elements text) <= 2)%nat.
Proof.
  unfold EdgeCaseHandlers.detect_structural_elements.
  destruct (structures_anchored StructureType.HEADER Patterns.header _ text
              eq_refl) as [Hh Hhn].
  destruct (structures_anchored StructureType.HEADER Patterns.figure_caption _ text
              eq_refl) as [Hf Hfn].
  split.
  - apply Forall_app. by split.
  - rewrite length_app, !length_map. lia.
Qed.

(** X21. [detect_quotations] returns at most one structure, and it is a
    [DIALOG] marker at the very start of the text: the quote loop records
    nothing, and the dialog pattern is anchored with [^]. *)
Theorem detect_quotations_at_start (text : string) :
  Forall (fun s => TextStructure.type s = StructureType.DIALOG
                   /\ TextStructure.start_pos s = 0)
    (EdgeCaseHandlers.detect_quotations text)
  /\ (length (EdgeCaseHandlers.detect_quotations text) <= 1)%nat.
Proof.
  unfold EdgeCaseHandlers.detect_quotations.
  pose proof (foldl_quote_step text (Re.finditer Patterns.quote text) []) as Hfold.
  destruct (foldl _ _ _) as [quote_stack structures].
  cbn [snd] in Hfold. rewrite Hfold; [|intros m Hm; by eapply scan_quote_group].
  cbn [app].
  assert (Hp : Patterns.dialog_marker = Re.Cat Re.Bol _) by reflexivity.
  rewrite Hp. clear Hp.
  rewrite finditer_anchored.
  destruct (Re.match_ _ text) as [m|] eqn:Hm; cbn; [|split; [constructor|lia]].
  split; [|lia]. constructor; [|constructor].
  split; [done|]. by eapply match_start.
Qed.

(** ** SentenceSegmenter: the pattern of initials in [is_abbreviation] *)

Section Initials.

Lemma step_initials (c e : Re.cursor) (k : Re.cursor -> option Re.cursor) :
  Re.run (Re.Cat (Re.chr ".") Re.upper) c k = Some e ->
  exists b s2,
    Re.rest c = String "." (String b s2)
    /\ Py.between 65 90 b = true
    /\ k (Re.mk_cursor (Some b) (S (S (Re.pos c))) s2 (Re.group1 c)) = Some e.
Proof.
  cbn [Re.run Re.chr Re.upper].
  destruct (Re.rest c) as [|a s1]; [done|].
  destruct (Ascii.eqb_spec "." a) as [<-|]; [|done].
  cbn [Re.rest Re.pos Re.group1].
  destruct s1 as [|b s2]; [done|].
  destruct (Py.between 65 90 b) eqn:Hb; [|done].
  intros Hk. by exists b, s2.
Qed.

Lemma stop_initials (lo : nat) (c e : Re.cursor) :
  match lo with O => at_end_of_line c | S _ => None end = Some e ->
  Re.at_eol e = true
  /\ exists mid, Re.rest c = mid +:+ Re.rest e
                 /\ (mid = EmptyString \/ ends_in_capital mid).
Proof.
  destruct lo; [|done].
  unfold at_end_of_line. cbn [Re.run].
  destruct (Re.at_eol c) eqn:Heol; [|done]. intros [= <-].
  split; [done|]. exists EmptyString. split; [done|by left].
Qed.

Lemma rep_initials (n lo : nat) (hi : option nat) (c e : Re.cursor) :
  Re.rep (Re.run (Re.Cat (Re.chr ".") Re.upper)) n lo hi c at_end_of_line = Some e ->
  Re.at_eol e = true
  /\ exists mid, Re.rest c = mid +:+ Re.rest e
                 /\ (mid = EmptyString \/ ends_in_capital mid).
Proof.
  revert lo hi c. induction n as [|n IH]; intros lo hi c;
    [apply stop_initials|].
  cbn [Re.rep].
  assert (Hround : forall hi',
    Re.run (Re.Cat (Re.chr ".") Re.upper) c
      (fun c' =>
         if (Re.pos c <? Re.pos c')%nat
         then Re.rep (Re.run (Re.Cat (Re.chr ".") Re.upper)) n (Nat.pred lo) hi'
                c' at_end_of_line
         else None) = Some e ->
    Re.at_eol e = true
    /\ exists mid, Re.rest c = mid +:+ Re.rest e
                   /\ (mid = EmptyString \/ ends_in_capital mid)).
  { intros hi' Hstep.
    apply step_initials in Hstep as (b & s2 & Hrest & Hb & Hk).
    cbn [Re.pos] in Hk.
    destruct (Re.pos c <? S (S (Re.pos c)))%nat; [|done].
    apply IH in Hk as (Heol & mid & Hmid & Hcap).
    cbn [Re.rest] in Hmid.
    split; [done|].
    exists (String "." (String b mid)).
    split; [by rewrite Hrest, !append_cons, <- Hmid|].
    right. destruct Hcap as [->|(mid' & u & -> & Hu)].
    - by exists (String "." EmptyString), b.
    - by exists (String "." (String b mid')), u. }
  destruct hi as [[|hi]|]; [apply stop_initials| |].
  - destruct (Re.run _ c _) as [e'|] eqn:Hstep; [|apply stop_initials].
    intros [= <-]. by eapply Hround.
  - destruct (Re.run _ c _) as [e'|] eqn:Hstep; [|apply stop_initials].
    intros [= <-]. by eapply Hround.
Qed.

Lemma endswith_capital (pre : string) (u : ascii) (tail : string) :
  Py.between 65 90 u = true ->
  tail = EmptyString \/ tail = String "010" EmptyString ->
  Py.endswith (pre +:+ String u tail) "." = false.
Proof.
  intros Hu Htail.
  assert (Hu' : Ascii.eqb u "." = false).
  { destruct (Ascii.eqb_spec u "."); [by subst|done]. }
  induction pre as [|x pre IH].
  - rewrite append_empty_l. destruct Htail as [->| ->]; cbn; by rewrite Hu'.
  - rewrite append_cons. cbn [Py.endswith].
    assert (Hne : (String x (pre +:+ String u tail) =? ".")%string = false).
    { cbn. destruct (Ascii.eqb x "."); [|done].
      by destruct pre. }
    by rewrite Hne.
Qed.

Lemma at_eol_rest (c : Re.cursor) :
  Re.at_eol c = true ->
  Re.rest c = EmptyString \/ Re.rest c = String "010" EmptyString.
Proof.
  unfold Re.at_eol. destruct (Re.rest c) as [|a [|b s]]; [by left| |done].
  intros Ha. apply Ascii.eqb_eq in Ha. subst. by right.
Qed.

(** A word that ends in a period never matches the pattern of initials:
    the pattern ends in a capital letter before [$]. *)
Lemma initials_never (word : string) :
  Py.endswith word "." = true -> Re.match_ Patterns.initials word = None.
Proof.
  intros Hend.
  unfold Re.match_, Re.match_at, Re.start_of, Patterns.initials.
  cbn [Re.seq_of Re.run Re.pos Re.prev Re.rest Re.upper Re.plus].
  change (0 =? 0)%nat with true. cbn beta iota.
  destruct word as [|a s']; [done|].
  destruct (Py.between 65 90 a) eqn:Ha; [|done].
  cbn [Re.rest].
  destruct (Re.rep _ _ _ _ _ _) as [e|] eqn:Hrep; [|done].
  exfalso.
  change (fun c' : Re.cursor => if Re.at_eol c' then Some c' else None)
    with at_end_of_line in Hrep.
  apply rep_initials in Hrep as (Heol & mid & Hmid & Hcap).
  cbn [Re.rest] in Hmid.
  apply at_eol_rest in Heol.
  destruct Hcap as [->|(mid' & u & -> & Hu)].
  - rewrite append_empty_l in Hmid.
    pose proof (endswith_capital EmptyString a (Re.rest e) Ha Heol) as Hno.
    rewrite append_empty_l, <- Hmid in Hno. congruence.
  - pose proof (endswith_capital (String a mid') u (Re.rest e) Hu Heol) as Hno.
    rewrite append_cons in Hno.
    rewrite append_assoc, append_cons, append_empty_l in Hmid.
    rewrite <- Hmid in Hno. congruence.
Qed.

End Initials.

(** X22. [is_abbreviation] answers by the table, the next word and the
    single capital letter alone: the test for initials such as [U.S.A.]
    never fires, since its pattern ends in a capital letter while the word
    ends in a period. *)
Theorem is_abbreviation_without_initials (word : string) (next_word : option string) :
  EdgeCaseHandlers.is_abbreviation word next_word
  = Py.endswith word "."
    && (bool_decide (Py.slice word None (Some (-1)) ∈ EdgeCaseHandlers.all_abbreviations)
        || match next_word with
           | Some next => EdgeCaseHandlers.first_is Py.islower next
           | None => false
           end
        || ((Py.len (Py.slice word None (Some (-1))) =? 1)
            && Py.str_isupper (Py.slice word None (Some (-1))))).
Proof.
  unfold EdgeCaseHandlers.is_abbreviation. cbv zeta.
  destruct (Py.endswith word ".") eqn:Hend; cbn [negb andb]; [|done].
  rewrite (initials_never word Hend).
  destruct (bool_decide _); [done|]. cbn [orb].
  destruct (match next_word with Some _ => _ | None => _ end); [done|].
  cbn [orb]. by destruct (_ && _).
Qed.

(** ** StructureDetector: the offsets of the list items *)

Section ListOffsets.

Implicit Types (sep : ascii) (s line : string) (lines : list string).

Lemma split_on_nonempty sep s : Py.split_on sep s <> [].
Proof.
  destruct s as [|c s']; cbn [Py.split_on]; [done|].
  destruct (Ascii.eqb c sep); [done|]. by destruct (Py.split_on sep s').
Qed.

Lemma join_cons (sp : string) (p : string) (ps : list string) :
  ps <> [] -> join sp (p :: ps) = p +:+ sp +:+ join sp ps.
Proof. by destruct ps. Qed.

(** Joining the pieces of [s.split(sep)] with [sep] gives [s] back. *)
Lemma join_split_on sep s :
  join (String sep EmptyString) (Py.split_on sep s) = s.
Proof.
  induction s as [|c s' IH]; [done|].
  cbn [Py.split_on].
  destruct (Ascii.eqb_spec c sep) as [->|Hc].
  - rewrite join_cons by apply split_on_nonempty.
    by rewrite IH, append_empty_l, append_cons, append_empty_l.
  - pose proof (split_on_nonempty sep s') as Hne.
    destruct (Py.split_on sep s') as [|l ls]; [done|].
    destruct ls as [|l' ls'].
    + cbn [join] in *. by rewrite IH.
    + rewrite join_cons by done. rewrite join_cons in IH by done.
      by rewrite append_cons, IH.
Qed.

(** The line of index [i] lies in the joined lines at the offset that
    [detect_lists] computes for it. *)
Lemma join_lookup sep lines (i : nat) line :
  lines !! i = Some line ->
  exists pre post,
    join (String sep EmptyString) lines = pre +:+ line +:+ post
    /\ Py.len pre = EdgeCaseHandlers.line_start lines i.
Proof.
  revert i. induction lines as [|l ls IH]; intros i Hi; [done|].
  destruct i as [|i].
  - cbn in Hi. injection Hi as ->.
    exists EmptyString.
    destruct ls as [|l' ls'].
    + exists EmptyString. cbn [join]. by rewrite append_empty_l, append_empty_r.
    + eexists. rewrite join_cons by done. by rewrite append_empty_l.
  - cbn in Hi. destruct (IH i Hi) as (pre & post & Hjoin & Hlen).
    exists (l +:+ String sep EmptyString +:+ pre), post.
    split.
    + rewrite join_cons by (by destruct ls). rewrite Hjoin.
      by rewrite !append_assoc.
    + unfold EdgeCaseHandlers.line_start in *. cbn [take foldr].
      rewrite !len_append, Hlen. unfold Py.len at 2. cbn [String.length]. lia.
Qed.

Lemma line_placed (ty : StructureType.t) (text : string) (i : nat) line :
  Py.split_on newline text !! i = Some line ->
  placed_in text
    (TextStructure.mk ty (EdgeCaseHandlers.line_start (Py.split_on newline text) i)
       (EdgeCaseHandlers.line_start (Py.split_on newline text) i + Py.len line)
       line None).
Proof.
  intros Hi. destruct (join_lookup newline _ i line Hi) as (pre & post & Hjoin & Hlen).
  rewrite join_split_on in Hjoin.
  unfold placed_in. cbn. rewrite <- Hlen.
  pose proof (len_nonneg pre). pose proof (len_nonneg line).
  pose proof (len_nonneg post).
  split; [|split; [lia|]].
  - rewrite Hjoin at 1. apply slice_middle.
  - rewrite Hjoin, !len_append. lia.
Qed.

End ListOffsets.

(** X23. Every structure that [detect_lists] returns is a list item that
    lies in the text where it says: [text[start_pos:end_pos]] is its
    [content], with [0 <= start_pos <= end_pos <= len(text)]. *)
Theorem detect_lists_placed (text : string) :
  Forall (fun s => placed_in text s
                   /\ StructureType.is_list (TextStructure.type s) = true)
    (EdgeCaseHandlers.detect_lists text).
Proof.
  unfold EdgeCaseHandlers.detect_lists. cbv zeta.
  apply Forall_concat. apply Forall_lookup. intros i items Hi.
  apply list_lookup_imap_Some in Hi as (line & Hline & ->).
  unfold EdgeCaseHandlers.list_items_of_line. cbv zeta.
  repeat apply Forall_app_2;
    match goal with
    | |- Forall _ (if ?b then _ else _) =>
        destruct b; [|by constructor];
        constructor; [|by constructor];
        split; [by apply line_placed|done]
    end.
Qed.


(** ** The pipeline: what the document holds *)

Section Document.

Lemma same_but_end_ms_same_word (w w' : Word.t) :
  same_but_end_ms w w' -> same_word w w'.
Proof. intros [v ->]. by destruct w. Qed.

Lemma same_but_sentence_index_same_word (w w' : Word.t) :
  same_but_sentence_index w w' -> same_word w w'.
Proof. intros [k ->]. by destruct w. Qed.

Lemma Forall2_same_word_trans (l1 l2 l3 : list Word.t) :
  Forall2 same_word l1 l2 -> Forall2 same_word l2 l3 -> Forall2 same_word l1 l3.
Proof.
  intros H12. revert l3. induction H12 as [|a b l1 l2 Hab _ IH]; intros l3 H23.
  - by inversion H23.
  - inversion H23 as [|b' c l2' l3' Hbc Hrest]; subst.
    constructor; [|by apply IH].
    destruct Hab as (? & ? & ? & ?), Hbc as (? & ? & ? & ?).
    repeat split; congruence.
Qed.

Lemma Forall2_same_word_texts (l l' : list Word.t) :
  Forall2 same_word l l' -> map Word.word l' = map Word.word l.
Proof.
  induction 1 as [|a b l l' (Hw & _) _ IH]; [done|]. cbn. by rewrite Hw, IH.
Qed.

Lemma close_gaps_same_but_end_ms (words : list Word.t) :
  Forall2 same_but_end_ms words (close_gaps words).
Proof.
  induction words as [|c [|n rest] IH]; [constructor| |].
  - constructor; [|constructor].
    exists (Word.end_ms c). by rewrite set_end_ms_same.
  - change (close_gaps (c :: n :: rest))
      with (close_gap c n :: close_gaps (n :: rest)).
    constructor; [apply close_gap_same_but_end_ms|done].
Qed.

Lemma tiles_same_but_span lo (sentences sentences' : list Sentence.t) hi :
  Forall2 same_but_span sentences sentences' ->
  tiles lo sentences hi -> tiles lo sentences' hi.
Proof.
  intros Hsame. revert lo.
  induction Hsame as [|s s' ss ss' (a & b & ->) _ IH]; intros lo; [done|].
  cbn. intros (Hs & Hle & Hrest). split; [done|]. split; [done|]. by apply IH.
Qed.

Lemma detect_sentences_full (use_enhanced_detection : bool)
    (words : list Word.t) (text : string) words' sentences :
  detect_sentences use_enhanced_detection words text = Some (words', sentences) ->
  Forall2 same_but_sentence_index words words'
  /\ tiles 0 sentences (Z.of_nat (length words)).
Proof.
  unfold detect_sentences. destruct use_enhanced_detection.
  - intros [= Heq].
    destruct (apply_enhanced_sentence_detection_full words text
                (EdgeCaseHandlers.detect_structures text)) as (Hwords & _).
    pose proof (apply_enhanced_sentence_detection_tiles words text
                  (EdgeCaseHandlers.detect_structures text)) as Htiles.
    by rewrite Heq in Hwords, Htiles.
  - intros Hrun.
    by destruct (_simple_sentence_detection_full words text words' sentences Hrun)
      as (Hwords & _ & Htiles & _).
Qed.

Context {Num : Type} (ms_of : Num -> Z).

Lemma process_document (use_enhanced_detection : bool) (characters : list ascii)
    (start_times end_times : list (option Num)) (t : Timing.t) :
  process ms_of use_enhanced_detection characters start_times end_times = Some t ->
  exists words0,
    extract_words_with_timing ms_of characters start_times end_times = Some words0
    /\ Forall2 same_word words0 (Timing.words t)
    /\ tiles 0 (Timing.sentences t) (Z.of_nat (length (Timing.words t))).
Proof.
  intros Hrun.
  apply process_Some in Hrun as (words0 & words1 & sentences1 & Hex & Hdet & Hcov).
  exists words0. split; [done|].
  rewrite eliminate_timing_gaps_close_gaps in Hdet.
  apply detect_sentences_full in Hdet as [Hdet Htiles].
  destruct (ensure_continuous_sentence_coverage_same_but words1 sentences1)
    as [Hwords Hsentences].
  rewrite Hcov in Hwords, Hsentences. cbn [fst snd] in Hwords, Hsentences.
  pose proof (close_gaps_same_but_end_ms words0) as Hgaps.
  split.
  - eapply Forall2_same_word_trans;
      [|eapply Forall2_impl; [exact Hwords|apply same_but_sentence_index_same_word]].
    eapply Forall2_same_word_trans;
      [|eapply Forall2_impl; [exact Hdet|apply same_but_sentence_index_same_word]].
    eapply Forall2_impl; [exact Hgaps|apply same_but_end_ms_same_word].
  - eapply tiles_same_but_span; [exact Hsentences|].
    replace (length (Timing.words t)) with (length (close_gaps words0)); [done|].
    apply Forall2_length in Hdet, Hwords. congruence.
Qed.

End Document.

(** X24. The words of the document that [process] returns are the
    whitespace-separated tokens of the text, in their order, and each is the
    word that the aligner extracted but for its [end_ms] and its
    [sentence_index]: no later stage drops, adds or moves a word, or changes
    its text, its start time or its offsets. *)
Theorem process_keeps_words {Num : Type} (ms_of : Num -> Z)
    (use_enhanced_detection : bool) (characters : list ascii)
    (start_times end_times : list (option Num)) (t : Timing.t) :
  process ms_of use_enhanced_detection characters start_times end_times = Some t ->
  map Word.word (Timing.words t) = Py.split (reconstruct_text characters)
  /\ exists words0,
       extract_words_with_timing ms_of characters start_times end_times = Some words0
       /\ Forall2 same_word words0 (Timing.words t).
Proof.
  intros Hrun.
  destruct (process_document ms_of _ _ _ _ _ Hrun) as (words0 & Hex & Hsame & _).
  split; [|by exists words0].
  rewrite (Forall2_same_word_texts _ _ Hsame).
  by apply (extract_words_with_timing_tokens ms_of characters start_times end_times).
Qed.

Lemma process_keeps_words_witness :
  exists t,
    process Dyadic.ms true short_word_chars short_word_starts short_word_ends = Some t
    /\ map Word.word (Timing.words t) = Py.split (reconstruct_text short_word_chars)
    /\ exists words0,
         extract_words_with_timing Dyadic.ms short_word_chars short_word_starts
           short_word_ends = Some words0
         /\ Forall2 same_word words0 (Timing.words t).
Proof.
  eexists. split; [vm_compute; reflexivity|].
  apply (process_keeps_words Dyadic.ms true short_word_chars short_word_starts
           short_word_ends).
  vm_compute. reflexivity.
Defined.

(** X25. In the document that [process] returns, with either detector, the
    word ranges of the sentences partition the words: the first range starts
    at 0, the last ends at the last word, each range starts right after the
    one before, and every word index lies in exactly one range. *)
Theorem process_sentences_partition {Num : Type} (ms_of : Num -> Z)
    (use_enhanced_detection : bool) (characters : list ascii)
    (start_times end_times : list (option Num)) (t : Timing.t) :
  process ms_of use_enhanced_detection characters start_times end_times = Some t ->
  Timing.words t <> [] ->
  (exists first_sentence,
      head (Timing.sentences t) = Some first_sentence
      /\ Sentence.wordStartIndex first_sentence = 0)
  /\ (exists last_sentence,
        last (Timing.sentences t) = Some last_sentence
        /\ Sentence.wordEndIndex last_sentence
           = Z.of_nat (length (Timing.words t)) - 1)
  /\ (forall (k : nat) s s',
        Timing.sentences t !! k = Some s -> Timing.sentences t !! S k = Some s' ->
        Sentence.wordStartIndex s' = Sentence.wordEndIndex s + 1)
  /\ (forall i, 0 <= i < Z.of_nat (length (Timing.words t)) ->
        exists! k : nat, exists s,
          Timing.sentences t !! k = Some s /\ in_range s i).
Proof.
  intros Hrun Hwords.
  destruct (process_document ms_of _ _ _ _ _ Hrun) as (words0 & _ & _ & Htiles).
  assert (0 < Z.of_nat (length (Timing.words t)))
    by (destruct (Timing.words t); [done|simpl; lia]).
  split; [by eapply tiles_head|].
  split; [by eapply tiles_last|].
  split.
  - intros k s s'. by eapply tiles_adjacent.
  - intros i Hi. by eapply tiles_cover.
Qed.

Lemma process_sentences_partition_witness :
  exists t,
    process Dyadic.ms false short_word_chars short_word_starts short_word_ends = Some t
    /\ (exists first_sentence,
          head (Timing.sentences t) = Some first_sentence
          /\ Sentence.wordStartIndex first_sentence = 0)
    /\ (exists last_sentence,
          last (Timing.sentences t) = Some last_sentence
          /\ Sentence.wordEndIndex last_sentence
             = Z.of_nat (length (Timing.words t)) - 1)
    /\ (forall (k : nat) s s',
          Timing.sentences t !! k = Some s -> Timing.sentences t !! S k = Some s' ->
          Sentence.wordStartIndex s' = Sentence.wordEndIndex s + 1)
    /\ (forall i, 0 <= i < Z.of_nat (length (Timing.words t)) ->
          exists! k : nat, exists s,
            Timing.sentences t !! k = Some s /\ in_range s i).
Proof.
  eexists. split; [vm_compute; reflexivity|].
  apply (process_sentences_partition Dyadic.ms false short_word_chars
           short_word_starts short_word_ends).
  - vm_compute. reflexivity.
  - discriminate.
Defined.

(** ** SentenceSegmenter: the colon *)

(** X26. [should_break_at_colon] answers by its first test alone: it
    returns [True] exactly when a list seems to follow the colon.  The tests
    for a ratio and for a time of day come after that test and return
    [False], as the end of the function does, so they never change the
    answer and never hold a break back. *)
Theorem should_break_at_colon_list_only (text : string) (colon_pos : Z) :
  EdgeCaseHandlers.should_break_at_colon text colon_pos = list_follows text colon_pos.
Proof.
  unfold EdgeCaseHandlers.should_break_at_colon, list_follows. cbv zeta.
  destruct (EdgeCaseHandlers.first_is _ _); cbn [andb].
  - destruct (Py.contains newline _); cbn [orb]; [done|].
    destruct (3 <? _); [done|]. by repeat case_match.
  - by repeat case_match.
Qed.

(** ** ParagraphExtractor *)

Section StripFacts.

Implicit Types (s a b sep : string) (c : ascii).

Lemma lstrip_no_lead s : no_lead (Py.lstrip s).
Proof.
  induction s as [|c s IH]; [done|]. cbn [Py.lstrip].
  by destruct (Py.isspace c) eqn:Hc.
Qed.

Lemma lstrip_id s : no_lead s -> Py.lstrip s = s.
Proof. destruct s as [|c s]; [done|]. cbn. by intros ->. Qed.

Lemma rstrip_cons c s :
  Py.rstrip (String c s)
  = match Py.rstrip s with
    | EmptyString => if Py.isspace c then EmptyString else String c EmptyString
    | t => String c t
    end.
Proof. done. Qed.

Lemma rstrip_idempotent s : Py.rstrip (Py.rstrip s) = Py.rstrip s.
Proof.
  induction s as [|c s IH]; [done|].
  rewrite rstrip_cons.
  destruct (Py.rstrip s) as [|d t] eqn:Hs.
  - destruct (Py.isspace c) eqn:Hc; [done|]. cbn. by rewrite Hc.
  - rewrite rstrip_cons, IH. done.
Qed.

Lemma rstrip_no_lead s : no_lead s -> no_lead (Py.rstrip s).
Proof.
  destruct s as [|c s]; [done|]. cbn [no_lead]. intros Hc.
  rewrite rstrip_cons. destruct (Py.rstrip s); [by rewrite Hc|done].
Qed.

Lemma stripped_strip s : stripped (Py.strip s).
Proof.
  split; [apply rstrip_no_lead, lstrip_no_lead|apply rstrip_idempotent].
Qed.

Lemma strip_stripped s : stripped s -> Py.strip s = s.
Proof. intros [Hlead Htrail]. unfold Py.strip. by rewrite lstrip_id. Qed.

Lemma rstrip_app a b :
  Py.rstrip b <> EmptyString -> Py.rstrip (a +:+ b) = a +:+ Py.rstrip b.
Proof.
  intros Hb. induction a as [|x a IH]; [by rewrite !append_empty_l|].
  rewrite !append_cons, rstrip_cons, IH.
  destruct (a +:+ Py.rstrip b) eqn:Heq; [|done].
  destruct a; [|done]. by rewrite append_empty_l in Heq.
Qed.

Lemma contains_append c a b :
  Py.contains c (a +:+ b) = Py.contains c a || Py.contains c b.
Proof.
  induction a as [|x a IH]; [by rewrite append_empty_l|].
  rewrite append_cons. cbn [Py.contains]. by rewrite IH, orb_assoc.
Qed.

Lemma contains_lstrip c s :
  Py.contains c s = false -> Py.contains c (Py.lstrip s) = false.
Proof.
  induction s as [|x s IH]; [done|]. cbn [Py.contains Py.lstrip].
  intros [Hx Hs]%orb_false_elim.
  destruct (Py.isspace x); [by apply IH|]. cbn [Py.contains]. by rewrite Hx, Hs.
Qed.

Lemma contains_rstrip c s :
  Py.contains c s = false -> Py.contains c (Py.rstrip s) = false.
Proof.
  induction s as [|x s IH]; [done|]. cbn [Py.contains].
  intros [Hx Hs]%orb_false_elim. rewrite rstrip_cons.
  specialize (IH Hs).
  destruct (Py.rstrip s) as [|d t].
  - destruct (Py.isspace x); [done|]. cbn. by rewrite Hx.
  - cbn [Py.contains] in *. by rewrite Hx, IH.
Qed.

Lemma contains_strip c s :
  Py.contains c s = false -> Py.contains c (Py.strip s) = false.
Proof. intros Hs. by apply contains_rstrip, contains_lstrip. Qed.

Lemma split_on_no_sep c s :
  Forall (fun l => Py.contains c l = false) (Py.split_on c s).
Proof.
  induction s as [|x s IH]; [by repeat constructor|].
  cbn [Py.split_on].
  destruct (Ascii.eqb_spec x c) as [->|Hx]; [by constructor|].
  assert (Hc : Ascii.eqb c x = false) by (apply Ascii.eqb_neq; congruence).
  destruct (Py.split_on c s) as [|l ls].
  - constructor; [|constructor]. cbn. by rewrite Hc.
  - apply Forall_cons in IH as [Hl Hls]. constructor; [|done].
    cbn [Py.contains]. by rewrite Hl, Hc.
Qed.

(** *** Tokens *)

Lemma at_token_end_append a c b :
  Py.isspace c = true ->
  Py.at_token_end (a +:+ String c b) = Py.at_token_end a.
Proof.
  intros Hc. destruct a; [by rewrite append_empty_l|by rewrite append_cons].
Qed.

Lemma split_in_token s : Py.at_token_end s = false -> Py.split s <> [].
Proof.
  destruct s as [|x s]; [done|]. cbn [Py.at_token_end Py.split]. intros ->.
  destruct (Py.at_token_end s); [done|]. by destruct (Py.split s).
Qed.

Lemma split_app_space a c b :
  Py.isspace c = true ->
  Py.split (a +:+ String c b) = Py.split a ++ Py.split b.
Proof.
  intros Hc. induction a as [|x a IH].
  - rewrite append_empty_l. by rewrite split_space.
  - rewrite append_cons. cbn [Py.split].
    destruct (Py.isspace x); [done|].
    rewrite at_token_end_append by done.
    destruct (Py.at_token_end a) eqn:Hend; rewrite IH; [done|].
    pose proof (split_in_token a Hend).
    by destruct (Py.split a).
Qed.

Lemma split_spaces sep b :
  Py.forallb_str Py.isspace sep = true -> Py.split (sep +:+ b) = Py.split b.
Proof.
  induction sep as [|c sep IH]; [by rewrite append_empty_l|].
  cbn [Py.forallb_str]. intros [Hc Hsep]%andb_prop.
  rewrite append_cons, split_space by done. by apply IH.
Qed.

Lemma split_app_sep a sep b :
  sep <> EmptyString -> Py.forallb_str Py.isspace sep = true ->
  Py.split (a +:+ sep +:+ b) = Py.split a ++ Py.split b.
Proof.
  destruct sep as [|c sep]; [done|]. intros _.
  cbn [Py.forallb_str]. intros [Hc Hsep]%andb_prop.
  rewrite append_cons, split_app_space by done.
  by rewrite split_spaces.
Qed.

Lemma split_join sep (parts : list string) :
  sep <> EmptyString -> Py.forallb_str Py.isspace sep = true ->
  Py.split (join sep parts) = concat (map Py.split parts).
Proof.
  intros Hne Hsep. induction parts as [|p [|p' rest] IH]; [done| |].
  - cbn. by rewrite app_nil_r.
  - rewrite join_cons by done. rewrite split_app_sep by done.
    by rewrite IH.
Qed.

Lemma split_lstrip s : Py.split (Py.lstrip s) = Py.split s.
Proof.
  induction s as [|c s IH]; [done|]. cbn [Py.lstrip].
  destruct (Py.isspace c) eqn:Hc; [|done]. by rewrite split_space.
Qed.

Lemma rstrip_first s d t :
  Py.rstrip s = String d t -> exists s', s = String d s'.
Proof.
  destruct s as [|c s]; [done|]. rewrite rstrip_cons.
  destruct (Py.rstrip s); [destruct (Py.isspace c)|]; intros [= <- _]; eauto.
Qed.

Lemma rstrip_empty_token_end s :
  Py.rstrip s = EmptyString -> Py.at_token_end s = true.
Proof.
  destruct s as [|c s]; [done|]. rewrite rstrip_cons. cbn [Py.at_token_end].
  destruct (Py.rstrip s); [by destruct (Py.isspace c)|done].
Qed.

Lemma split_rstrip s : Py.split (Py.rstrip s) = Py.split s.
Proof.
  induction s as [|c s IH]; [done|]. rewrite rstrip_cons.
  destruct (Py.rstrip s) as [|d t] eqn:Hs.
  - cbn [Py.split] in IH |- *.
    destruct (Py.isspace c) eqn:Hc; [done|].
    cbn [Py.split Py.at_token_end]. rewrite Hc, <- IH.
    by rewrite (rstrip_empty_token_end s Hs).
  - destruct (rstrip_first s d t Hs) as [s' ->].
    cbn [Py.split] in IH |- *.
    destruct (Py.isspace c); [done|].
    cbn [Py.at_token_end]. by rewrite IH.
Qed.

Lemma split_strip s : Py.split (Py.strip s) = Py.split s.
Proof. unfold Py.strip. by rewrite split_rstrip, split_lstrip. Qed.

Lemma split_nil_strip s : Py.split s = [] -> Py.strip s = EmptyString.
Proof.
  intros Hs. unfold Py.strip.
  assert (Py.lstrip s = EmptyString) as ->; [|done].
  induction s as [|c s IH]; [done|]. cbn [Py.split Py.lstrip] in *.
  destruct (Py.isspace c); [by apply IH|].
  destruct (Py.at_token_end s); [done|]. by destruct (Py.split s).
Qed.

Lemma split_lines (text : string) :
  Py.split text = concat (map Py.split (Py.split_on newline text)).
Proof.
  rewrite <- (join_split_on newline text) at 1.
  by apply split_join.
Qed.

Lemma split_nonempty s : s <> EmptyString -> no_lead s -> Py.split s <> [].
Proof.
  destruct s as [|c s]; [done|]. cbn [no_lead Py.split]. intros _ ->.
  destruct (Py.at_token_end s); [done|]. by destruct (Py.split s).
Qed.

(** *** Lines and paragraphs *)

Lemma line_ok_strip (l : string) :
  Py.contains newline l = false -> Py.strip l <> EmptyString ->
  line_ok (Py.strip l).
Proof.
  intros Hl Hne. split; [done|]. split; [apply stripped_strip|].
  by apply contains_strip.
Qed.

Lemma line_ok_join (current_para : list string) :
  current_para <> [] -> Forall line_ok current_para ->
  line_ok (join " " current_para).
Proof.
  induction current_para as [|l [|l' rest] IH]; [done| |]; intros _ Hall.
  - by apply Forall_cons in Hall as [Hl _].
  - apply Forall_cons in Hall as [(Hne & (Hlead & Htrail) & Hnl) Hrest].
    destruct (IH ltac:(done) Hrest) as (Hjne & (Hjlead & Hjtrail) & Hjnl).
    rewrite join_cons by done.
    split; [by destruct l|]. split; [split|].
    + by destruct l.
    + rewrite rstrip_app; [|rewrite append_cons, rstrip_cons, append_empty_l, Hjtrail;
                            by destruct (join " " (l' :: rest))].
      f_equal. rewrite append_cons, rstrip_cons, append_empty_l, Hjtrail.
      by destruct (join " " (l' :: rest)).
    + by rewrite !contains_append, Hnl, Hjnl.
Qed.

Lemma paragraph_step_inv (tokens : list string) st (line : string) :
  Py.contains newline line = false ->
  paragraph_inv tokens st ->
  paragraph_inv (tokens ++ Py.split line) (paragraph_step st line).
Proof.
  destruct st as [paragraphs current_para].
  intros Hline (Hps & Hcur & Htok). cbn [fst snd] in *.
  unfold paragraph_step, paragraph_inv.
  destruct (String.eqb_spec (Py.strip line) EmptyString) as [Hblank|Hfull];
    cbn [negb].
  - assert (Hnone : Py.split line = []).
    { rewrite <- split_strip, Hblank. done. }
    rewrite Hnone, app_nil_r.
    destruct (decide (current_para <> [])) as [Hne|He].
    + rewrite bool_decide_eq_true_2 by done. cbn [fst snd].
      split; [|split; [done|]].
      * apply Forall_app. split; [done|].
        constructor; [by apply line_ok_join|constructor].
      * rewrite map_app, concat_app. cbn [map concat].
        rewrite split_join by done. by rewrite !app_nil_r.
    + rewrite bool_decide_eq_false_2 by done. by cbn [fst snd].
  - cbn [fst snd]. split; [done|]. split.
    + apply Forall_app. split; [done|].
      constructor; [by apply line_ok_strip|constructor].
    + rewrite map_app, concat_app. cbn [map concat].
      by rewrite split_strip, app_nil_r, app_assoc, Htok.
Qed.

Lemma paragraph_loop_inv (lines : list string) (tokens : list string) st :
  Forall (fun l => Py.contains newline l = false) lines ->
  paragraph_inv tokens st ->
  paragraph_inv (tokens ++ concat (map Py.split lines))
    (foldl paragraph_step st lines).
Proof.
  revert tokens st. induction lines as [|line rest IH]; intros tokens st Hlines Hinv.
  - cbn. by rewrite app_nil_r.
  - apply Forall_cons in Hlines as [Hline Hrest].
    cbn [foldl map concat]. rewrite app_assoc.
    apply IH; [done|]. by apply paragraph_step_inv.
Qed.

(** The paragraphs taken from the original text. *)
Lemma original_paragraphs (original_text : string) :
  Forall line_ok
    (Py.strip <$> filter (fun p => Py.strip p <> EmptyString)
                    (Py.split_on newline original_text))
  /\ concat (map Py.split
               (Py.strip <$> filter (fun p => Py.strip p <> EmptyString)
                               (Py.split_on newline original_text)))
     = Py.split original_text.
Proof.
  rewrite (split_lines original_text).
  pose proof (split_on_no_sep newline original_text) as Hlines.
  induction (Py.split_on newline original_text) as [|l ls IH]; [done|].
  apply Forall_cons in Hlines as [Hl Hls]. destruct (IH Hls) as [IHok IHtok].
  destruct (decide (Py.strip l <> EmptyString)) as [Hne|He].
  - rewrite filter_cons_True by done. cbn [fmap list_fmap map concat].
    split; [constructor; [by apply line_ok_strip|done]|].
    rewrite split_strip. f_equal. exact IHtok.
  - rewrite filter_cons_False by done. split; [done|].
    cbn [map concat]. rewrite <- IHtok.
    assert (Py.split l = []) as ->; [|done].
    rewrite <- split_strip.
    destruct (Py.strip l); [done|]. by destruct He.
Qed.

Lemma extract_paragraphs_facts (original_full_text : option string) (text : string) :
  let paragraphs := extract_paragraphs original_full_text text in
  paragraphs <> []
  /\ (Forall line_ok paragraphs \/ paragraphs = [EmptyString])
  /\ concat (map Py.split paragraphs)
     = Py.split (paragraph_source original_full_text text).
Proof.
  cbv zeta. unfold extract_paragraphs, paragraph_source. cbv zeta.
  assert (Hfallback :
    let out :=
      let '(paragraphs, current_para) :=
        foldl paragraph_step ([], []) (Py.split_on newline text) in
      let paragraphs :=
        if bool_decide (current_para <> [])
        then paragraphs ++ [join " " current_para] else paragraphs in
      if bool_decide (paragraphs = []) then [Py.strip text] else paragraphs in
    out <> []
    /\ (Forall line_ok out \/ out = [EmptyString])
    /\ concat (map Py.split out) = Py.split text).
  { cbv zeta.
    pose proof (paragraph_loop_inv (Py.split_on newline text) [] ([], [])
                  (split_on_no_sep newline text) ltac:(by repeat split)) as Hinv.
    cbn [app] in Hinv. rewrite <- split_lines in Hinv.
    destruct (foldl paragraph_step _ _) as [paragraphs current_para].
    destruct Hinv as (Hps & Hcur & Htok). cbn [fst snd] in *.
    assert (Hflush :
      let final :=
        if bool_decide (current_para <> [])
        then paragraphs ++ [join " " current_para] else paragraphs in
      Forall line_ok final /\ concat (map Py.split final) = Py.split text).
    { cbv zeta. destruct (decide (current_para <> [])) as [Hne|He].
      - rewrite bool_decide_eq_true_2 by done. split.
        + apply Forall_app. split; [done|].
          constructor; [by apply line_ok_join|constructor].
        + rewrite map_app, concat_app. cbn [map concat].
          rewrite split_join by done. by rewrite !app_nil_r.
      - rewrite bool_decide_eq_false_2 by done. split; [done|].
        apply dec_stable in He. subst current_para.
        cbn [map concat] in Htok. by rewrite app_nil_r in Htok. }
    cbv zeta in Hflush. destruct Hflush as [Hok Htokens].
    destruct (if bool_decide (current_para <> []) then _ else _) as [|p ps] eqn:Hfinal.
    - rewrite bool_decide_eq_true_2 by done.
      cbn [map concat] in Htokens.
      split; [done|]. split.
      + right. by rewrite (split_nil_strip text).
      + cbn [map concat]. by rewrite split_strip, app_nil_r.
    - rewrite bool_decide_eq_false_2 by done.
      split; [done|]. split; [by left|done]. }
  cbv zeta in Hfallback.
  destruct original_full_text as [original_text|].
  - destruct (original_paragraphs original_text) as [Hok Htok].
    destruct (Py.strip <$> filter _ (Py.split_on newline original_text))
      as [|p ps] eqn:Horig.
    + rewrite bool_decide_eq_false_2 by (by intros H; apply H).
      cbn [map concat] in Htok.
      rewrite bool_decide_eq_false_2 by (by rewrite <- Htok; intros H; apply H).
      exact Hfallback.
    + rewrite bool_decide_eq_true_2 by done.
      assert (Hsome : Py.split original_text <> []).
      { rewrite <- Htok. cbn [map concat].
        apply Forall_cons in Hok as [(Hne & (Hlead & _) & _) _].
        pose proof (split_nonempty p Hne Hlead). by destruct (Py.split p). }
      rewrite bool_decide_eq_true_2 by done.
      split; [done|]. split; [by left|done].
  - rewrite bool_decide_eq_false_2 by (by intros H; apply H).
    exact Hfallback.
Qed.

End StripFacts.

(** X27. [extract_paragraphs] never returns an empty list; no paragraph
    has whitespace at either end or holds a newline; and an empty paragraph
    occurs only as the single paragraph of a text without any token. *)
Theorem extract_paragraphs_shape (original_full_text : option string) (text : string) :
  let paragraphs := extract_paragraphs original_full_text text in
  paragraphs <> []
  /\ Forall (fun p => Py.strip p = p /\ Py.contains newline p = false) paragraphs
  /\ (EmptyString ∈ paragraphs -> paragraphs = [EmptyString]).
Proof.
  intros paragraphs.
  destruct (extract_paragraphs_facts original_full_text text)
    as (Hne & Hshape & _).
  fold paragraphs in Hne, Hshape.
  split; [done|].
  destruct Hshape as [Hok| ->].
  - split.
    + eapply Forall_impl; [exact Hok|].
      intros p (_ & Hstripped & Hnl). split; [by apply strip_stripped|done].
    + intros Hin. rewrite Forall_forall in Hok.
      by destruct (Hok _ Hin) as (Hnonempty & _).
  - split; [|done]. by repeat constructor.
Qed.

(** X28. The paragraphs hold the tokens of the text they are taken from, in
    their order, no token lost, added or split: the tokens of the original
    text when it has any, those of the reconstructed text otherwise. *)
Theorem extract_paragraphs_tokens (original_full_text : option string) (text : string) :
  concat (map Py.split (extract_paragraphs original_full_text text))
  = Py.split (paragraph_source original_full_text text).
Proof.
  by destruct (extract_paragraphs_facts original_full_text text) as (_ & _ & Htok).
Qed.

(** X29. Without original content, the display text of the document is the
    paragraphs joined by blank lines (the fall-back to the full text is never
    taken), and its tokens are exactly the words of the timing list, in their
    order. *)
Theorem display_text_words {Num : Type} (ms_of : Num -> Z)
    (use_enhanced_detection : bool) (characters : list ascii)
    (start_times end_times : list (option Num)) (t : Timing.t) :
  process ms_of use_enhanced_detection characters start_times end_times = Some t ->
  display_text None (reconstruct_text characters)
  = join (String newline (String newline EmptyString))
      (extract_paragraphs None (reconstruct_text characters))
  /\ Py.split (display_text None (reconstruct_text characters))
     = map Word.word (Timing.words t).
Proof.
  intros Hrun.
  destruct (extract_paragraphs_facts None (reconstruct_text characters))
    as (Hne & _ & Htok).
  assert (Hdisplay :
    display_text None (reconstruct_text characters)
    = join (String newline (String newline EmptyString))
        (extract_paragraphs None (reconstruct_text characters))).
  { unfold display_text. cbv zeta. by rewrite bool_decide_eq_true_2. }
  split; [done|].
  rewrite Hdisplay, split_join by done.
  rewrite Htok. cbn [paragraph_source].
  destruct (process_document ms_of _ _ _ _ _ Hrun) as (words0 & Hex & Hsame & _).
  rewrite (Forall2_same_word_texts _ _ Hsame).
  symmetry.
  by apply (extract_words_with_timing_tokens ms_of characters start_times end_times).
Qed.

Lemma display_text_words_witness :
  exists t,
    process Dyadic.ms true short_word_chars short_word_starts short_word_ends = Some t
    /\ display_text None (reconstruct_text short_word_chars)
       = join (String newline (String newline EmptyString))
           (extract_paragraphs None (reconstruct_text short_word_chars))
    /\ Py.split (display_text None (reconstruct_text short_word_chars))
       = map Word.word (Timing.words t).
Proof.
  eexists. split; [vm_compute; reflexivity|].
  apply (display_text_words Dyadic.ms true short_word_chars short_word_starts
           short_word_ends).
  vm_compute. reflexivity.
Defined.

(** ** [split_list_items] *)

Section Segments.

Implicit Types (s text : string) (segments : list (string * Z * Z)).

Lemma take_drop (n : nat) s : Py.take n s +:+ Py.drop n s = s.
Proof.
  revert s. induction n as [|n IH]; intros s; [by destruct s|].
  destruct s as [|x s]; [done|]. cbn [Py.take Py.drop].
  by rewrite append_cons, IH.
Qed.

Lemma take_take_drop (a b : nat) s :
  (a <= b)%nat -> Py.take a s +:+ Py.take (b - a) (Py.drop a s) = Py.take b s.
Proof.
  revert b s. induction a as [|a IH]; intros b s Hab.
  - rewrite Nat.sub_0_r. by destruct s.
  - destruct b as [|b]; [lia|].
    destruct s as [|x s].
    { cbn [Py.take Py.drop Nat.sub]. by destruct (b - a)%nat. }
    cbn [Py.take Py.drop Nat.sub].
    rewrite append_cons, IH by lia. done.
Qed.

Lemma length_drop (n : nat) s :
  String.length (Py.drop n s) = (String.length s - n)%nat.
Proof.
  revert s. induction n as [|n IH]; intros s; [by rewrite Nat.sub_0_r|].
  destruct s as [|x s]; [done|]. cbn [Py.drop String.length Nat.sub]. apply IH.
Qed.

Lemma length_take (n : nat) s :
  (n <= String.length s)%nat -> String.length (Py.take n s) = n.
Proof.
  revert s. induction n as [|n IH]; intros s Hn; [by destruct s|].
  destruct s as [|x s]; [cbn in Hn; lia|].
  cbn [Py.take String.length] in *. rewrite IH; [done|lia].
Qed.

Lemma slice_in_range s (a b : Z) :
  0 <= a <= b -> b <= Py.len s ->
  Py.slice s (Some a) (Some b)
  = Py.take (Z.to_nat b - Z.to_nat a) (Py.drop (Z.to_nat a) s).
Proof.
  intros Hab Hb. unfold Py.slice. cbv zeta. cbn [default]. unfold id.
  rewrite !clip_in_range by lia.
  by replace (Z.to_nat (b - a)) with (Z.to_nat b - Z.to_nat a)%nat by lia.
Qed.

Lemma slice_to_end s (a : Z) :
  0 <= a <= Py.len s -> Py.slice s (Some a) None = Py.drop (Z.to_nat a) s.
Proof.
  intros Ha. unfold Py.slice. cbv zeta. cbn [default]. unfold id.
  rewrite !clip_in_range by lia.
  apply take_all. rewrite length_drop. unfold Py.len in *. lia.
Qed.

Lemma len_slice s (a b : Z) :
  0 <= a <= b -> b <= Py.len s -> Py.len (Py.slice s (Some a) (Some b)) = b - a.
Proof.
  intros Hab Hb. rewrite slice_in_range by done.
  unfold Py.len in *. rewrite length_take; [lia|].
  rewrite length_drop. lia.
Qed.

Lemma take_slice s (a b : Z) :
  0 <= a <= b -> b <= Py.len s ->
  Py.take (Z.to_nat a) s +:+ Py.slice s (Some a) (Some b) = Py.take (Z.to_nat b) s.
Proof.
  intros Hab Hb. rewrite slice_in_range by done.
  apply take_take_drop. lia.
Qed.

Lemma text_of_app segments segments' :
  text_of (segments ++ segments') = text_of segments +:+ text_of segments'.
Proof.
  unfold text_of. induction segments as [|[[t a] b] rest IH]; [done|].
  cbn [app foldr fst]. by rewrite IH, append_assoc.
Qed.

Lemma text_of_singleton (t : string) (a b : Z) : text_of [(t, a, b)] = t.
Proof. cbn. apply append_empty_r. Qed.

Lemma spans_chained_snoc lo segments mid (t : string) (b : Z) :
  spans_chained lo segments mid -> Py.len t = b - mid ->
  spans_chained lo (segments ++ [(t, mid, b)]) b.
Proof.
  revert lo. induction segments as [|[[t0 a0] b0] rest IH]; intros lo; cbn.
  - by intros ->.
  - intros (-> & Hlen & Hrest) Ht. split; [done|]. split; [done|]. by apply IH.
Qed.

Lemma insert_by_start_ordered (x : TextStructure.t) structures :
  starts_ordered (x :: structures) -> insert_by_start x structures = x :: structures.
Proof.
  destruct structures as [|y rest]; [done|]. cbn [starts_ordered insert_by_start].
  intros [Hxy _]. by rewrite (proj2 (Z.leb_le _ _) Hxy).
Qed.

(** A list that is in the order of [start_pos] is left as it is. *)
Lemma sorted_by_start_ordered structures :
  starts_ordered structures -> sorted_by_start structures = structures.
Proof.
  induction structures as [|x rest IH]; [done|]. intros Hord.
  unfold sorted_by_start in *. cbn [foldr].
  rewrite IH by (destruct rest; [done|by destruct Hord]).
  by apply insert_by_start_ordered.
Qed.

Lemma split_loop_inv text structures segments (last_pos : Z) :
  0 <= last_pos <= Py.len text ->
  text_of segments = Py.take (Z.to_nat last_pos) text ->
  spans_chained 0 segments last_pos ->
  items_chained text last_pos structures ->
  let out := foldl (split_step text) (segments, last_pos) structures in
  0 <= out.2 <= Py.len text
  /\ text_of out.1 = Py.take (Z.to_nat out.2) text
  /\ spans_chained 0 out.1 out.2.
Proof.
  revert segments last_pos.
  induction structures as [|x rest IH]; intros segments last_pos Hpos Htext Hspans Hitems;
    [done|].
  cbn [foldl split_step]. cbn [items_chained] in Hitems.
  destruct (StructureType.is_list (TextStructure.type x)); [|by apply IH].
  destruct Hitems as (Hlo & (Hcontent & Horder & Hend) & Hrest).
  assert (Hbefore :
    let segments' :=
      if last_pos <? TextStructure.start_pos x
      then segments
           ++ [(Py.slice text (Some last_pos) (Some (TextStructure.start_pos x)),
                last_pos, TextStructure.start_pos x)]
      else segments in
    text_of segments' = Py.take (Z.to_nat (TextStructure.start_pos x)) text
    /\ spans_chained 0 segments' (TextStructure.start_pos x)).
  { cbv zeta. destruct (Z.ltb_spec last_pos (TextStructure.start_pos x)).
    - split.
      + rewrite text_of_app, text_of_singleton, Htext. apply take_slice; lia.
      + apply spans_chained_snoc; [done|]. apply len_slice; lia.
    - by assert (TextStructure.start_pos x = last_pos) as -> by lia. }
  cbv zeta in Hbefore. destruct Hbefore as [Htext' Hspans'].
  apply IH; [lia| | |done].
  - rewrite text_of_app, text_of_singleton, Htext', <- Hcontent.
    apply take_slice; lia.
  - apply spans_chained_snoc; [done|].
    rewrite <- Hcontent. apply len_slice; lia.
Qed.

End Segments.

(** X30. When the structures are in the order of their [start_pos] and the
    list items among them lie in the text where they say, without overlap,
    [split_list_items] cuts the text into consecutive segments: their spans
    follow one another from 0 to [len(text)], each segment is as long as its
    span, and their texts, one after the other, are the text. *)
Theorem split_list_items_round_trip (text : string)
    (structures : list TextStructure.t) :
  starts_ordered structures ->
  items_chained text 0 structures ->
  text_of (split_list_items text structures) = text
  /\ spans_chained 0 (split_list_items text structures) (Py.len text).
Proof.
  intros Hord Hitems. unfold split_list_items.
  rewrite sorted_by_start_ordered by done.
  pose proof (len_nonneg text) as Hlen.
  destruct (split_loop_inv text structures [] 0 ltac:(lia) ltac:(by destruct text)
              ltac:(done) Hitems) as (Hpos & Htext & Hspans).
  destruct (foldl (split_step text) ([], 0) structures) as [segments last_pos].
  cbn [fst snd] in *.
  destruct (Z.ltb_spec last_pos (Py.len text)).
  - split.
    + rewrite text_of_app, text_of_singleton, Htext, slice_to_end by lia.
      apply take_drop.
    + apply spans_chained_snoc; [done|].
      rewrite slice_to_end by lia. unfold Py.len in *. rewrite length_drop. lia.
  - assert (last_pos = Py.len text) as -> by lia.
    split; [|done]. rewrite Htext. apply take_all. unfold Py.len. lia.
Qed.

Lemma split_list_items_round_trip_witness :
  text_of (split_list_items list_text [list_item]) = list_text
  /\ spans_chained 0 (split_list_items list_text [list_item]) (Py.len list_text).
Proof.
  apply (split_list_items_round_trip list_text [list_item]).
  - done.
  - vm_compute. repeat split; discriminate.
Defined.
